(** * Campo Minado: the genetic trainer (agente_genetico/main.cpp)

    A shallow embedding of the board environment, the rule interpreter,
    the fitness evaluator, the crossover operator and the population
    checkpoint of the genetic agent, together with the board of the
    human-playable game (jogador_humano/main.cpp).

    Conventions.
    - A C++ [int] is a [Z]; every quantity of the board is far from the
      32-bit limits, the checkpoint codec writes the wrap-around out.
    - [std::vector<std::vector<Cell>>] is a [list (list Cell)], read and
      updated by index with stdpp's lookup and alter.
    - A method that mutates [*this] or a reference parameter takes the old
      value and returns the new one.
    - The recursion of [revealCell] is bounded by an explicit call depth;
      [None] stands for a call stack that ran out.
    - [gen_global] is an arbitrary sequence of raw draws [rnd] read through
      a cursor.

    - [gen_fixed] and the human game's generator are sequences of draws
      of their own; [uniform_real_distribution] reads a sequence of reals.

    The file has the program, the vocabulary of the statements and the
    proofs, which end with the theorems C1 to C10.  The properties X1 to X22
    of the selection and mutation operators, the scenario bank, accepted
    checkpoints and the human game follow them. *)

From Stdlib Require Import ZArith Lia Bool Floats.
From Stdlib.Strings Require Import Byte.
From stdpp Require Import base tactics option relations list list_numbers
  sorting strings gmap.

Local Open Scope Z_scope.

(** ** Game constants *)

Definition GRID_WIDTH : Z := 10.
Definition GRID_HEIGHT : Z := 10.
Definition NUM_MINES : Z := 15.

(** ** Parameters of the genetic algorithm *)

Definition POPULATION_SIZE : Z := 300.
Definition NUM_RULES : Z := 150.

(** ** Cells and games *)

Inductive CellState := HIDDEN | REVEALED | FLAGGED.

Record Cell := mkCell {
  isMine : bool;
  neighboringMines : Z;
  state : CellState
}.

(** [Cell()] *)
Definition Cell0 : Cell := mkCell false 0 HIDDEN.

Record Game := mkGame {
  grid : list (list Cell);
  gameOver : bool;
  youWin : bool
}.

Definition CellState_eqb (a b : CellState) : bool :=
  match a, b with
  | HIDDEN, HIDDEN | REVEALED, REVEALED | FLAGGED, FLAGGED => true
  | _, _ => false
  end.

Definition set_state (s : CellState) (c : Cell) : Cell :=
  mkCell (isMine c) (neighboringMines c) s.

Definition set_isMine (b : bool) (c : Cell) : Cell :=
  mkCell b (neighboringMines c) (state c).

Definition set_neighboringMines (n : Z) (c : Cell) : Cell :=
  mkCell (isMine c) n (state c).

Definition set_grid (gr : list (list Cell)) (g : Game) : Game :=
  mkGame gr (gameOver g) (youWin g).

Definition set_gameOver (b : bool) (g : Game) : Game :=
  mkGame (grid g) b (youWin g).

Definition set_youWin (b : bool) (g : Game) : Game :=
  mkGame (grid g) (gameOver g) b.

(** [grid[y][x]]: the row is picked first.  An index outside the vector is
    undefined behaviour in the source; every access of the source is behind
    a bounds test, so the value chosen here is never looked at. *)
Definition cellAt (gr : list (list Cell)) (x y : Z) : Cell :=
  default Cell0 (gr !! Z.to_nat y ≫= λ row, row !! Z.to_nat x).

(** [grid[y][x] = f (grid[y][x])] *)
Definition updCell (x y : Z) (f : Cell → Cell) (gr : list (list Cell))
  : list (list Cell) :=
  alter (alter f (Z.to_nat x)) (Z.to_nat y) gr.

(** [x < 0 || x >= GRID_WIDTH || y < 0 || y >= GRID_HEIGHT], negated *)
Definition inBounds (x y : Z) : bool :=
  (0 <=? x) && (x <? GRID_WIDTH) && (0 <=? y) && (y <? GRID_HEIGHT).

(** The cells in the order of
    [for (y = 0; y < GRID_HEIGHT; ++y) for (x = 0; x < GRID_WIDTH; ++x)]. *)
Definition allCells : list (Z * Z) :=
  y ← seqZ 0 GRID_HEIGHT; x ← seqZ 0 GRID_WIDTH; [(x, y)].

(** The offsets in the order of
    [for (dy = -s; dy <= s; dy++) for (dx = -s; dx <= s; dx++)]. *)
Definition offsets (s : Z) : list (Z * Z) :=
  dy ← seqZ (- s) (2 * s + 1); dx ← seqZ (- s) (2 * s + 1); [(dx, dy)].

(** A loop whose body may fail, run over a list. *)
Fixpoint foldM {A S : Type} (f : A → S → option S) (l : list A) (s : S)
  : option S :=
  match l with
  | [] => Some s
  | a :: l' => s' ← f a s; foldM f l' s'
  end.

(** [Game()] : [grid(GRID_HEIGHT, std::vector<Cell>(GRID_WIDTH))] *)
Definition newGame : Game :=
  mkGame (replicate (Z.to_nat GRID_HEIGHT) (replicate (Z.to_nat GRID_WIDTH) Cell0))
         false false.

(** A loop that counts the cells of the whole grid that pass a test. *)
Definition countCells (p : Cell → bool) (gr : list (list Cell)) : Z :=
  fold_left (λ n '(x, y), if p (cellAt gr x y) then n + 1 else n) allCells 0.

Definition isRevealed (c : Cell) : bool := CellState_eqb (state c) REVEALED.
Definition isHidden (c : Cell) : bool := CellState_eqb (state c) HIDDEN.
Definition isFlagged (c : Cell) : bool := CellState_eqb (state c) FLAGGED.

Definition checkWinCondition (g : Game) : Game :=
  let revealedCount := countCells isRevealed (grid g) in
  if revealedCount =? GRID_WIDTH * GRID_HEIGHT - NUM_MINES
  then set_youWin true g else g.

(** The deepest nesting [revealCell] can reach: one frame per cell, and
    the frame that returns at once. *)
Definition STACK : nat := S (Z.to_nat (GRID_WIDTH * GRID_HEIGHT)).

(** [Game::revealCell] of the genetic agent: the flood fill calls itself
    on the whole 3x3 block, centre included. *)
Fixpoint revealCell (depth : nat) (x y : Z) (g : Game) : option Game :=
  match depth with
  | O => None
  | S depth' =>
    if negb (inBounds x y) || negb (isHidden (cellAt (grid g) x y)) then Some g
    else
      let g1 := set_grid (updCell x y (set_state REVEALED) (grid g)) g in
      if isMine (cellAt (grid g1) x y) then Some (set_gameOver true g1)
      else
        g2 ← (if neighboringMines (cellAt (grid g1) x y) =? 0
              then foldM (λ '(dx, dy) g', revealCell depth' (x + dx) (y + dy) g')
                         (offsets 1) g1
              else Some g1);
        Some (checkWinCondition g2)
  end.

(** [Game::revealCell] of the human-playable game: the same, but the loop
    skips [dx == 0 && dy == 0]. *)
Fixpoint revealCell_humano (depth : nat) (x y : Z) (g : Game) : option Game :=
  match depth with
  | O => None
  | S depth' =>
    if negb (inBounds x y) || negb (isHidden (cellAt (grid g) x y)) then Some g
    else
      let g1 := set_grid (updCell x y (set_state REVEALED) (grid g)) g in
      if isMine (cellAt (grid g1) x y) then Some (set_gameOver true g1)
      else
        g2 ← (if neighboringMines (cellAt (grid g1) x y) =? 0
              then foldM (λ '(dx, dy) g',
                            if (dx =? 0) && (dy =? 0) then Some g'
                            else revealCell_humano depth' (x + dx) (y + dy) g')
                         (offsets 1) g1
              else Some g1);
        Some (checkWinCondition g2)
  end.

Definition placeFlag (x y : Z) (g : Game) : Game :=
  if negb (inBounds x y) || negb (isHidden (cellAt (grid g) x y)) then g
  else set_grid (updCell x y (set_state FLAGGED) (grid g)) g.

(** The inner loops of [initializeGridFixed]: the mines among the cells of
    the 3x3 block that lie on the board. *)
Definition countMineNeighbors (gr : list (list Cell)) (x y : Z) : Z :=
  fold_left (λ n '(dx, dy),
               let nx := x + dx in
               let ny := y + dy in
               if inBounds nx ny && isMine (cellAt gr nx ny) then n + 1 else n)
            (offsets 1) 0.

(** [mineGrid[y][x]] *)
Definition mineAt (mineGrid : list (list bool)) (x y : Z) : bool :=
  default false (mineGrid !! Z.to_nat y ≫= λ row, row !! Z.to_nat x).

Definition initializeGridFixed (startX startY : Z) (mineGrid : list (list bool))
    (g : Game) : option Game :=
  let gr1 :=
    fold_left (λ gr '(x, y),
                 updCell x y (set_isMine (mineAt mineGrid x y))
                   (updCell x y (λ _, Cell0) gr))
              allCells (grid g) in
  let gr2 :=
    fold_left (λ gr '(x, y),
                 if isMine (cellAt gr x y) then gr
                 else updCell x y (set_neighboringMines (countMineNeighbors gr x y)) gr)
              allCells gr1 in
  let g2 := mkGame gr2 false false in
  if (0 <=? startX) && (0 <=? startY)
  then revealCell STACK startX startY g2
  else Some g2.

(** ** Rules, individuals, scenarios *)

Inductive RuleAction := ACTION_REVEAL_HIDDEN | ACTION_PLACE_FLAG.

Record Rule := mkRule {
  numberCondition : Z;
  hiddenCondition : Z;
  flaggedCondition : Z;
  nearEdge : bool;
  hasSpecificPattern : bool;
  extendedScope : Z;
  priority : Z;
  action : RuleAction
}.

Record Individual := mkIndividual {
  rules : list Rule;
  fitness : float
}.

Record FixedGame := mkFixedGame {
  startX : Z;
  startY : Z;
  mineGrid : list (list bool)
}.

(** The comparator handed to [std::sort] in [applyRules]:
    [a.priority > b.priority]. *)
Definition byPriority (a b : Rule) : bool := priority b <? priority a.

(** [static_cast<double>] of an [int] or a [size_t]. *)
Definition double_of_int (z : Z) : float :=
  if z <? 0 then PrimFloat.opp (PrimFloat.of_uint63 (Uint63.of_Z (- z)))
  else PrimFloat.of_uint63 (Uint63.of_Z z).

Section Trainer.

(** The raw output of [gen_global], one draw per position. *)
Variable rnd : nat → nat.

(** [std::sort] with a comparator.  The library promises a sorted
    permutation of its input and nothing about the order of elements that
    compare equal; the algorithm belongs to the C++ library, not to this
    program. *)
Variable std_sort : (Rule → Rule → bool) → list Rule → list Rule.

(** [std::uniform_int_distribution<>(a, b)(gen_global)] at cursor [k]. *)
Definition uniform_int (a b : Z) (k : nat) : Z * nat :=
  (a + Z.of_nat (rnd k) mod (b - a + 1), S k).

Definition terminal (g : Game) : bool := gameOver g || youWin g.

(** The two inner loops of [applyRules] over the neighbourhood of (x, y):
    [flagsCount], [hiddenCount] and [hiddenCells]. *)
Definition scanNeighbors (g : Game) (scope x y : Z) : Z * Z * list (Z * Z) :=
  fold_left
    (λ '(flagsCount, hiddenCount, hiddenCells) '(dx, dy),
       let nx := x + dx in
       let ny := y + dy in
       if negb (inBounds nx ny) then (flagsCount, hiddenCount, hiddenCells)
       else
         let flagsCount :=
           if isFlagged (cellAt (grid g) nx ny) then flagsCount + 1 else flagsCount in
         if isHidden (cellAt (grid g) nx ny)
         then (flagsCount, hiddenCount + 1, hiddenCells ++ [(nx, ny)])
         else (flagsCount, hiddenCount, hiddenCells))
    (offsets scope) (0, 0, []).

(** [x <= 1 || x >= GRID_WIDTH-2 || y <= 1 || y >= GRID_HEIGHT-2] *)
Definition isNearEdge (x y : Z) : bool :=
  (x <=? 1) || (GRID_WIDTH - 2 <=? x) || (y <=? 1) || (GRID_HEIGHT - 2 <=? y).

(** [for (auto &c : hiddenCells) if (!gameOver && !youWin) { revealCell; changed = true; }] *)
Definition revealAll (hiddenCells : list (Z * Z)) (st : Game * bool)
  : option (Game * bool) :=
  foldM (λ '(cx, cy) '(g, changed),
           if negb (gameOver g) && negb (youWin g)
           then g' ← revealCell STACK cx cy g; Some (g', true)
           else Some (g, changed))
        hiddenCells st.

(** The body of the two grid loops of [applyRules] for one rule and one
    cell; every [continue] leaves the state as it is. *)
Definition applyRuleAt (rule : Rule) (x y : Z) (st : Game * bool)
  : option (Game * bool) :=
  let '(g, changed) := st in
  let c := cellAt (grid g) x y in
  if isRevealed c && (neighboringMines c =? numberCondition rule) then
    let '(flagsCount, hiddenCount, hiddenCells) :=
      scanNeighbors g (extendedScope rule) x y in
    if negb (hiddenCount =? hiddenCondition rule) then Some st
    else if negb (flagsCount =? flaggedCondition rule) then Some st
    else if nearEdge rule && negb (isNearEdge x y) then Some st
    else if hasSpecificPattern rule && negb (neighboringMines c =? 2) then Some st
    else
      match action rule with
      | ACTION_REVEAL_HIDDEN =>
        if (flagsCount =? numberCondition rule) && (0 <? hiddenCount)
        then revealAll hiddenCells st
        else Some st
      | ACTION_PLACE_FLAG =>
        if (numberCondition rule - 1 =? flagsCount) && (hiddenCount =? 1)
        then
          if negb (gameOver g) && negb (youWin g)
          then
            let '(hx, hy) := default (0, 0) (head hiddenCells) in
            Some (placeFlag hx hy g, true)
          else Some st
        else Some st
      end
  else Some st.

(** The grid loops for one rule.  The third component tells whether the
    loop left through [return changed]. *)
Fixpoint scanGrid (rule : Rule) (cells : list (Z * Z)) (st : Game * bool)
  : option (Game * bool * bool) :=
  match cells with
  | [] => Some (st, false)
  | (x, y) :: cells' =>
    if terminal (fst st) then Some (st, true)
    else st' ← applyRuleAt rule x y st; scanGrid rule cells' st'
  end.

(** [for (auto &rule : sortedRules)] *)
Fixpoint applySorted (sortedRules : list Rule) (st : Game * bool)
  : option (Game * bool) :=
  match sortedRules with
  | [] => Some st
  | rule :: rest =>
    if terminal (fst st) then Some st
    else
      '(st', returned) ← scanGrid rule allCells st;
      if returned : bool then Some st' else applySorted rest st'
  end.

(** [bool applyRules(Individual &ind, Game &game)]: both references come
    back, with the returned flag. *)
Definition applyRules (ind : Individual) (game : Game)
  : option (Individual * Game * bool) :=
  let sortedRules := std_sort byPriority (rules ind) in
  '(game', changed) ← applySorted sortedRules (game, false);
  Some (ind, game', changed).

(** The hidden cells in the order [revealRandomCell] collects them. *)
Definition collectHidden (g : Game) : list (Z * Z) :=
  fold_left (λ hiddenCells '(x, y),
               if isHidden (cellAt (grid g) x y) then hiddenCells ++ [(x, y)]
               else hiddenCells)
            allCells [].

Definition revealRandomCell (game : Game) (k : nat) : option (Game * nat) :=
  let hiddenCells := collectHidden game in
  match hiddenCells with
  | [] => Some (game, k)
  | _ =>
    let '(idx, k') := uniform_int 0 (Z.of_nat (length hiddenCells) - 1) k in
    let '(hx, hy) := default (0, 0) (hiddenCells !! Z.to_nat idx) in
    game' ← revealCell STACK hx hy game;
    Some (game', k')
  end.

(** The [while] loop of [evaluateIndividual]; [fuel] bounds the number of
    times the body runs, [None] means the bound was hit with the loop
    condition still true. *)
Fixpoint playLoop (fuel : nat) (ind : Individual) (game : Game)
    (actionsTaken : Z) (changed : bool) (k : nat)
  : option (Individual * Game * Z * nat) :=
  if negb (gameOver game) && negb (youWin game) && changed then
    match fuel with
    | O => None
    | S fuel' =>
      '(ind, game, changed) ← applyRules ind game;
      let actionsTaken := if changed : bool then actionsTaken + 1 else actionsTaken in
      if negb changed && negb (gameOver game) && negb (youWin game)
      then
        '(game, k) ← revealRandomCell game k;
        playLoop fuel' ind game (actionsTaken + 1) true k
      else playLoop fuel' ind game actionsTaken changed k
    end
  else Some (ind, game, actionsTaken, k).

(** The scoring loops: [safeRevealed], [correctFlags], [minesRevealed]. *)
Definition tally (g : Game) : Z * Z * Z :=
  fold_left
    (λ '(safeRevealed, correctFlags, minesRevealed) '(x, y),
       let c := cellAt (grid g) x y in
       (if negb (isMine c) && isRevealed c then safeRevealed + 1 else safeRevealed,
        if isMine c && isFlagged c then correctFlags + 1 else correctFlags,
        if isMine c && isRevealed c then minesRevealed + 1 else minesRevealed))
    allCells (0, 0, 0).

Definition gameScore (g : Game) (actionsTaken : Z) : float :=
  let '(safeRevealed, correctFlags, minesRevealed) := tally g in
  let score := double_of_int safeRevealed in
  let score := (score + double_of_int correctFlags * 5.0)%float in
  let score := (score - double_of_int minesRevealed * 50.0)%float in
  let score := (score - double_of_int actionsTaken * 0x1.999999999999ap-4)%float in
  if youWin g then (score + 2000.0)%float else score.

(** One scenario of [evaluateIndividual]: the board, the playout, the
    score. *)
Definition playGame (fuel : nat) (ind : Individual) (fg : FixedGame) (k : nat)
  : option (Individual * Game * Z * nat) :=
  game ← initializeGridFixed (startX fg) (startY fg) (mineGrid fg) newGame;
  playLoop fuel ind game 0 true k.

(** [for (const auto &fg : selectedGames)], with the accumulator
    [totalScore] and the two counters of the generation. *)
Fixpoint evalGames (fuel : nat) (ind : Individual) (games : list FixedGame)
    (totalScore : float) (generationWins generationGames : Z) (k : nat)
  : option (Individual * float * Z * Z * nat) :=
  match games with
  | [] => Some (ind, totalScore, generationWins, generationGames, k)
  | fg :: rest =>
    '(ind, game, actionsTaken, k) ← playGame fuel ind fg k;
    let score := gameScore game actionsTaken in
    let generationWins := if youWin game then generationWins + 1 else generationWins in
    evalGames fuel ind rest (totalScore + score)%float
              generationWins (generationGames + 1) k
  end.

Definition evaluateIndividual (fuel : nat) (ind : Individual)
    (selectedGames : list FixedGame) (generationWins generationGames : Z) (k : nat)
  : option (Individual * float * Z * Z * nat) :=
  '(ind, totalScore, generationWins, generationGames, k) ←
    evalGames fuel ind selectedGames 0%float generationWins generationGames k;
  Some (ind, (totalScore / double_of_int (Z.of_nat (length selectedGames)))%float,
        generationWins, generationGames, k).

(** ** Crossover *)

(** [Rule()], what [resize] fills a vector with. *)
Definition Rule0 : Rule := mkRule 0 0 0 false false 0 0 ACTION_REVEAL_HIDDEN.

(** [p.rules[i]]; the source reads it for [i < NUM_RULES] and relies on the
    parent holding that many rules. *)
Definition gene (p : Individual) (i : Z) : Rule :=
  default Rule0 (rules p !! Z.to_nat i).

(** The [while] loop that collects [numPoints] distinct cut points.  It is
    a rejection loop: [fuel] bounds the draws, [None] means they ran out. *)
Fixpoint drawPoints (fuel : nat) (numPoints : Z) (points : list Z) (k : nat)
  : option (list Z * nat) :=
  if Z.of_nat (length points) <? numPoints then
    match fuel with
    | O => None
    | S fuel' =>
      let '(point, k) := uniform_int 1 (NUM_RULES - 1) k in
      if bool_decide (point ∈ points)
      then drawPoints fuel' numPoints points k
      else drawPoints fuel' numPoints (points ++ [point]) k
    end
  else Some (points, k).

(** The body of the two copy loops: gene [i] of both offspring. *)
Definition copyGene (toggle : bool) (p1 p2 : Individual) (i : Z)
    (o : list Rule * list Rule) : list Rule * list Rule :=
  if toggle
  then (<[Z.to_nat i := gene p2 i]> o.1, <[Z.to_nat i := gene p1 i]> o.2)
  else (<[Z.to_nat i := gene p1 i]> o.1, <[Z.to_nat i := gene p2 i]> o.2).

(** [for (int i = lo; i < hi; i++)] *)
Definition copyBlock (toggle : bool) (p1 p2 : Individual) (lo hi : Z)
    (o : list Rule * list Rule) : list Rule * list Rule :=
  fold_left (λ o i, copyGene toggle p1 p2 i o) (seqZ lo (hi - lo)) o.

(** [for (auto point : points)], with [last] and [toggle]. *)
Definition copyBlocks (p1 p2 : Individual) (points : list Z)
    (st : list Rule * list Rule * Z * bool) : list Rule * list Rule * Z * bool :=
  fold_left (λ '(o, last, toggle) point,
               (copyBlock toggle p1 p2 last point o, point, negb toggle))
            points st.

(** [void crossover(const Individual &p1, const Individual &p2,
                    Individual &o1, Individual &o2)].
    The cut points are distinct integers, so the outcome of [std::sort] on
    them does not depend on the algorithm. *)
Definition crossover (fuel : nat) (p1 p2 o1 o2 : Individual) (k : nat)
  : option (Individual * Individual * nat) :=
  let '(numPoints, k) := uniform_int 1 (NUM_RULES - 1) k in
  '(points, k) ← drawPoints fuel numPoints [] k;
  let points := merge_sort Z.le points in
  let o := (resize (Z.to_nat NUM_RULES) Rule0 (rules o1),
            resize (Z.to_nat NUM_RULES) Rule0 (rules o2)) in
  let '(o, last, toggle) := copyBlocks p1 p2 points (o, 0, false) in
  let o := copyBlock toggle p1 p2 last NUM_RULES o in
  Some (mkIndividual o.1 (fitness o1), mkIndividual o.2 (fitness o2), k).

(** ** A fresh random individual *)

Definition randomRule (k : nat) : Rule * nat :=
  let '(num, k) := uniform_int 0 8 k in
  let '(hid, k) := uniform_int 0 8 k in
  let '(fla, k) := uniform_int 0 8 k in
  let '(edge, k) := uniform_int 0 1 k in
  let '(pat, k) := uniform_int 0 1 k in
  let '(scope, k) := uniform_int 1 2 k in
  let '(prio, k) := uniform_int 1 10 k in
  let '(act, k) := uniform_int 0 1 k in
  (mkRule num hid fla (negb (edge =? 0)) (negb (pat =? 0)) scope prio
          (if act =? 0 then ACTION_REVEAL_HIDDEN else ACTION_PLACE_FLAG), k).

Definition createRandomIndividual (k : nat) : Individual * nat :=
  let '(rs, k) :=
    fold_left (λ '(rs, k) i, let '(r, k) := randomRule k in (<[i := r]> rs, k))
              (seq 0 (Z.to_nat NUM_RULES))
              (resize (Z.to_nat NUM_RULES) Rule0 [], k) in
  (mkIndividual rs 0%float, k).

End Trainer.

(** ** Object representations

    [ofs.write(reinterpret_cast<const char*>(&v), sizeof(v))] copies the bytes
    of an object to the stream and [ifs.read] copies bytes back into an
    object.  The layout is the usual one of the platforms the program is
    built for: little-endian, a 4-byte two's complement [int], a 4-byte
    enumeration, a 1-byte [bool] and an IEEE-754 binary64 [double]. *)

Definition byte_of_Z (z : Z) : byte :=
  default "000"%byte (Byte.of_N (Z.to_N (z mod 256))).

Definition Z_of_byte (b : byte) : Z := Z.of_N (Byte.to_N b).

(** The [n] low bytes of [z], least significant first; a negative [z]
    comes out in two's complement. *)
Fixpoint le_bytes (n : nat) (z : Z) : list byte :=
  match n with
  | O => []
  | S n' => byte_of_Z z :: le_bytes n' (z / 256)
  end.

Fixpoint le_value (bs : list byte) : Z :=
  match bs with
  | [] => 0
  | b :: bs' => Z_of_byte b + 256 * le_value bs'
  end.

(** The bit pattern of a binary64 number: sign, 11 exponent bits, 52
    fraction bits.  Rocq's floats have a single NaN, written as the quiet
    NaN with an empty payload. *)
Definition bits_of_SF (f : spec_float) : Z :=
  match f with
  | S754_zero s => if s then 2 ^ 63 else 0
  | S754_infinity s => (if s then 2 ^ 63 else 0) + 2047 * 2 ^ 52
  | S754_nan => 2047 * 2 ^ 52 + 2 ^ 51
  | S754_finite s m e =>
    (if s then 2 ^ 63 else 0)
    + (if Z.pos m <? 2 ^ 52 then Z.pos m
       else (e + 1075) * 2 ^ 52 + (Z.pos m - 2 ^ 52))
  end.

Definition SF_of_bits (b : Z) : spec_float :=
  let s := 2 ^ 63 <=? b in
  let r := b mod 2 ^ 63 in
  let ex := r / 2 ^ 52 in
  let mant := r mod 2 ^ 52 in
  if ex =? 0 then
    match mant with
    | Z.pos p => S754_finite s p (-1074)
    | _ => S754_zero s
    end
  else if ex =? 2047 then
    (if mant =? 0 then S754_infinity s else S754_nan)
  else
    match mant + 2 ^ 52 with
    | Z.pos p => S754_finite s p (ex - 1075)
    | _ => S754_nan
    end.

(** How a type lies in memory: its size, the bytes of a value, the value
    of a byte sequence of that size. *)
Class Repr (T : Type) := mkRepr {
  sizeof : nat;
  to_bytes : T → list byte;
  of_bytes : list byte → T
}.

Definition int_repr : Repr Z :=
  mkRepr Z 4 (le_bytes 4)
         (λ bs, let u := le_value bs in if u <? 2 ^ 31 then u else u - 2 ^ 32).

Definition bool_repr : Repr bool :=
  mkRepr bool 1 (λ b, [if b then "001"%byte else "000"%byte])
         (λ bs, negb (le_value bs =? 0)).

(** [ACTION_REVEAL_HIDDEN] is 0 and [ACTION_PLACE_FLAG] is 1; no other
    value is ever written. *)
Definition action_repr : Repr RuleAction :=
  mkRepr RuleAction 4
         (λ a, le_bytes 4 (match a with
                           | ACTION_REVEAL_HIDDEN => 0
                           | ACTION_PLACE_FLAG => 1
                           end))
         (λ bs, if le_value bs =? 0 then ACTION_REVEAL_HIDDEN else ACTION_PLACE_FLAG).

Definition double_repr : Repr float :=
  mkRepr float 8 (λ f, le_bytes 8 (bits_of_SF (Prim2SF f)))
         (λ bs, SF2Prim (SF_of_bits (le_value bs))).

(** ** Streams and files *)

Record istream := mkIstream {
  buf : list byte;
  failbit : bool
}.

(** [ifs.read(reinterpret_cast<char*>(&v), sizeof(v))] into an object whose
    value was [old].  A stream that has failed reads nothing; a short read
    stores the bytes that were left over the first bytes of the object and
    sets the fail bit. *)
Definition sread {T} (R : Repr T) (old : T) (s : istream) : T * istream :=
  if failbit s then (old, s)
  else if (@sizeof T R <=? length (buf s))%nat
  then (of_bytes (take (@sizeof T R) (buf s)),
        mkIstream (drop (@sizeof T R) (buf s)) false)
  else (of_bytes (buf s ++ drop (length (buf s)) (to_bytes old)),
        mkIstream [] true).

(** [ofs.write(reinterpret_cast<const char*>(&v), sizeof(v))] *)
Definition swrite {T} (R : Repr T) (v : T) (ofs : list byte) : list byte :=
  ofs ++ to_bytes v.

Record FileSystem := mkFileSystem {
  files : gmap string (list byte);
  writable : string → bool
}.

(** ** The population checkpoint *)

Definition writeRule (ofs : list byte) (rule : Rule) : list byte :=
  let ofs := swrite int_repr (numberCondition rule) ofs in
  let ofs := swrite int_repr (hiddenCondition rule) ofs in
  let ofs := swrite int_repr (flaggedCondition rule) ofs in
  let ofs := swrite bool_repr (nearEdge rule) ofs in
  let ofs := swrite bool_repr (hasSpecificPattern rule) ofs in
  let ofs := swrite int_repr (extendedScope rule) ofs in
  let ofs := swrite int_repr (priority rule) ofs in
  swrite action_repr (action rule) ofs.

Definition writeIndividual (ofs : list byte) (ind : Individual) : list byte :=
  let ofs := swrite int_repr (Z.of_nat (length (rules ind))) ofs in
  let ofs := fold_left writeRule (rules ind) ofs in
  swrite double_repr (fitness ind) ofs.

Definition savePopulation (population : list Individual) (filename : string)
    (fs : FileSystem) : FileSystem :=
  if negb (writable fs filename) then fs
  else
    let ofs := swrite int_repr (Z.of_nat (length population)) [] in
    let ofs := fold_left writeIndividual population ofs in
    mkFileSystem (<[filename := ofs]> (files fs)) (writable fs).

Definition readRule (rule : Rule) (ifs : istream) : Rule * istream :=
  let '(num, ifs) := sread int_repr (numberCondition rule) ifs in
  let '(hid, ifs) := sread int_repr (hiddenCondition rule) ifs in
  let '(fla, ifs) := sread int_repr (flaggedCondition rule) ifs in
  let '(edge, ifs) := sread bool_repr (nearEdge rule) ifs in
  let '(pat, ifs) := sread bool_repr (hasSpecificPattern rule) ifs in
  let '(scope, ifs) := sread int_repr (extendedScope rule) ifs in
  let '(prio, ifs) := sread int_repr (priority rule) ifs in
  let '(act, ifs) := sread action_repr (action rule) ifs in
  (mkRule num hid fla edge pat scope prio act, ifs).

(** [Individual()] *)
Definition Individual0 : Individual := mkIndividual [] 0%float.

(** [for (int j = 0; j < numRules; j++)] over [population[i].rules] *)
Definition readRules (numRules : Z) (rs : list Rule) (ifs : istream)
  : list Rule * istream :=
  fold_left (λ '(rs, ifs) j,
               let '(rule, ifs) := readRule (default Rule0 (rs !! j)) ifs in
               (<[j := rule]> rs, ifs))
            (seq 0 (Z.to_nat numRules)) (rs, ifs).

(** [for (int i = 0; i < popSize; i++)], leaving through [return false] on
    the first individual that does not fit. *)
Fixpoint readIndividuals (indices : list nat) (population : list Individual)
    (ifs : istream) : bool * list Individual :=
  match indices with
  | [] => (true, population)
  | i :: rest =>
    let '(numRules, ifs) := sread int_repr 0 ifs in
    if failbit ifs || negb (numRules =? NUM_RULES) then (false, population)
    else
      let ind := default Individual0 (population !! i) in
      let rs := resize (Z.to_nat numRules) Rule0 (rules ind) in
      let '(rs, ifs) := readRules numRules rs ifs in
      let '(fit, ifs) := sread double_repr (fitness ind) ifs in
      let population := <[i := mkIndividual rs fit]> population in
      if failbit ifs then (false, population)
      else readIndividuals rest population ifs
  end.

(** [bool loadPopulation(std::vector<Individual> &population, ...)]: the
    flag and the vector as the call leaves it. *)
Definition loadPopulation (population : list Individual) (filename : string)
    (fs : FileSystem) : bool * list Individual :=
  match files fs !! filename with
  | None => (false, population)
  | Some bytes =>
    let ifs := mkIstream bytes false in
    let '(popSize, ifs) := sread int_repr 0 ifs in
    if failbit ifs || negb (popSize =? POPULATION_SIZE) then (false, population)
    else
      let population := replicate (Z.to_nat popSize) Individual0 in
      readIndividuals (seq 0 (Z.to_nat popSize)) population ifs
  end.

(** ** The scenario sample and the start of [main] *)

Section Startup.

Variable rnd : nat → nat.

(** [std::sample(first, last, out, n, gen)]: [min(n, size)] elements of the
    bank, in the order of the bank.  The choice belongs to the C++ library. *)
Variable std_sample : list FixedGame → Z → list FixedGame.

Definition selectFixedGames (fixedGamesGlobal : list FixedGame) (numGames : Z)
  : list FixedGame :=
  match fixedGamesGlobal with
  | [] => []
  | _ => std_sample fixedGamesGlobal numGames
  end.

(** Step 2 of [main]: load the checkpoint, or push [POPULATION_SIZE] random
    individuals onto [population]. *)
Definition startPopulation (fs : FileSystem) (k : nat) : list Individual * nat :=
  let '(ok, population) := loadPopulation [] "populacao_regras.dat" fs in
  if negb ok then
    fold_left (λ '(population, k) _,
                 let '(ind, k) := createRandomIndividual rnd k in
                 (population ++ [ind], k))
              (seq 0 (Z.to_nat POPULATION_SIZE)) (population, k)
  else (population, k).

End Startup.

(** * The vocabulary of the statements *)

(** ** Boards: cells in a state, marking, the flood, the invariants of play *)

Definition b2z (b : bool) : Z := if b then 1 else 0.

Definition wf_grid (gr : list (list Cell)) : Prop :=
  length gr = Z.to_nat GRID_HEIGHT ∧
  Forall (λ row, length row = Z.to_nat GRID_WIDTH) gr.

(** [grid[y][x].state = REVEALED] *)
Definition mark (x y : Z) (g : Game) : Game :=
  set_grid (updCell x y (set_state REVEALED) (grid g)) g.

(** What a call of [revealCell] on a cell that is no mine does to the game:
    it marks hidden cells that hold no mine, and it re-evaluates the win
    condition. *)
Inductive flood_step : Game → Game → Prop :=
  | fs_mark g x y :
      inBounds x y = true →
      isHidden (cellAt (grid g) x y) = true →
      isMine (cellAt (grid g) x y) = false →
      flood_step g (mark x y g)
  | fs_check g : flood_step g (checkWinCondition g).

Definition flood : Game → Game → Prop := rtc flood_step.

(** The neighbour counts are those of the mine layout. *)
Definition numbers_ok (gr : list (list Cell)) : Prop :=
  ∀ x y, inBounds x y = true → isMine (cellAt gr x y) = false →
         neighboringMines (cellAt gr x y) = countMineNeighbors gr x y.

Definition same_layout (gr gr' : list (list Cell)) : Prop :=
  ∀ x y, inBounds x y = true →
         isMine (cellAt gr' x y) = isMine (cellAt gr x y) ∧
         neighboringMines (cellAt gr' x y) = neighboringMines (cellAt gr x y).

Definition same_mines (gr gr' : list (list Cell)) : Prop :=
  ∀ x y, inBounds x y = true → isMine (cellAt gr' x y) = isMine (cellAt gr x y).

Definition hiddenCount (g : Game) : Z := countCells isHidden (grid g).

Definition reveal_post (x y : Z) (g g' : Game) : Prop :=
  flood g g' ∧
  if inBounds x y && isHidden (cellAt (grid g) x y)
  then ∃ g'', flood (mark x y g) g'' ∧ g' = checkWinCondition g''
  else g' = g.

Definition fill_inv (n : Z) (g1 g : Game) : Prop :=
  wf_grid (grid g) ∧ numbers_ok (grid g) ∧ hiddenCount g < n ∧
  same_layout (grid g1) (grid g).

Definition SAFE_CELLS : Z := GRID_WIDTH * GRID_HEIGHT - NUM_MINES.

Record live (g : Game) : Prop := mkLive {
  live_wf : wf_grid (grid g);
  live_numbers : numbers_ok (grid g);
  live_mines : countCells isMine (grid g) = NUM_MINES;
  live_sound : ∀ x y, inBounds x y = true →
      isRevealed (cellAt (grid g) x y) = true → isMine (cellAt (grid g) x y) = false;
  live_flags : ∀ x y, inBounds x y = true →
      isFlagged (cellAt (grid g) x y) = true → isMine (cellAt (grid g) x y) = true;
  live_gameOver : gameOver g = false;
  live_won : youWin g = true → countCells isRevealed (grid g) = SAFE_CELLS
}.

(** A live game between two calls of [revealCell]: the win flag is up to
    date. *)
Definition settled (g : Game) : Prop :=
  live g ∧ (countCells isRevealed (grid g) = SAFE_CELLS → youWin g = true).

Definition playable (g : Game) : Prop :=
  settled g ∨ (gameOver g = true ∧ wf_grid (grid g)).

Definition nbr (x y : Z) (d : Z * Z) : Z * Z := (x + d.1, y + d.2).




(** The number of mines of a bitmap, counted over the cells of the board. *)
Definition bitmapMines (mineGrid : list (list bool)) : Z :=
  fold_left (λ n '(x, y), if mineAt mineGrid x y then n + 1 else n) allCells 0.

(** A scenario of the bank: a [GRID_HEIGHT] x [GRID_WIDTH] bitmap holding
    [NUM_MINES] mines. *)
Definition validScenario (fg : FixedGame) : bool :=
  (Z.of_nat (length (mineGrid fg)) =? GRID_HEIGHT)
  && forallb (λ row, Z.of_nat (length row) =? GRID_WIDTH) (mineGrid fg)
  && (bitmapMines (mineGrid fg) =? NUM_MINES).

Definition installMines (mineGrid : list (list bool)) (gr : list (list Cell))
  : list (list Cell) :=
  fold_left (λ gr '(x, y),
               updCell x y (set_isMine (mineAt mineGrid x y))
                 (updCell x y (λ _, Cell0) gr))
            allCells gr.

Definition computeNumbers (gr : list (list Cell)) : list (list Cell) :=
  fold_left (λ gr '(x, y),
               if isMine (cellAt gr x y) then gr
               else updCell x y (set_neighboringMines (countMineNeighbors gr x y)) gr)
            allCells gr.

(** The board [initializeGridFixed] builds before its opening move. *)
Definition freshBoard (bm : list (list bool)) : Game :=
  mkGame (computeNumbers (installMines bm (grid newGame))) false false.

(** ** The checkpoint: values the codec carries, and two damaged files *)

(** A value survives the trip through its bytes. *)
Definition repr_ok {T} (R : Repr T) (v : T) : Prop :=
  length (@to_bytes T R v) = @sizeof T R ∧ @of_bytes T R (@to_bytes T R v) = v.

Definition int_range (z : Z) : bool := (- 2 ^ 31 <=? z) && (z <? 2 ^ 31).

Definition rule_ok (r : Rule) : bool :=
  int_range (numberCondition r) && int_range (hiddenCondition r)
  && int_range (flaggedCondition r) && int_range (extendedScope r)
  && int_range (priority r).

Definition ind_ok (ind : Individual) : bool :=
  (Z.of_nat (length (rules ind)) =? NUM_RULES) && forallb rule_ok (rules ind).

(** A population that fits the configured parameters. *)
Definition population_ok (population : list Individual) : bool :=
  (Z.of_nat (length population) =? POPULATION_SIZE) && forallb ind_ok population.

(** A checkpoint with the configured population size whose first
    individual records 149 rules. *)
Definition mismatchedRules : FileSystem :=
  mkFileSystem {[ "populacao_regras.dat" := le_bytes 4 300 ++ le_bytes 4 149 ]}
               (λ _, true).

(** A checkpoint that records 299 individuals. *)
Definition mismatchedSize : FileSystem :=
  mkFileSystem {[ "populacao_regras.dat" := le_bytes 4 299 ]} (λ _, true).

(** ** Crossover: cut points and the parent of a gene *)

(** The parent a gene is copied from, for the first offspring. *)
Definition parentOf (toggle : bool) (p1 p2 : Individual) : Individual :=
  if toggle then p2 else p1.

(** The number of cut points at or before position [i]. *)
Definition cutsUpTo (points : list Z) (i : Z) : nat :=
  length (filter (λ p, p ≤ i) points).

Definition cutPoints_ok (points : list Z) : Prop :=
  NoDup points ∧ Forall (λ p, 1 ≤ p ≤ NUM_RULES - 1) points.

(** ** Scores *)

Definition safeRevealed (g : Game) : Z :=
  countCells (λ c, negb (isMine c) && isRevealed c) (grid g).

Definition correctFlags (g : Game) : Z :=
  countCells (λ c, isMine c && isFlagged c) (grid g).

Definition minesRevealed (g : Game) : Z :=
  countCells (λ c, isMine c && isRevealed c) (grid g).

(** The score of one playout, as the table of weights has it. *)
Definition scoreFormula (g : Game) (actionsTaken : Z) : float :=
  let s := (double_of_int (safeRevealed g)
            + double_of_int (correctFlags g) * 5
            - double_of_int (minesRevealed g) * 50
            - double_of_int actionsTaken * 0x1.999999999999ap-4)%float in
  if youWin g then (s + 2000)%float else s.

(** The arithmetic mean in [double] arithmetic: the sum from the left,
    divided by the number of terms. *)
Definition mean (xs : list float) : float :=
  (fold_left PrimFloat.add xs 0 / double_of_int (Z.of_nat (length xs)))%float.

Section Playouts.

Variable rnd : nat → nat.
Variable std_sort : (Rule → Rule → bool) → list Rule → list Rule.

(** The playouts of the sampled scenarios, one after the other: the final
    board and the number of actions of each. *)
Fixpoint playAll (fuel : nat) (ind : Individual) (games : list FixedGame) (k : nat)
  : option (list (Game * Z) * nat) :=
  match games with
  | [] => Some ([], k)
  | fg :: rest =>
    '(_, g, actionsTaken, k) ← playGame rnd std_sort fuel ind fg k;
    '(results, k) ← playAll fuel ind rest k;
    Some ((g, actionsTaken) :: results, k)
  end.

End Playouts.

Definition scoreOf (r : Game * Z) : float := scoreFormula r.1 r.2.

Definition winsOf (results : list (Game * Z)) : Z :=
  Z.of_nat (length (filter (λ r, youWin r.1 = true) results)).

(** ** Sorting: the contract of [std::sort] and two algorithms that meet it *)




(** Insertion in front of the first element that need not stay before
    [x]. *)
Fixpoint insertSorted (cmp : Rule → Rule → bool) (x : Rule) (l : list Rule)
  : list Rule :=
  match l with
  | [] => [x]
  | y :: l' => if cmp y x then y :: insertSorted cmp x l' else x :: y :: l'
  end.

(** Two sorting algorithms that both meet the contract.  The first keeps
    equal elements in their order, the second reverses them. *)
Definition sortKeepingTies (cmp : Rule → Rule → bool) (l : list Rule) : list Rule :=
  foldr (insertSorted cmp) [] l.

Definition sortReversingTies (cmp : Rule → Rule → bool) (l : list Rule) : list Rule :=
  fold_left (λ acc x, insertSorted cmp x acc) l [].

(** Two rules of priority 5: a reveal rule that waits for a flag, and the
    flag rule that places it. *)
Definition revealNextToFlag : Rule := mkRule 1 1 1 false false 2 5 ACTION_REVEAL_HIDDEN.

Definition flagLastHidden : Rule := mkRule 1 1 0 false false 1 5 ACTION_PLACE_FLAG.

Definition tiedIndividual : Individual :=
  mkIndividual [revealNextToFlag; flagLastHidden] 0%float.

(** A scenario with one mine on its own at (2, 5) and the others along the
    lower edge, opened at (6, 3). *)
Definition tiedMines : list (Z * Z) :=
  [(2,5); (0,9); (1,9); (2,9); (3,9); (4,9); (5,9); (6,9); (7,9); (8,9); (9,9);
   (0,8); (1,8); (2,8); (3,8)].

Definition bitmapOf (mines : list (Z * Z)) : list (list bool) :=
  (λ y, (λ x, bool_decide ((x, y) ∈ mines)) <$> seqZ 0 GRID_WIDTH) <$> seqZ 0 GRID_HEIGHT.

Definition tiedScenario : FixedGame := mkFixedGame 6 3 (bitmapOf tiedMines).

(** ** Sequences of reveals *)




Definition c2_mines : list (Z * Z) :=
  [(0,0); (1,0); (2,0); (3,0); (4,0); (5,0); (6,0); (7,0); (8,0); (9,0);
   (0,9); (3,9); (5,9); (7,9); (9,9)].

Definition c2_scenario : FixedGame := mkFixedGame 5 5 (bitmapOf c2_mines).


Definition boardOk (g : Game) : bool :=
  (Z.of_nat (length (grid g)) =? GRID_HEIGHT)
  && forallb (λ row, Z.of_nat (length row) =? GRID_WIDTH) (grid g)
  && forallb (λ '(x, y),
                isMine (cellAt (grid g) x y)
                || (neighboringMines (cellAt (grid g) x y)
                    =? countMineNeighbors (grid g) x y))
             allCells.

(** The outcome of a reveal, for either version of [revealCell]. *)
Definition lost_only_on_mine (x y : Z) (g g' : Game) : Prop :=
  (gameOver g' = true →
   gameOver g = true ∨
   (inBounds x y = true ∧ isMine (cellAt (grid g) x y) = true)) ∧
  ((inBounds x y = true → isMine (cellAt (grid g) x y) = false) →
   gameOver g' = gameOver g).

(** ** Sample data *)

Definition samplePopulation : list Individual :=
  replicate 300 (mkIndividual (replicate 150 flagLastHidden) 0x1.8p+1%float).

Definition emptyDisk : FileSystem := mkFileSystem ∅ (λ _, true).

Definition parentA : Individual := mkIndividual (replicate 150 flagLastHidden) 0%float.

Definition parentB : Individual := mkIndividual (replicate 150 revealNextToFlag) 0%float.

(** A bitmap of the right size that holds no mine, and an individual
    without rules. *)
Definition noMines : FixedGame :=
  mkFixedGame 5 5 (replicate 10 (replicate 10 false)).

Definition noRules : Individual := mkIndividual [] 0%float.

(** The board of [noMines] after the opening move: every cell revealed. *)
Definition allRevealed : Game :=
  mkGame (replicate 10 (replicate 10 (mkCell false 0 REVEALED))) false false.

(** * The rest of the program *)

(** ** More parameters of the genetic algorithm *)

Definition MUTATION_RATE : float := 0x1.47ae147ae147bp-6.
Definition CROSSOVER_RATE : float := 0x1.999999999999ap-1.
Definition TOURNAMENT_SIZE : Z := 10.

(** [x >= startX - 1 && x <= startX + 1 && y >= startY - 1 && y <= startY + 1],
    the test of [generateFixedGames] and of [startGameAt]. *)
Definition isInSafeZone (startX startY x y : Z) : bool :=
  (startX - 1 <=? x) && (x <=? startX + 1) && (startY - 1 <=? y) && (y <=? startY + 1).

(** ** Selection, mutation and the next generation *)

Definition set_numberCondition (v : Z) (r : Rule) : Rule :=
  mkRule v (hiddenCondition r) (flaggedCondition r) (nearEdge r)
         (hasSpecificPattern r) (extendedScope r) (priority r) (action r).

Definition set_hiddenCondition (v : Z) (r : Rule) : Rule :=
  mkRule (numberCondition r) v (flaggedCondition r) (nearEdge r)
         (hasSpecificPattern r) (extendedScope r) (priority r) (action r).

Definition set_flaggedCondition (v : Z) (r : Rule) : Rule :=
  mkRule (numberCondition r) (hiddenCondition r) v (nearEdge r)
         (hasSpecificPattern r) (extendedScope r) (priority r) (action r).

Definition set_nearEdge (v : bool) (r : Rule) : Rule :=
  mkRule (numberCondition r) (hiddenCondition r) (flaggedCondition r) v
         (hasSpecificPattern r) (extendedScope r) (priority r) (action r).

Definition set_hasSpecificPattern (v : bool) (r : Rule) : Rule :=
  mkRule (numberCondition r) (hiddenCondition r) (flaggedCondition r) (nearEdge r)
         v (extendedScope r) (priority r) (action r).

Definition set_extendedScope (v : Z) (r : Rule) : Rule :=
  mkRule (numberCondition r) (hiddenCondition r) (flaggedCondition r) (nearEdge r)
         (hasSpecificPattern r) v (priority r) (action r).

Definition set_priority (v : Z) (r : Rule) : Rule :=
  mkRule (numberCondition r) (hiddenCondition r) (flaggedCondition r) (nearEdge r)
         (hasSpecificPattern r) (extendedScope r) v (action r).

Definition set_action (v : RuleAction) (r : Rule) : Rule :=
  mkRule (numberCondition r) (hiddenCondition r) (flaggedCondition r) (nearEdge r)
         (hasSpecificPattern r) (extendedScope r) (priority r) v.

Definition RuleAction_eqb (a b : RuleAction) : bool :=
  match a, b with
  | ACTION_REVEAL_HIDDEN, ACTION_REVEAL_HIDDEN | ACTION_PLACE_FLAG, ACTION_PLACE_FLAG => true
  | _, _ => false
  end.

(** The body of the loop of [calculateGeneticDistance]: the fields of rule
    [i] that differ.  The priority is not compared. *)
Definition ruleDifferences (a b : Rule) : Z :=
  (if negb (numberCondition a =? numberCondition b) then 1 else 0)
  + (if negb (hiddenCondition a =? hiddenCondition b) then 1 else 0)
  + (if negb (flaggedCondition a =? flaggedCondition b) then 1 else 0)
  + (if negb (eqb (nearEdge a) (nearEdge b)) then 1 else 0)
  + (if negb (eqb (hasSpecificPattern a) (hasSpecificPattern b)) then 1 else 0)
  + (if negb (extendedScope a =? extendedScope b) then 1 else 0)
  + (if negb (RuleAction_eqb (action a) (action b)) then 1 else 0).

(** [int distance] at the end of the loop. *)
Definition geneticDifferences (a b : Individual) : Z :=
  fold_left (λ distance i, distance + ruleDifferences (gene a i) (gene b i))
            (seqZ 0 NUM_RULES) 0.

Definition calculateGeneticDistance (a b : Individual) : float :=
  (double_of_int (geneticDifferences a b) / (double_of_int NUM_RULES * 7))%float.

Section Evolution.

(** The raw output of [gen_global], one draw per position, and what
    [std::uniform_real_distribution<>(0.0, 1.0)] makes of the generator at
    a position. *)
Variable rnd : nat → nat.
Variable rndReal : nat → float.

(** [dis_real(gen_global)] at cursor [k]. *)
Definition uniform_real (k : nat) : float * nat := (rndReal k, S k).

(** [pop[i]] *)
Definition individualAt (pop : list Individual) (i : Z) : Individual :=
  default Individual0 (pop !! Z.to_nat i).

Definition tournamentSelection (pop : list Individual) (k : nat) : Individual * nat :=
  let '(i, k) := uniform_int rnd 0 (Z.of_nat (length pop) - 1) k in
  let best := individualAt pop i in
  fold_left (λ '(best, k) _,
               let '(i, k) := uniform_int rnd 0 (Z.of_nat (length pop) - 1) k in
               let competitor := individualAt pop i in
               if (fitness best <? fitness competitor)%float then (competitor, k)
               else (best, k))
            (seqZ 1 (TOURNAMENT_SIZE - 1)) (best, k).

(** [if (dis_real(gen_global) < MUTATION_RATE) rule.field = draw(gen_global);] *)
Definition mutateField {A} (set : A → Rule → Rule) (draw : nat → A * nat)
    (st : Rule * nat) : Rule * nat :=
  let '(rule, k) := st in
  let '(p, k) := uniform_real k in
  if (p <? MUTATION_RATE)%float
  then let '(v, k) := draw k in (set v rule, k)
  else (rule, k).

(** [dis_bool(gen_global)] stored in a [bool]. *)
Definition draw_bool (k : nat) : bool * nat :=
  let '(b, k) := uniform_int rnd 0 1 k in (negb (b =? 0), k).

(** [(dis_bool(gen_global) == 0) ? ACTION_REVEAL_HIDDEN : ACTION_PLACE_FLAG] *)
Definition draw_action (k : nat) : RuleAction * nat :=
  let '(b, k) := uniform_int rnd 0 1 k in
  (if b =? 0 then ACTION_REVEAL_HIDDEN else ACTION_PLACE_FLAG, k).

(** The body of the loop of [mutate]. *)
Definition mutateRule (rule : Rule) (k : nat) : Rule * nat :=
  let st := (rule, k) in
  let st := mutateField set_numberCondition (uniform_int rnd 0 8) st in
  let st := mutateField set_hiddenCondition (uniform_int rnd 0 8) st in
  let st := mutateField set_flaggedCondition (uniform_int rnd 0 8) st in
  let st := mutateField set_nearEdge draw_bool st in
  let st := mutateField set_hasSpecificPattern draw_bool st in
  let st := mutateField set_extendedScope (uniform_int rnd 1 2) st in
  let st := mutateField set_priority (uniform_int rnd 1 10) st in
  mutateField set_action draw_action st.

(** [for (auto &rule : ind.rules)] *)
Definition mutate (ind : Individual) (k : nat) : Individual * nat :=
  let '(rs, k) :=
    fold_left (λ '(rs, k) rule,
                 let '(rule, k) := mutateRule rule k in (rs ++ [rule], k))
              (rules ind) ([], k) in
  (mkIndividual rs (fitness ind), k).

(** The [while] loop that fills [newPopulation].  [fuel] bounds the times
    its body runs and [drawFuel] the draws of each crossover; [None] means
    one of them ran out. *)
Fixpoint fillPopulation (fuel drawFuel : nat) (population newPopulation : list Individual)
    (k : nat) : option (list Individual * nat) :=
  if Z.of_nat (length newPopulation) <? POPULATION_SIZE then
    match fuel with
    | O => None
    | S fuel' =>
      let '(parent1, k) := tournamentSelection population k in
      let '(parent2, k) := tournamentSelection population k in
      let '(p, k) := uniform_real k in
      '(offspring1, offspring2, k) ←
        (if (p <? CROSSOVER_RATE)%float
         then crossover rnd drawFuel parent1 parent2 Individual0 Individual0 k
         else Some (parent1, parent2, k));
      let '(offspring1, k) := mutate offspring1 k in
      let '(offspring2, k) := mutate offspring2 k in
      let newPopulation := newPopulation ++ [offspring1] in
      let newPopulation :=
        if Z.of_nat (length newPopulation) <? POPULATION_SIZE
        then newPopulation ++ [offspring2] else newPopulation in
      fillPopulation fuel' drawFuel population newPopulation k
    end
  else Some (newPopulation, k).

(** Step 4b of [main]: the two best of [sortedPop] first, then offspring of
    parents selected from [population]. *)
Definition nextGeneration (fuel drawFuel : nat) (population sortedPop : list Individual)
    (k : nat) : option (list Individual * nat) :=
  let newPopulation := [individualAt sortedPop 0] in
  let newPopulation :=
    if (1 <? length sortedPop)%nat then newPopulation ++ [individualAt sortedPop 1]
    else newPopulation in
  fillPopulation fuel drawFuel population newPopulation k.

End Evolution.

(** ** The scenario bank on disk *)

(** A [char] in memory; [mine == 1] reads it as a number. *)
Definition char_repr : Repr Z :=
  mkRepr Z 1 (le_bytes 1)
         (λ bs, let u := le_value bs in if u <? 128 then u else u - 256).

(** [fg.mineGrid[y][x] = b] *)
Definition setMine (x y : Z) (b : bool) (mineGrid : list (list bool))
  : list (list bool) :=
  alter (λ row, <[Z.to_nat x := b]> row) (Z.to_nat y) mineGrid.

(** [mineGrid.assign(GRID_HEIGHT, std::vector<bool>(GRID_WIDTH, false))] *)
Definition emptyBitmap : list (list bool) :=
  replicate (Z.to_nat GRID_HEIGHT) (replicate (Z.to_nat GRID_WIDTH) false).

(** The record [generateFixedGames] writes for one scenario. *)
Definition writeFixedGame (ofs : list byte) (fg : FixedGame) : list byte :=
  let ofs := swrite int_repr (startX fg) ofs in
  let ofs := swrite int_repr (startY fg) ofs in
  fold_left (λ ofs '(x, y),
               let mine := if mineAt (mineGrid fg) x y then 1 else 0 in
               swrite char_repr mine ofs)
            allCells ofs.

Section Bank.

(** The output of [gen_fixed], the generator of [generateFixedGames]. *)
Variable rnd : nat → nat.

(** The [while] loop that places the mines of one scenario.  It is a
    rejection loop: [fuel] bounds the draws, [None] means they ran out. *)
Fixpoint placeBankMines (fuel : nat) (placedMines : Z) (startX startY : Z)
    (mineGrid : list (list bool)) (k : nat) : option (list (list bool) * nat) :=
  if placedMines <? NUM_MINES then
    match fuel with
    | O => None
    | S fuel' =>
      let '(x, k) := uniform_int rnd 0 (GRID_WIDTH - 1) k in
      let '(y, k) := uniform_int rnd 0 (GRID_WIDTH - 1) k in
      if negb (mineAt mineGrid x y) && negb (isInSafeZone startX startY x y)
      then placeBankMines fuel' (placedMines + 1) startX startY
                          (setMine x y true mineGrid) k
      else placeBankMines fuel' placedMines startX startY mineGrid k
    end
  else Some (mineGrid, k).

(** The body of the loop of [generateFixedGames], up to the writing. *)
Definition generateFixedGame (fuel : nat) (k : nat) : option (FixedGame * nat) :=
  let '(startX, k) := uniform_int rnd 0 (GRID_WIDTH - 1) k in
  let '(startY, k) := uniform_int rnd 0 (GRID_WIDTH - 1) k in
  '(mineGrid, k) ← placeBankMines fuel 0 startX startY emptyBitmap k;
  Some (mkFixedGame startX startY mineGrid, k).

(** [for (int i = 0; i < totalFixedGames; i++)]: the scenarios, in order,
    and the stream. *)
Fixpoint generateLoop (fuel : nat) (n : nat) (ofs : list byte) (k : nat)
  : option (list FixedGame * list byte * nat) :=
  match n with
  | O => Some ([], ofs, k)
  | S n' =>
    '(fg, k) ← generateFixedGame fuel k;
    '(fgs, ofs, k) ← generateLoop fuel n' (writeFixedGame ofs fg) k;
    Some (fg :: fgs, ofs, k)
  end.

(** [void generateFixedGames(const std::string &filename, int totalFixedGames)] *)
Definition generateFixedGames (fuel : nat) (filename : string) (totalFixedGames : Z)
    (fs : FileSystem) (k : nat) : option (FileSystem * nat) :=
  if negb (writable fs filename) then Some (fs, k)
  else
    '(_, ofs, k) ← generateLoop fuel (Z.to_nat totalFixedGames) [] k;
    Some (mkFileSystem (<[filename := ofs]> (files fs)) (writable fs), k).

End Bank.

Section BankReader.

(** The value an uninitialised [char mine] holds when the read into it
    fails: anything, and not the same from one read to the next.  It is
    taken from the number of scenarios read so far and the cell. *)
Variable uninitialised : nat → Z → Z → Z.

(** The two loops that read the bitmap of one scenario. *)
Definition readBitmap (index : nat) (ifs : istream) : list (list bool) * istream :=
  fold_left (λ '(mineGrid, ifs) '(x, y),
               let '(mine, ifs) := sread char_repr (uninitialised index x y) ifs in
               (setMine x y (mine =? 1) mineGrid, ifs))
            allCells (emptyBitmap, ifs).

(** [while (ifs.peek() != EOF)]: [peek] gives EOF on a stream that has
    failed or has no byte left.  [fuel] bounds the times the body runs. *)
Fixpoint readFixedGames (fuel : nat) (fixedGames : list FixedGame) (ifs : istream)
  : option (list FixedGame) :=
  if failbit ifs || bool_decide (buf ifs = []) then Some fixedGames
  else
    match fuel with
    | O => None
    | S fuel' =>
      let '(startX, ifs) := sread int_repr 0 ifs in
      let '(startY, ifs) := sread int_repr 0 ifs in
      if failbit ifs then Some fixedGames
      else
        let '(mineGrid, ifs) := readBitmap (length fixedGames) ifs in
        readFixedGames fuel' (fixedGames ++ [mkFixedGame startX startY mineGrid]) ifs
    end.

(** [bool loadFixedGames(std::vector<FixedGame> &fixedGames, ...)]: the flag
    and the vector as the call leaves it. *)
Definition loadFixedGames (fuel : nat) (fixedGames : list FixedGame)
    (filename : string) (fs : FileSystem) : option (bool * list FixedGame) :=
  match files fs !! filename with
  | None => Some (false, fixedGames)
  | Some bytes =>
    fixedGames ← readFixedGames fuel [] (mkIstream bytes false);
    Some (true, fixedGames)
  end.

End BankReader.

(** ** The human-playable game (jogador_humano/main.cpp) *)

Definition CELL_SIZE_humano : Z := 30.

(** [struct Game] of the human game: the three members it shares with the
    agent's, and [firstClick]. *)
Record HumanGame := mkHumanGame {
  board : Game;
  firstClick : bool
}.

(** [Game game;] *)
Definition HumanGame0 : HumanGame := mkHumanGame newGame true.

Definition initializeGrid (h : HumanGame) : HumanGame :=
  mkHumanGame
    (mkGame (fold_left (λ gr '(x, y), updCell x y (λ _, Cell0) gr) allCells
                       (grid (board h)))
            false false)
    true.

Definition toggleFlag (x y : Z) (h : HumanGame) : HumanGame :=
  let g := board h in
  if negb (inBounds x y) || isRevealed (cellAt (grid g) x y) then h
  else if firstClick h then h
  else
    match state (cellAt (grid g) x y) with
    | HIDDEN =>
      mkHumanGame (set_grid (updCell x y (set_state FLAGGED) (grid g)) g) (firstClick h)
    | FLAGGED =>
      mkHumanGame (set_grid (updCell x y (set_state HIDDEN) (grid g)) g) (firstClick h)
    | REVEALED => h
    end.

Section HumanPlay.

(** The raw output of [gen_global], one draw per position. *)
Variable rnd : nat → nat.

(** The [while] loop of [startGameAt] that places the mines; a rejection
    loop, [fuel] bounds the draws. *)
Fixpoint placeMines (fuel : nat) (placedMines : Z) (startX startY : Z)
    (gr : list (list Cell)) (k : nat) : option (list (list Cell) * nat) :=
  if placedMines <? NUM_MINES then
    match fuel with
    | O => None
    | S fuel' =>
      let x := Z.of_nat (rnd k) mod GRID_WIDTH in
      let y := Z.of_nat (rnd (S k)) mod GRID_HEIGHT in
      if negb (isMine (cellAt gr x y)) && negb (isInSafeZone startX startY x y)
      then placeMines fuel' (placedMines + 1) startX startY
                      (updCell x y (set_isMine true) gr) (S (S k))
      else placeMines fuel' placedMines startX startY gr (S (S k))
    end
  else Some (gr, k).

Definition startGameAt (fuel : nat) (startX startY : Z) (h : HumanGame) (k : nat)
  : option (HumanGame * nat) :=
  if negb (firstClick h) then Some (h, k)
  else
    '(gr, k) ← placeMines fuel 0 startX startY (grid (board h)) k;
    let gr := computeNumbers gr in
    g ← revealCell_humano STACK startX startY (set_grid gr (board h));
    Some (mkHumanGame g false, k).

(** What the event loop of [main] reacts to: the mouse buttons with the
    pixel under the pointer, and the R key. *)
Inductive Event :=
  | LeftButtonDown (px py : Z)
  | RightButtonDown (px py : Z)
  | OtherButtonDown (px py : Z)
  | KeyDownR
  | OtherEvent.

(** The body of [while (SDL_PollEvent(&event))], the quit flag apart. *)
Definition handleEvent (fuel : nat) (event : Event) (h : HumanGame) (k : nat)
  : option (HumanGame * nat) :=
  let alive := negb (gameOver (board h)) && negb (youWin (board h)) in
  match event with
  | LeftButtonDown px py =>
    if alive then
      let x := px ÷ CELL_SIZE_humano in
      let y := py ÷ CELL_SIZE_humano in
      if firstClick h then startGameAt fuel x y h k
      else
        g ← revealCell_humano STACK x y (board h);
        Some (mkHumanGame g (firstClick h), k)
    else Some (h, k)
  | RightButtonDown px py =>
    if alive then
      let x := px ÷ CELL_SIZE_humano in
      let y := py ÷ CELL_SIZE_humano in
      Some (toggleFlag x y h, k)
    else Some (h, k)
  | OtherButtonDown _ _ => Some (h, k)
  | KeyDownR => Some (initializeGrid h, k)
  | OtherEvent => Some (h, k)
  end.

(** The events of a session, one after the other. *)
Fixpoint handleEvents (fuel : nat) (events : list Event) (h : HumanGame) (k : nat)
  : option (HumanGame * nat) :=
  match events with
  | [] => Some (h, k)
  | event :: rest =>
    '(h, k) ← handleEvent fuel event h k;
    handleEvents fuel rest h k
  end.

End HumanPlay.

(** * The vocabulary of the further properties *)

(** ** How a playout can end *)

(** A game that was lost by revealing one mine, nothing else being wrong
    with the board. *)
Record lostBoard (g : Game) : Prop := mkLostBoard {
  lost_wf : wf_grid (grid g);
  lost_numbers : numbers_ok (grid g);
  lost_mines : countCells isMine (grid g) = NUM_MINES;
  lost_one : minesRevealed g = 1;
  lost_safe : safeRevealed g < SAFE_CELLS;
  lost_flags : ∀ x y, inBounds x y = true →
      isFlagged (cellAt (grid g) x y) = true → isMine (cellAt (grid g) x y) = true;
  lost_gameOver : gameOver g = true;
  lost_youWin : youWin g = false
}.

Definition inPlay (g : Game) : Prop := settled g ∨ lostBoard g.



(** ** What a reveal does to a board *)

(** The grid has [GRID_HEIGHT] rows of [GRID_WIDTH] cells. *)
Definition gridOk (gr : list (list Cell)) : bool :=
  (Z.of_nat (length gr) =? GRID_HEIGHT)
  && forallb (λ row, Z.of_nat (length row) =? GRID_WIDTH) gr.

(** From [g] to [g'] nothing happened but hidden cells being revealed. *)
Definition onlyReveals (g g' : Game) : Prop :=
  ∀ x y, inBounds x y = true →
    cellAt (grid g') x y = cellAt (grid g) x y ∨
    (isHidden (cellAt (grid g) x y) = true ∧
     cellAt (grid g') x y = set_state REVEALED (cellAt (grid g) x y)).

(** The cell at (x, y), if it is revealed, holds no mine and shows 0, has
    no hidden cell around it. *)
Definition closedAt (gr : list (list Cell)) (x y : Z) : Prop :=
  isRevealed (cellAt gr x y) = true → isMine (cellAt gr x y) = false →
  neighboringMines (cellAt gr x y) = 0 →
  ∀ dx dy, (dx, dy) ∈ offsets 1 → inBounds (x + dx) (y + dy) = true →
           isHidden (cellAt gr (x + dx) (y + dy)) = false.

Definition closedExcept (pending : list (Z * Z)) (gr : list (list Cell)) : Prop :=
  ∀ x y, inBounds x y = true → (x, y) ∉ pending → closedAt gr x y.

(** The flood fill has nothing left to do anywhere on the board. *)
Definition floodClosed (gr : list (list Cell)) : bool :=
  forallb (λ '(x, y),
             negb (isRevealed (cellAt gr x y)) || isMine (cellAt gr x y)
             || negb (neighboringMines (cellAt gr x y) =? 0)
             || forallb (λ '(dx, dy),
                           negb (inBounds (x + dx) (y + dy))
                           || negb (isHidden (cellAt gr (x + dx) (y + dy))))
                        (offsets 1))
          allCells.

(** The invariant of the flood fill: what [revealCell] needs from a board,
    the cells still on the call stack being [pending], and what it gives
    back. *)
Definition fillState (depth : nat) (pending : list (Z * Z)) (g : Game) : Prop :=
  wf_grid (grid g) ∧ hiddenCount g < Z.of_nat depth ∧ closedExcept pending (grid g).

Definition fillPost (pending : list (Z * Z)) (x y : Z) (g g' : Game) : Prop :=
  onlyReveals g g' ∧ wf_grid (grid g') ∧ closedExcept pending (grid g') ∧
  (inBounds x y = true → isHidden (cellAt (grid g') x y) = false).

(** A bitmap of [GRID_HEIGHT] rows of [GRID_WIDTH] flags. *)
Definition bitmapOk (bm : list (list bool)) : bool :=
  (Z.of_nat (length bm) =? GRID_HEIGHT)
  && forallb (λ row, Z.of_nat (length row) =? GRID_WIDTH) bm.

(** No mine of the bitmap lies in the safe zone of the start cell. *)
Definition safeZoneFree (startX startY : Z) (bm : list (list bool)) : bool :=
  forallb (λ '(x, y), negb (mineAt bm x y && isInSafeZone startX startY x y)) allCells.


(** ** Genomes *)

(** The values [createRandomIndividual] and [mutate] draw the fields of a
    rule from. *)
Definition ruleInRange (r : Rule) : bool :=
  (0 <=? numberCondition r) && (numberCondition r <=? 8)
  && (0 <=? hiddenCondition r) && (hiddenCondition r <=? 8)
  && (0 <=? flaggedCondition r) && (flaggedCondition r <=? 8)
  && (1 <=? extendedScope r) && (extendedScope r <=? 2)
  && (1 <=? priority r) && (priority r <=? 10).

(** A genome of [NUM_RULES] rules with every field in its range. *)
Definition genomeOk (ind : Individual) : bool :=
  (Z.of_nat (length (rules ind)) =? NUM_RULES) && forallb ruleInRange (rules ind).

(** A source of draws that never repeats itself within a crossover, and a
    source of reals that lets every other test of a rate succeed. *)
Definition sampleDraws (n : nat) : nat := (7 * n + 3)%nat.

Definition sampleReals (n : nat) : float := if Nat.even n then 0%float else 1%float.

(** Two parents in range. *)
Definition sampleParents : list Individual :=
  [mkIndividual (replicate 150 (mkRule 1 1 0 false false 1 5 ACTION_PLACE_FLAG)) 1%float;
   mkIndividual (replicate 150 (mkRule 1 1 1 false false 2 5 ACTION_REVEAL_HIDDEN)) 2%float].

(** A sequence of draws that walks the board cell by cell when the draws
    are taken two by two as a column and a row. *)
Definition cellDraws (n : nat) : nat :=
  if Nat.even n then ((n / 2) mod 10)%nat else ((n / 2) / 10)%nat.

(** ** The scenario bank *)

(** A scenario whose record can be written and read back: a full-size
    bitmap and start coordinates that fit an [int]. *)
Definition scenarioOk (fg : FixedGame) : bool :=
  bitmapOk (mineGrid fg) && int_range (startX fg) && int_range (startY fg).

(** A scenario as [generateFixedGames] makes them: the start cell on the
    board, [NUM_MINES] mines, none of them in the safe zone. *)
Definition generatedOk (fg : FixedGame) : bool :=
  validScenario fg && inBounds (startX fg) (startY fg)
  && safeZoneFree (startX fg) (startY fg) (mineGrid fg).

(** The bytes of a bank file holding the scenarios [fgs]. *)
Definition bankBytes (fgs : list FixedGame) : list byte :=
  fold_left writeFixedGame fgs [].

(** The size of a record: two [int]s and one byte per cell. *)
Definition RECORD_SIZE : nat := (8 + Z.to_nat (GRID_WIDTH * GRID_HEIGHT))%nat.

Definition wf_bitmap (bm : list (list bool)) : Prop :=
  length bm = Z.to_nat GRID_HEIGHT ∧
  Forall (λ row, length row = Z.to_nat GRID_WIDTH) bm.

(** ** The human game *)

(** A grid that holds the mines of a bitmap and nothing else: no number
    yet, every cell hidden. *)
Definition mirrors (gr : list (list Cell)) (bm : list (list bool)) : Prop :=
  wf_grid gr ∧ wf_bitmap bm ∧
  ∀ x y, inBounds x y = true → cellAt gr x y = mkCell (mineAt bm x y) 0 HIDDEN.

(** A game of the human player that is not lost.  The player puts flags
    where they like, so nothing is said of the flagged cells. *)
Record liveHuman (g : Game) : Prop := mkLiveHuman {
  lh_wf : wf_grid (grid g);
  lh_numbers : numbers_ok (grid g);
  lh_mines : countCells isMine (grid g) = NUM_MINES;
  lh_sound : ∀ x y, inBounds x y = true →
      isRevealed (cellAt (grid g) x y) = true → isMine (cellAt (grid g) x y) = false;
  lh_gameOver : gameOver g = false;
  lh_won : youWin g = true → countCells isRevealed (grid g) = SAFE_CELLS
}.

(** Between two events the win flag is up to date. *)
Definition settledHuman (g : Game) : Prop :=
  liveHuman g ∧ (countCells isRevealed (grid g) = SAFE_CELLS → youWin g = true).

(** A game the player has lost, by revealing one mine. *)
Record lostHuman (g : Game) : Prop := mkLostHuman {
  lostH_wf : wf_grid (grid g);
  lostH_numbers : numbers_ok (grid g);
  lostH_mines : countCells isMine (grid g) = NUM_MINES;
  lostH_one : minesRevealed g = 1;
  lostH_safe : safeRevealed g < SAFE_CELLS;
  lostH_gameOver : gameOver g = true;
  lostH_youWin : youWin g = false
}.

(** What holds of the game between two events of a session: a blank board
    until the first click, then a board that is in play or lost. *)
Definition sessionOk (h : HumanGame) : Prop :=
  if firstClick h then board h = newGame
  else settledHuman (board h) ∨ lostHuman (board h).

(** * Proofs *)

(** ** Bounds and the enumeration of the cells *)

Lemma GRID_WIDTH_pos : 0 < GRID_WIDTH.
Proof. reflexivity. Qed.

Lemma GRID_HEIGHT_pos : 0 < GRID_HEIGHT.
Proof. reflexivity. Qed.

Lemma safe_cells_pos : 0 < GRID_WIDTH * GRID_HEIGHT - NUM_MINES.
Proof. reflexivity. Qed.

Opaque GRID_WIDTH GRID_HEIGHT NUM_MINES.

Lemma inBounds_spec x y :
  inBounds x y = true ↔ 0 ≤ x < GRID_WIDTH ∧ 0 ≤ y < GRID_HEIGHT.
Proof. unfold inBounds. rewrite !andb_true_iff. lia. Qed.

Lemma inBounds_false x y :
  inBounds x y = false ↔ ¬ (0 ≤ x < GRID_WIDTH ∧ 0 ≤ y < GRID_HEIGHT).
Proof. rewrite <- inBounds_spec. destruct (inBounds x y); naive_solver. Qed.

Lemma elem_of_allCells x y : (x, y) ∈ allCells ↔ inBounds x y = true.
Proof.
  unfold allCells. rewrite inBounds_spec, list_elem_of_bind. split.
  - intros (y' & Hx & Hy). apply list_elem_of_bind in Hx as (x' & Hin & Hx).
    apply list_elem_of_singleton in Hin. injection Hin as -> ->.
    apply elem_of_seqZ in Hx, Hy. lia.
  - intros [Hx Hy]. exists y. split; [|apply elem_of_seqZ; lia].
    apply list_elem_of_bind. exists x. split; [by apply list_elem_of_singleton|].
    apply elem_of_seqZ; lia.
Qed.

Lemma NoDup_pairs (xs ys : list Z) :
  NoDup xs → NoDup ys → NoDup (y ← ys; x ← xs; [(x, y)]).
Proof.
  intros Hxs Hys. apply NoDup_bind; [| |done].
  - intros y1 y2 p _ _ H1 H2.
    apply list_elem_of_bind in H1 as (x1 & H1 & _), H2 as (x2 & H2 & _).
    apply list_elem_of_singleton in H1, H2. congruence.
  - intros y _. apply NoDup_bind; [| |done].
    + intros x1 x2 p _ _ H1 H2. apply list_elem_of_singleton in H1, H2. congruence.
    + intros x _. apply NoDup_singleton.
Qed.

Lemma NoDup_allCells : NoDup allCells.
Proof. apply NoDup_pairs; apply NoDup_seqZ. Qed.

Lemma length_pairs (xs ys : list Z) :
  length (y ← ys; x ← xs; [(x, y)]) = (length ys * length xs)%nat.
Proof.
  induction ys as [|y ys IH]; [done|].
  rewrite bind_cons, length_app, IH. simpl. f_equal.
  clear. induction xs as [|x xs IH]; [done|].
  rewrite bind_cons, length_app, IH. done.
Qed.

Lemma length_allCells : Z.of_nat (length allCells) = GRID_WIDTH * GRID_HEIGHT.
Proof.
  unfold allCells. rewrite length_pairs, !length_seqZ.
  pose proof GRID_WIDTH_pos. pose proof GRID_HEIGHT_pos. lia.
Qed.

Lemma elem_of_offsets s dx dy :
  (dx, dy) ∈ offsets s ↔ - s ≤ dx ≤ s ∧ - s ≤ dy ≤ s.
Proof.
  unfold offsets. rewrite list_elem_of_bind. split.
  - intros (y' & Hx & Hy). apply list_elem_of_bind in Hx as (x' & Hin & Hx).
    apply list_elem_of_singleton in Hin. injection Hin as -> ->.
    apply elem_of_seqZ in Hx, Hy. lia.
  - intros [Hx Hy]. exists dy. split; [|apply elem_of_seqZ; lia].
    apply list_elem_of_bind. exists dx. split; [by apply list_elem_of_singleton|].
    apply elem_of_seqZ; lia.
Qed.


(** ** Counting loops *)

Lemma fold_left_fun_ext {A B} (f g : B → A → B) (l : list A) (b : B) :
  (∀ b a, f b a = g b a) → fold_left f l b = fold_left g l b.
Proof.
  intros Hfg. revert b. induction l as [|a l IH]; intros b; simpl; [done|].
  by rewrite Hfg, IH.
Qed.

Lemma filter_ext_elem {A} (P1 P2 : A → Prop)
    `{!∀ x, Decision (P1 x), !∀ x, Decision (P2 x)} (l : list A) :
  (∀ x, x ∈ l → P1 x ↔ P2 x) → filter P1 l = filter P2 l.
Proof.
  induction l as [|a l IH]; intros Hext; [done|].
  rewrite !filter_cons.
  rewrite IH by (intros x Hx; apply Hext; by apply elem_of_cons; right).
  destruct (decide (P1 a)) as [p|n], (decide (P2 a)) as [p'|n']; try done;
    exfalso; [apply n'|apply n]; apply (Hext a); try done; by apply elem_of_cons; left.
Qed.

Lemma fold_count {A} (q : A → bool) (l : list A) (n : Z) :
  fold_left (λ n a, if q a then n + 1 else n) l n
  = n + Z.of_nat (length (filter (λ a, Is_true (q a)) l)).
Proof.
  revert n. induction l as [|a l IH]; intros n; simpl; [lia|].
  rewrite IH, filter_cons. destruct (q a); case_decide; simpl in *; try done; lia.
Qed.

(** Two tests that differ on one element of a duplicate-free list. *)
Lemma count_change_one {A} (q q' : A → bool) (l : list A) (a : A) :
  NoDup l → a ∈ l → (∀ c, c ∈ l → c ≠ a → q' c = q c) →
  Z.of_nat (length (filter (λ c, Is_true (q' c)) l)) + b2z (q a)
  = Z.of_nat (length (filter (λ c, Is_true (q c)) l)) + b2z (q' a).
Proof.
  intros Hnd. induction Hnd as [|b l Hb Hnd IH]; intros Ha Hsame.
  - by apply elem_of_nil in Ha.
  - rewrite !filter_cons. apply elem_of_cons in Ha as [->|Ha].
    + assert (filter (λ c, Is_true (q' c)) l = filter (λ c, Is_true (q c)) l) as ->.
      { apply filter_ext_elem. intros c Hc. rewrite Hsame; [done| |]. 
        - by apply elem_of_cons; right.
        - intros ->. done. }
      destruct (q b), (q' b); repeat case_decide; simpl in *; try done; lia.
    + assert (b ≠ a) by (intros ->; done).
      rewrite (Hsame b) by (done || by apply elem_of_cons; left).
      specialize (IH Ha). 
      assert (∀ c, c ∈ l → c ≠ a → q' c = q c) as Hs.
      { intros c Hc. apply Hsame. by apply elem_of_cons; right. }
      specialize (IH Hs).
      destruct (q b); repeat case_decide; simpl in *; try done; lia.
Qed.

Lemma count_same {A} (q q' : A → bool) (l : list A) :
  (∀ c, c ∈ l → q' c = q c) →
  length (filter (λ c, Is_true (q' c)) l) = length (filter (λ c, Is_true (q c)) l).
Proof.
  intros Hq. f_equal. apply filter_ext_elem. intros c Hc. by rewrite Hq.
Qed.

(** ** The grid as a two-dimensional array *)

Lemma wf_grid_lookup gr x y :
  wf_grid gr → inBounds x y = true →
  ∃ row c, gr !! Z.to_nat y = Some row ∧ row !! Z.to_nat x = Some c
           ∧ cellAt gr x y = c.
Proof.
  intros [Hlen Hrows] [Hx Hy]%inBounds_spec.
  destruct (lookup_lt_is_Some_2 gr (Z.to_nat y)) as [row Hrow]; [lia|].
  assert (length row = Z.to_nat GRID_WIDTH) as Hw.
  { eapply Forall_lookup_1 in Hrows; [|exact Hrow]. done. }
  destruct (lookup_lt_is_Some_2 row (Z.to_nat x)) as [c Hc]; [lia|].
  exists row, c. split_and!; [done..|].
  unfold cellAt. rewrite Hrow. simpl. by rewrite Hc.
Qed.

Lemma wf_updCell gr x y f : wf_grid gr → wf_grid (updCell x y f gr).
Proof.
  intros [Hlen Hrows]. unfold updCell. split; [by rewrite length_alter|].
  apply Forall_lookup_2. intros i row Hi.
  destruct (decide (i = Z.to_nat y)) as [->|Hne].
  - rewrite list_lookup_alter_eq in Hi.
    destruct (gr !! Z.to_nat y) as [row'|] eqn:Hrow'; [|done].
    injection Hi as <-. rewrite length_alter.
    eapply Forall_lookup_1 in Hrows; [|exact Hrow']. done.
  - rewrite list_lookup_alter_ne in Hi by done.
    eapply Forall_lookup_1 in Hrows; [|exact Hi]. done.
Qed.

Lemma cellAt_updCell_eq gr x y f :
  wf_grid gr → inBounds x y = true →
  cellAt (updCell x y f gr) x y = f (cellAt gr x y).
Proof.
  intros Hwf Hin. destruct (wf_grid_lookup gr x y Hwf Hin) as (row & c & Hrow & Hc & <-).
  unfold cellAt, updCell. rewrite list_lookup_alter_eq, Hrow. simpl.
  by rewrite list_lookup_alter_eq, Hc.
Qed.

Lemma cellAt_updCell_ne gr x y f x' y' :
  inBounds x y = true → inBounds x' y' = true → (x, y) ≠ (x', y') →
  cellAt (updCell x y f gr) x' y' = cellAt gr x' y'.
Proof.
  intros [Hx Hy]%inBounds_spec [Hx' Hy']%inBounds_spec Hne.
  unfold cellAt, updCell.
  destruct (decide (Z.to_nat y = Z.to_nat y')) as [Heq|Hney].
  - assert (y = y') as -> by lia. assert (x ≠ x') by congruence.
    rewrite list_lookup_alter_eq.
    destruct (gr !! Z.to_nat y') as [row|]; [|done]. simpl.
    rewrite list_lookup_alter_ne by lia. done.
  - by rewrite list_lookup_alter_ne.
Qed.

Lemma cellAt_updCell gr x y f x' y' :
  wf_grid gr → inBounds x y = true → inBounds x' y' = true →
  cellAt (updCell x y f gr) x' y'
  = if decide ((x, y) = (x', y')) then f (cellAt gr x y) else cellAt gr x' y'.
Proof.
  intros Hwf Hin Hin'. case_decide as Heq.
  - injection Heq as <- <-. by apply cellAt_updCell_eq.
  - by apply cellAt_updCell_ne.
Qed.

Lemma wf_newGame : wf_grid (grid newGame).
Proof.
  split; simpl; [by rewrite length_replicate|].
  apply Forall_replicate. by rewrite length_replicate.
Qed.

Lemma countCells_filter p gr :
  countCells p gr
  = Z.of_nat (length (filter (λ c, Is_true (p (cellAt gr c.1 c.2))) allCells)).
Proof.
  unfold countCells.
  rewrite <- (fold_count (λ c, p (cellAt gr c.1 c.2)) allCells 0) at 1.
  apply fold_left_fun_ext. by intros n [x y].
Qed.

Lemma countCells_bounds p gr : 0 ≤ countCells p gr ≤ GRID_WIDTH * GRID_HEIGHT.
Proof.
  rewrite countCells_filter, <- length_allCells.
  pose proof (length_filter (λ c, Is_true (p (cellAt gr c.1 c.2))) allCells). lia.
Qed.

(** Writing one cell moves a count by what the cell contributes. *)
Lemma countCells_updCell p gr x y f :
  wf_grid gr → inBounds x y = true →
  countCells p (updCell x y f gr) + b2z (p (cellAt gr x y))
  = countCells p gr + b2z (p (f (cellAt gr x y))).
Proof.
  intros Hwf Hin. rewrite !countCells_filter.
  rewrite <- (cellAt_updCell_eq gr x y f Hwf Hin).
  apply (count_change_one (λ c, p (cellAt gr c.1 c.2))
           (λ c, p (cellAt (updCell x y f gr) c.1 c.2)) allCells (x, y)).
  - apply NoDup_allCells.
  - by apply elem_of_allCells.
  - intros [x' y'] Hc Hne. simpl. f_equal. apply cellAt_updCell_ne; try done.
    by apply elem_of_allCells.
Qed.

Lemma countCells_ext p gr gr' :
  (∀ x y, inBounds x y = true → p (cellAt gr' x y) = p (cellAt gr x y)) →
  countCells p gr' = countCells p gr.
Proof.
  intros H. rewrite !countCells_filter. f_equal.
  apply (count_same (λ c, p (cellAt gr c.1 c.2)) (λ c, p (cellAt gr' c.1 c.2))).
  intros [x y] Hc. apply H. by apply elem_of_allCells.
Qed.

(** ** The flood fill as a sequence of elementary steps *)

Arguments mark : simpl never.

Arguments offsets : simpl never.

Arguments allCells : simpl never.

Lemma grid_mark x y g :
  grid (mark x y g) = updCell x y (set_state REVEALED) (grid g).
Proof. reflexivity. Qed.

Lemma same_layout_refl gr : same_layout gr gr.
Proof. by intros x y _. Qed.

Lemma same_layout_trans gr1 gr2 gr3 :
  same_layout gr1 gr2 → same_layout gr2 gr3 → same_layout gr1 gr3.
Proof.
  intros H12 H23 x y Hin. destruct (H12 x y Hin), (H23 x y Hin). split; congruence.
Qed.

Lemma same_layout_set_state gr x y s :
  wf_grid gr → inBounds x y = true →
  same_layout gr (updCell x y (set_state s) gr).
Proof.
  intros Hwf Hin x' y' Hin'. rewrite cellAt_updCell by done.
  case_decide as Heq; [|done]. injection Heq as <- <-. done.
Qed.

Lemma countMineNeighbors_mines gr gr' x y :
  same_mines gr gr' → countMineNeighbors gr' x y = countMineNeighbors gr x y.
Proof.
  intros Hl. unfold countMineNeighbors. apply fold_left_fun_ext.
  intros n [dx dy]. simpl. destruct (inBounds (x + dx) (y + dy)) eqn:Hin; [|done].
  simpl. by rewrite (Hl _ _ Hin).
Qed.

Lemma countMineNeighbors_layout gr gr' x y :
  same_layout gr gr' → countMineNeighbors gr' x y = countMineNeighbors gr x y.
Proof.
  intros Hl. apply countMineNeighbors_mines. intros x' y' Hin. by destruct (Hl x' y' Hin).
Qed.

Lemma numbers_ok_layout gr gr' :
  same_layout gr gr' → numbers_ok gr → numbers_ok gr'.
Proof.
  intros Hl Hn x y Hin Hm. destruct (Hl x y Hin) as [Hm' Hn'].
  rewrite Hn', (countMineNeighbors_layout gr gr') by done.
  apply Hn; [done|congruence].
Qed.

Lemma countMineNeighbors_filter gr x y :
  countMineNeighbors gr x y
  = Z.of_nat (length (filter (λ d, Is_true (inBounds (x + d.1) (y + d.2)
                                   && isMine (cellAt gr (x + d.1) (y + d.2))))
                             (offsets 1))).
Proof.
  unfold countMineNeighbors.
  rewrite <- (fold_count (λ d, inBounds (x + d.1) (y + d.2)
                              && isMine (cellAt gr (x + d.1) (y + d.2))) (offsets 1) 0) at 1.
  apply fold_left_fun_ext. by intros n [dx dy].
Qed.

(** Around a cell that shows 0 there is no mine. *)
Lemma zero_cell_neighbors gr x y dx dy :
  countMineNeighbors gr x y = 0 → (dx, dy) ∈ offsets 1 →
  inBounds (x + dx) (y + dy) = true →
  isMine (cellAt gr (x + dx) (y + dy)) = false.
Proof.
  rewrite countMineNeighbors_filter. intros H0 Hd Hin.
  destruct (isMine (cellAt gr (x + dx) (y + dy))) eqn:Hm; [|done]. exfalso.
  assert ((dx, dy) ∈ filter (λ d, Is_true (inBounds (x + d.1) (y + d.2)
                                   && isMine (cellAt gr (x + d.1) (y + d.2))))
                             (offsets 1)) as Hf.
  { apply list_elem_of_filter. simpl. by rewrite Hin, Hm. }
  destruct (filter _ (offsets 1)); [by apply elem_of_nil in Hf|]. simpl in H0. lia.
Qed.

Lemma grid_checkWinCondition g : grid (checkWinCondition g) = grid g.
Proof. unfold checkWinCondition. by case_match. Qed.

Lemma gameOver_checkWinCondition g : gameOver (checkWinCondition g) = gameOver g.
Proof. unfold checkWinCondition. by case_match. Qed.

Lemma youWin_checkWinCondition g :
  youWin (checkWinCondition g)
  = youWin g || (countCells isRevealed (grid g) =? GRID_WIDTH * GRID_HEIGHT - NUM_MINES).
Proof.
  unfold checkWinCondition. case_match; simpl; [by rewrite orb_true_r|by rewrite orb_false_r].
Qed.

Lemma hiddenCount_mark g x y :
  wf_grid (grid g) → inBounds x y = true → isHidden (cellAt (grid g) x y) = true →
  hiddenCount (mark x y g) = hiddenCount g - 1.
Proof.
  intros Hwf Hin Hh. unfold hiddenCount. rewrite grid_mark.
  pose proof (countCells_updCell isHidden (grid g) x y (set_state REVEALED) Hwf Hin) as H.
  rewrite Hh in H. simpl in H. unfold b2z in H. lia.
Qed.

Lemma flood_step_wf g g' : flood_step g g' → wf_grid (grid g) → wf_grid (grid g').
Proof.
  intros [g0 x y _ _ _|g0] Hwf.
  - rewrite grid_mark. by apply wf_updCell.
  - by rewrite grid_checkWinCondition.
Qed.

Lemma flood_step_layout g g' :
  flood_step g g' → wf_grid (grid g) → same_layout (grid g) (grid g').
Proof.
  intros [g0 x y Hin _ _|g0] Hwf.
  - rewrite grid_mark. by apply same_layout_set_state.
  - rewrite grid_checkWinCondition. apply same_layout_refl.
Qed.

Lemma flood_step_hidden g g' :
  flood_step g g' → wf_grid (grid g) → hiddenCount g' ≤ hiddenCount g.
Proof.
  intros [g0 x y Hin Hh _|g0] Hwf.
  - rewrite hiddenCount_mark by done. lia.
  - unfold hiddenCount. by rewrite grid_checkWinCondition.
Qed.

Lemma flood_wf g g' : flood g g' → wf_grid (grid g) → wf_grid (grid g').
Proof. induction 1; eauto using flood_step_wf. Qed.

Lemma flood_layout g g' :
  flood g g' → wf_grid (grid g) → same_layout (grid g) (grid g').
Proof.
  induction 1 as [|g1 g2 g3 Hs _ IH]; intros Hwf; [apply same_layout_refl|].
  eapply same_layout_trans; [by apply flood_step_layout|].
  apply IH. by eapply flood_step_wf.
Qed.

Lemma flood_hidden g g' :
  flood g g' → wf_grid (grid g) → hiddenCount g' ≤ hiddenCount g.
Proof.
  induction 1 as [|g1 g2 g3 Hs _ IH]; intros Hwf; [lia|].
  pose proof (flood_step_hidden _ _ Hs Hwf).
  specialize (IH (flood_step_wf _ _ Hs Hwf)). lia.
Qed.

Lemma flood_numbers g g' :
  flood g g' → wf_grid (grid g) → numbers_ok (grid g) → numbers_ok (grid g').
Proof. intros Hf Hwf. apply numbers_ok_layout. by apply flood_layout. Qed.

Lemma flood_gameOver g g' : flood g g' → gameOver g' = gameOver g.
Proof.
  induction 1 as [|g1 g2 g3 Hs _ IH]; [done|]. rewrite IH.
  destruct Hs; [done|apply gameOver_checkWinCondition].
Qed.

Lemma flood_youWin g g' : flood g g' → youWin g = true → youWin g' = true.
Proof.
  induction 1 as [|g1 g2 g3 Hs _ IH]; [done|]. intros Hw. apply IH.
  destruct Hs; [done|]. rewrite youWin_checkWinCondition, Hw. done.
Qed.

(** ** [revealCell] returns, and what it returns *)

Lemma foldM_flood {A} (Inv : Game → Prop) (body : A → Game → option Game)
    (l : list A) :
  (∀ g g', Inv g → flood g g' → Inv g') →
  (∀ a g, a ∈ l → Inv g → ∃ g', body a g = Some g' ∧ flood g g') →
  ∀ g, Inv g → ∃ g', foldM body l g = Some g' ∧ flood g g'.
Proof.
  intros Hpres. induction l as [|a l IH]; intros Hbody g Hg; simpl.
  - exists g. split; [done|apply rtc_refl].
  - destruct (Hbody a g) as (g1 & -> & Hf1); [by apply elem_of_cons; left|done|].
    simpl. destruct (IH (λ a' g' Ha', Hbody a' g' (list_elem_of_further _ _ _ Ha')) g1)
      as (g2 & -> & Hf2); [by eapply Hpres|].
    exists g2. split; [done|]. by eapply rtc_trans.
Qed.

Lemma revealCell_S depth x y g :
  revealCell (S depth) x y g
  = if negb (inBounds x y) || negb (isHidden (cellAt (grid g) x y)) then Some g
    else
      let g1 := mark x y g in
      if isMine (cellAt (grid g1) x y) then Some (set_gameOver true g1)
      else
        g2 ← (if neighboringMines (cellAt (grid g1) x y) =? 0
              then foldM (λ '(dx, dy) g', revealCell depth (x + dx) (y + dy) g')
                         (offsets 1) g1
              else Some g1);
        Some (checkWinCondition g2).
Proof. reflexivity. Qed.

Lemma revealCell_humano_S depth x y g :
  revealCell_humano (S depth) x y g
  = if negb (inBounds x y) || negb (isHidden (cellAt (grid g) x y)) then Some g
    else
      let g1 := mark x y g in
      if isMine (cellAt (grid g1) x y) then Some (set_gameOver true g1)
      else
        g2 ← (if neighboringMines (cellAt (grid g1) x y) =? 0
              then foldM (λ '(dx, dy) g',
                            if (dx =? 0) && (dy =? 0) then Some g'
                            else revealCell_humano depth (x + dx) (y + dy) g')
                         (offsets 1) g1
              else Some g1);
        Some (checkWinCondition g2).
Proof. reflexivity. Qed.

Lemma fill_inv_flood n g1 g g' : fill_inv n g1 g → flood g g' → fill_inv n g1 g'.
Proof.
  intros (Hwf & Hn & Hh & Hl) Hf. split_and!.
  - by eapply flood_wf.
  - by eapply flood_numbers.
  - pose proof (flood_hidden _ _ Hf Hwf). lia.
  - eapply same_layout_trans; [done|]. by apply flood_layout.
Qed.

(** The step shared by the two versions of [revealCell]: once the callee
    is known to behave on shallower stacks, the body behaves. *)
Lemma reveal_body_flood (callee : Z → Z → Game → option Game)
    (skip : Z → Z → bool) (depth : nat) (x y : Z) (g : Game) :
  (∀ g0 x0 y0,
     wf_grid (grid g0) → numbers_ok (grid g0) → hiddenCount g0 < Z.of_nat depth →
     (inBounds x0 y0 = true → isMine (cellAt (grid g0) x0 y0) = false) →
     ∃ g', callee x0 y0 g0 = Some g' ∧ flood g0 g') →
  wf_grid (grid g) → numbers_ok (grid g) →
  hiddenCount g < Z.of_nat (S depth) →
  (inBounds x y = true → isMine (cellAt (grid g) x y) = false) →
  ∃ g',
    (if negb (inBounds x y) || negb (isHidden (cellAt (grid g) x y)) then Some g
     else
       let g1 := mark x y g in
       if isMine (cellAt (grid g1) x y) then Some (set_gameOver true g1)
       else
         g2 ← (if neighboringMines (cellAt (grid g1) x y) =? 0
               then foldM (λ '(dx, dy) g',
                             if skip dx dy then Some g'
                             else callee (x + dx) (y + dy) g')
                          (offsets 1) g1
               else Some g1);
         Some (checkWinCondition g2)) = Some g'
    ∧ reveal_post x y g g'.
Proof.
  intros IH Hwf Hn Hh Hsafe. unfold reveal_post.
  destruct (inBounds x y) eqn:Hin; cbn [negb orb andb];
    [|exists g; split_and!; [done|apply rtc_refl|done]].
  destruct (isHidden (cellAt (grid g) x y)) eqn:Hhid; cbn [negb orb andb];
    [|exists g; split_and!; [done|apply rtc_refl|done]].
  specialize (Hsafe eq_refl). cbv zeta.
  rewrite grid_mark, cellAt_updCell_eq by done.
  cbn [isMine neighboringMines set_state]. rewrite Hsafe.
  assert (flood_step g (mark x y g)) as Hstep by by constructor.
  assert (fill_inv (Z.of_nat depth) (mark x y g) (mark x y g)) as Hinv.
  { split_and!.
    - by eapply flood_step_wf.
    - eapply numbers_ok_layout; [|done]. by apply flood_step_layout.
    - rewrite hiddenCount_mark by done. lia.
    - apply same_layout_refl. }
  assert (∃ g2, (if neighboringMines (cellAt (grid g) x y) =? 0
               then foldM (λ '(dx, dy) g',
                             if skip dx dy then Some g'
                             else callee (x + dx) (y + dy) g')
                          (offsets 1) (mark x y g)
               else Some (mark x y g)) = Some g2 ∧ flood (mark x y g) g2)
    as (g2 & -> & Hf2).
  { destruct (neighboringMines (cellAt (grid g) x y) =? 0) eqn:Hz;
      [|exists (mark x y g); split; [done|apply rtc_refl]].
    apply Z.eqb_eq in Hz. rewrite (Hn x y Hin Hsafe) in Hz.
    apply (foldM_flood (fill_inv (Z.of_nat depth) (mark x y g))); [| |done].
    - intros ??. apply fill_inv_flood.
    - intros [dx dy] g0 Hd (Hwf0 & Hn0 & Hh0 & Hl0).
      destruct (skip dx dy); [exists g0; split; [done|apply rtc_refl]|].
      apply IH; try done. intros Hin0.
      destruct (Hl0 _ _ Hin0) as [-> _].
      destruct (flood_step_layout _ _ Hstep Hwf _ _ Hin0) as [-> _].
      by eapply zero_cell_neighbors. }
  cbn [mbind option_bind]. exists (checkWinCondition g2). split_and!; [done| |by exists g2].
  eapply rtc_l; [exact Hstep|]. eapply rtc_trans; [exact Hf2|].
  apply rtc_once. constructor.
Qed.

Lemma hiddenCount_nonneg g : 0 ≤ hiddenCount g.
Proof. apply countCells_bounds. Qed.

Lemma revealCell_flood depth : ∀ g x y,
  wf_grid (grid g) → numbers_ok (grid g) → hiddenCount g < Z.of_nat depth →
  (inBounds x y = true → isMine (cellAt (grid g) x y) = false) →
  ∃ g', revealCell depth x y g = Some g' ∧ reveal_post x y g g'.
Proof.
  induction depth as [|depth IH]; intros g x y Hwf Hn Hh Hsafe.
  - pose proof (hiddenCount_nonneg g). lia.
  - rewrite revealCell_S.
    apply (reveal_body_flood (revealCell depth) (λ _ _, false) depth); try done.
    intros g0 x0 y0 ????. destruct (IH g0 x0 y0) as (g' & ? & ? & _); eauto.
Qed.

Lemma revealCell_humano_flood depth : ∀ g x y,
  wf_grid (grid g) → numbers_ok (grid g) → hiddenCount g < Z.of_nat depth →
  (inBounds x y = true → isMine (cellAt (grid g) x y) = false) →
  ∃ g', revealCell_humano depth x y g = Some g' ∧ reveal_post x y g g'.
Proof.
  induction depth as [|depth IH]; intros g x y Hwf Hn Hh Hsafe.
  - pose proof (hiddenCount_nonneg g). lia.
  - rewrite revealCell_humano_S.
    apply (reveal_body_flood (revealCell_humano depth)
             (λ dx dy, (dx =? 0) && (dy =? 0)) depth); try done.
    intros g0 x0 y0 ????. destruct (IH g0 x0 y0) as (g' & ? & ? & _); eauto.
Qed.

Lemma hiddenCount_lt_STACK g : hiddenCount g < Z.of_nat STACK.
Proof.
  pose proof (countCells_bounds isHidden (grid g)). unfold hiddenCount, STACK.
  pose proof GRID_WIDTH_pos. pose proof GRID_HEIGHT_pos. lia.
Qed.

(** Revealing a hidden mine. *)
Lemma revealCell_mine depth x y g :
  wf_grid (grid g) → inBounds x y = true →
  isHidden (cellAt (grid g) x y) = true → isMine (cellAt (grid g) x y) = true →
  revealCell (S depth) x y g = Some (set_gameOver true (mark x y g)).
Proof.
  intros Hwf Hin Hh Hm. rewrite revealCell_S, Hin, Hh. cbn [negb orb]. cbv zeta.
  rewrite grid_mark, cellAt_updCell_eq by done. cbn [isMine set_state]. by rewrite Hm.
Qed.

(** ** The invariant of a game that is not lost *)


Ltac filter_head :=
  repeat match goal with
  | |- context [decide (Is_true ?b)] => destruct (decide (Is_true b))
  end; simpl in *.

Lemma count_filter_le {A} (q1 q2 : A → bool) (l : list A) :
  (∀ c, c ∈ l → q1 c = true → q2 c = true) →
  (length (filter (λ c, Is_true (q1 c)) l) ≤ length (filter (λ c, Is_true (q2 c)) l))%nat.
Proof.
  induction l as [|b l IH]; intros Hsub; [done|].
  assert (∀ c, c ∈ l → q1 c = true → q2 c = true) as Hsub'.
  { intros c Hc. apply Hsub. by apply elem_of_cons; right. }
  specialize (IH Hsub').
  pose proof (Hsub b (list_elem_of_here _ _)) as Hb.
  rewrite !filter_cons.
  destruct (q1 b) eqn:E1, (q2 b) eqn:E2; filter_head; try done; try lia;
    by specialize (Hb eq_refl).
Qed.

Lemma count_filter_lt {A} (q1 q2 : A → bool) (l : list A) (a : A) :
  (∀ c, c ∈ l → q1 c = true → q2 c = true) → a ∈ l → q2 a = true → q1 a = false →
  (length (filter (λ c, Is_true (q1 c)) l) < length (filter (λ c, Is_true (q2 c)) l))%nat.
Proof.
  induction l as [|b l IH]; intros Hsub Ha H2 H1; [by apply elem_of_nil in Ha|].
  assert (∀ c, c ∈ l → q1 c = true → q2 c = true) as Hsub'.
  { intros c Hc. apply Hsub. by apply elem_of_cons; right. }
  pose proof (count_filter_le q1 q2 l Hsub') as Hle.
  pose proof (Hsub b (list_elem_of_here _ _)) as Hb.
  apply elem_of_cons in Ha as [<-|Ha].
  - rewrite !filter_cons, H1, H2. filter_head; try done. lia.
  - specialize (IH Hsub' Ha H2 H1). rewrite !filter_cons.
    destruct (q1 b) eqn:E1, (q2 b) eqn:E2; filter_head; try done; try lia;
      by specialize (Hb eq_refl).
Qed.

Lemma count_filter_negb {A} (q : A → bool) (l : list A) :
  (length (filter (λ c, Is_true (negb (q c))) l)
   + length (filter (λ c, Is_true (q c)) l) = length l)%nat.
Proof.
  induction l as [|b l IH]; [done|]. rewrite !filter_cons.
  destruct (q b) eqn:E; filter_head; try done; lia.
Qed.

Lemma countCells_negb p gr :
  countCells (λ c, negb (p c)) gr = GRID_WIDTH * GRID_HEIGHT - countCells p gr.
Proof.
  rewrite !countCells_filter, <- length_allCells.
  pose proof (count_filter_negb (λ c, p (cellAt gr c.1 c.2)) allCells). lia.
Qed.

Lemma countCells_eq p1 p2 gr :
  (∀ x y, inBounds x y = true → p1 (cellAt gr x y) = p2 (cellAt gr x y)) →
  countCells p1 gr = countCells p2 gr.
Proof.
  intros Hsame. rewrite !countCells_filter. f_equal.
  apply (count_same (λ c, p2 (cellAt gr c.1 c.2)) (λ c, p1 (cellAt gr c.1 c.2))).
  intros [x y] Hc. apply Hsame. by apply elem_of_allCells.
Qed.

Lemma countCells_none p gr :
  (∀ x y, inBounds x y = true → p (cellAt gr x y) = false) → countCells p gr = 0.
Proof.
  intros Hnone. rewrite (countCells_eq p (λ _, false)) by done.
  unfold countCells. generalize 0. induction allCells as [|[x y] l IH]; intros n; [done|].
  apply IH.
Qed.

Lemma countCells_le p1 p2 gr :
  (∀ x y, inBounds x y = true → p1 (cellAt gr x y) = true → p2 (cellAt gr x y) = true) →
  countCells p1 gr ≤ countCells p2 gr.
Proof.
  intros Hsub. rewrite !countCells_filter. apply inj_le.
  apply (count_filter_le (λ c, p1 (cellAt gr c.1 c.2)) (λ c, p2 (cellAt gr c.1 c.2))).
  intros [x y] Hc. apply Hsub. by apply elem_of_allCells.
Qed.

Lemma countCells_lt p1 p2 gr x y :
  (∀ x y, inBounds x y = true → p1 (cellAt gr x y) = true → p2 (cellAt gr x y) = true) →
  inBounds x y = true → p2 (cellAt gr x y) = true → p1 (cellAt gr x y) = false →
  countCells p1 gr < countCells p2 gr.
Proof.
  intros Hsub Hin H2 H1. rewrite !countCells_filter. apply inj_lt.
  apply (count_filter_lt (λ c, p1 (cellAt gr c.1 c.2)) (λ c, p2 (cellAt gr c.1 c.2))
           allCells (x, y)); try done.
  - intros [x' y'] Hc. apply Hsub. by apply elem_of_allCells.
  - by apply elem_of_allCells.
Qed.




Lemma hidden_not_revealed c : isHidden c = true → isRevealed c = false.
Proof. unfold isHidden, isRevealed. by destruct (state c). Qed.

Lemma hidden_not_flagged c : isHidden c = true → isFlagged c = false.
Proof. unfold isHidden, isFlagged. by destruct (state c). Qed.


(** In a live game the revealed cells are among the safe cells; a hidden
    safe cell keeps the count below [SAFE_CELLS]. *)
Lemma live_revealed_le g : live g → countCells isRevealed (grid g) ≤ SAFE_CELLS.
Proof.
  intros Hl. unfold SAFE_CELLS. rewrite <- (live_mines g Hl), <- countCells_negb.
  apply countCells_le. intros x y Hin Hr. by rewrite (live_sound g Hl x y Hin Hr).
Qed.

Lemma live_hidden_safe g x y :
  live g → inBounds x y = true →
  isHidden (cellAt (grid g) x y) = true → isMine (cellAt (grid g) x y) = false →
  countCells isRevealed (grid g) < SAFE_CELLS.
Proof.
  intros Hl Hin Hh Hm. unfold SAFE_CELLS.
  rewrite <- (live_mines g Hl), <- countCells_negb.
  apply (countCells_lt _ _ _ x y); try done.
  - intros x' y' Hin' Hr. by rewrite (live_sound g Hl x' y' Hin' Hr).
  - by rewrite Hm.
  - by apply hidden_not_revealed.
Qed.

Lemma countCells_layout gr gr' :
  same_layout gr gr' → countCells isMine gr' = countCells isMine gr.
Proof. intros Hl. apply countCells_ext. intros x y Hin. by destruct (Hl x y Hin). Qed.

Lemma live_flood_step g g' : flood_step g g' → live g → live g'.
Proof.
  intros Hs Hl. pose proof (live_wf g Hl) as Hwf.
  pose proof (flood_step_layout g g' Hs Hwf) as Hlay.
  destruct Hs as [g x y Hin Hh Hm|g].
  - split.
    + rewrite grid_mark. by apply wf_updCell.
    + eapply numbers_ok_layout; [done|]. apply Hl.
    + rewrite (countCells_layout _ _ Hlay). apply Hl.
    + intros x' y' Hin'. rewrite grid_mark, cellAt_updCell by done.
      case_decide as Heq; [injection Heq as <- <-; by intros _|]. by apply live_sound.
    + intros x' y' Hin'. rewrite grid_mark, cellAt_updCell by done.
      case_decide as Heq; [done|]. by apply live_flags.
    + apply Hl.
    + intros Hw. pose proof (live_won g Hl Hw).
      pose proof (live_hidden_safe g x y Hl Hin Hh Hm). lia.
  - split; rewrite ?grid_checkWinCondition; try apply Hl.
    + rewrite gameOver_checkWinCondition. apply Hl.
    + rewrite youWin_checkWinCondition. intros [Hw|Hc%Z.eqb_eq]%orb_true_iff; [|done].
      by apply live_won.
Qed.

Lemma live_flood g g' : flood g g' → live g → live g'.
Proof. induction 1; eauto using live_flood_step. Qed.

Lemma settled_checkWinCondition g : live g → settled (checkWinCondition g).
Proof.
  intros Hl. split; [apply (live_flood_step g); [constructor|done]|].
  rewrite grid_checkWinCondition, youWin_checkWinCondition.
  intros ->. by rewrite Z.eqb_refl, orb_true_r.
Qed.

(** ** One reveal and one flag on a settled game *)

Lemma revealCell_noop depth x y g :
  inBounds x y && isHidden (cellAt (grid g) x y) = false →
  revealCell (S depth) x y g = Some g.
Proof.
  intros H. rewrite revealCell_S.
  destruct (inBounds x y), (isHidden (cellAt (grid g) x y)); done.
Qed.

Lemma reveal_settled g x y :
  settled g →
  ∃ g', revealCell STACK x y g = Some g' ∧ playable g' ∧
        (if inBounds x y && isHidden (cellAt (grid g) x y)
         then hiddenCount g' < hiddenCount g else g' = g).
Proof.
  intros Hs. pose proof Hs as [Hl Hw]. pose proof (live_wf g Hl) as Hwf.
  destruct (inBounds x y && isHidden (cellAt (grid g) x y)) eqn:Hc.
  - apply andb_true_iff in Hc as [Hin Hh].
    destruct (isMine (cellAt (grid g) x y)) eqn:Hm.
    + exists (set_gameOver true (mark x y g)). split_and!.
      * by apply revealCell_mine.
      * right. split; [done|].
        change (wf_grid (updCell x y (set_state REVEALED) (grid g))).
        by apply wf_updCell.
      * change (hiddenCount (mark x y g) < hiddenCount g).
        rewrite hiddenCount_mark by done. lia.
    + destruct (revealCell_flood STACK g x y) as (g' & Hr & Hf & Hpost);
        [done|apply Hl|apply hiddenCount_lt_STACK|done|].
      rewrite Hin, Hh in Hpost. destruct Hpost as (g'' & Hf'' & ->).
      exists (checkWinCondition g''). split_and!; [done| |].
      * left. apply settled_checkWinCondition.
        apply (live_flood (mark x y g)); [done|].
        apply (live_flood_step g); [by constructor|done].
      * assert (wf_grid (grid (mark x y g))) as Hwf1.
        { rewrite grid_mark. by apply wf_updCell. }
        pose proof (flood_hidden _ _ Hf'' Hwf1) as Hle.
        rewrite hiddenCount_mark in Hle by done.
        unfold hiddenCount at 1. rewrite grid_checkWinCondition.
        fold (hiddenCount g''). lia.
  - exists g. split_and!; [by apply revealCell_noop|by left|done].
Qed.


(** ** What the neighbourhood scan computes *)



(** ** The flag rule only ever flags a mine *)

Global Instance nbr_inj x y : Inj (=) (=) (nbr x y).
Proof. intros [a b] [c d]. unfold nbr. simpl. intros [= ? ?]. f_equal; lia. Qed.


(** ** One interpreter pass *)











(** ** The stuck-break *)







Section TrainerFacts.

Variable rnd : nat → nat.
Variable std_sort : (Rule → Rule → bool) → list Rule → list Rule.





(** ** The playout loop *)



End TrainerFacts.

(** ** Setting the board up *)

Lemma initializeGridFixed_unfold sx sy bm g :
  initializeGridFixed sx sy bm g
  = let g2 := mkGame (computeNumbers (installMines bm (grid g))) false false in
    if (0 <=? sx) && (0 <=? sy) then revealCell STACK sx sy g2 else Some g2.
Proof. reflexivity. Qed.

Lemma install_fold bm (l : list (Z * Z)) (gr : list (list Cell)) :
  wf_grid gr → NoDup l → (∀ c, c ∈ l → inBounds c.1 c.2 = true) →
  let gr' := fold_left (λ gr '(x, y),
                          updCell x y (set_isMine (mineAt bm x y))
                            (updCell x y (λ _, Cell0) gr)) l gr in
  wf_grid gr' ∧
  ∀ x y, inBounds x y = true →
         cellAt gr' x y = if decide ((x, y) ∈ l)
                          then mkCell (mineAt bm x y) 0 HIDDEN
                          else cellAt gr x y.
Proof.
  revert gr. induction l as [|[a b] l IH]; intros gr Hwf Hnd Hin; cbv zeta.
  - split; [done|]. intros x y _. case_decide as Hd; [by apply elem_of_nil in Hd|done].
  - cbn [fold_left]. apply NoDup_cons in Hnd as [Hnotin Hnd].
    assert (inBounds a b = true) as Hab by apply (Hin (a, b)), list_elem_of_here.
    set (gr1 := updCell a b (set_isMine (mineAt bm a b)) (updCell a b (λ _, Cell0) gr)).
    assert (wf_grid gr1) as Hwf1 by by do 2 apply wf_updCell.
    destruct (IH gr1 Hwf1 Hnd (λ c Hc, Hin c (list_elem_of_further _ _ _ Hc)))
      as [Hwf' Hcells].
    split; [done|]. intros x y Hxy. rewrite (Hcells x y Hxy).
    destruct (decide ((x, y) ∈ l)) as [Hl|Hl].
    + rewrite decide_True; [done|]. by apply list_elem_of_further.
    + unfold gr1. rewrite !cellAt_updCell by (done || by apply wf_updCell).
      destruct (decide ((a, b) = (x, y))) as [[= -> ->]|Hne].
      * rewrite ?(decide_True (P := (x, y) = (x, y))) by done.
        destruct (decide ((x, y) ∈ (x, y) :: l)) as [|Hn]; [done|].
        exfalso. apply Hn, list_elem_of_here.
      * rewrite ?(decide_False (P := (a, b) = (x, y))) by done.
        destruct (decide ((x, y) ∈ (a, b) :: l)) as [[Heq|?]%elem_of_cons|]; done.
Qed.

Lemma numbers_fold (l : list (Z * Z)) (gr : list (list Cell)) :
  wf_grid gr → NoDup l → (∀ c, c ∈ l → inBounds c.1 c.2 = true) →
  let gr' := fold_left (λ gr '(x, y),
                          if isMine (cellAt gr x y) then gr
                          else updCell x y
                                 (set_neighboringMines (countMineNeighbors gr x y)) gr)
                       l gr in
  wf_grid gr' ∧
  ∀ x y, inBounds x y = true →
         cellAt gr' x y
         = if decide ((x, y) ∈ l ∧ isMine (cellAt gr x y) = false)
           then set_neighboringMines (countMineNeighbors gr x y) (cellAt gr x y)
           else cellAt gr x y.
Proof.
  revert gr. induction l as [|[a b] l IH]; intros gr Hwf Hnd Hin; cbv zeta.
  - split; [done|]. intros x y _.
    case_decide as Hd; [|done]. destruct Hd as [Hd _]. by apply elem_of_nil in Hd.
  - cbn [fold_left]. apply NoDup_cons in Hnd as [Hnotin Hnd].
    assert (inBounds a b = true) as Hab by apply (Hin (a, b)), list_elem_of_here.
    set (gr1 := if isMine (cellAt gr a b) then gr
                else updCell a b (set_neighboringMines (countMineNeighbors gr a b)) gr).
    assert (wf_grid gr1) as Hwf1.
    { unfold gr1. destruct (isMine (cellAt gr a b)); [done|by apply wf_updCell]. }
    assert (same_mines gr gr1 ∧
            ∀ x y, inBounds x y = true → (x, y) ≠ (a, b) → cellAt gr1 x y = cellAt gr x y)
      as [Hlay Hother].
    { unfold gr1. destruct (isMine (cellAt gr a b)) eqn:Hm.
      - split; [by intros ???|done].
      - split.
        + intros x y Hxy. rewrite cellAt_updCell by done.
          case_decide as Heq; [|done]. injection Heq as <- <-. simpl. by rewrite Hm.
        + intros x y Hxy Hne. apply cellAt_updCell_ne; [done..|congruence]. }
    destruct (IH gr1 Hwf1 Hnd (λ c Hc, Hin c (list_elem_of_further _ _ _ Hc)))
      as [Hwf' Hcells].
    split; [done|]. intros x y Hxy. rewrite (Hcells x y Hxy).
    rewrite (Hlay x y Hxy), (countMineNeighbors_mines gr gr1) by done.
    destruct (decide ((x, y) = (a, b))) as [[= -> ->]|Hne].
    + destruct (decide ((a, b) ∈ l ∧ isMine (cellAt gr a b) = false)) as [[? _]|_];
        [done|].
      unfold gr1. destruct (isMine (cellAt gr a b)) eqn:Hm.
      * destruct (decide ((a, b) ∈ (a, b) :: l ∧ true = false)) as [[_ ?]|]; done.
      * destruct (decide ((a, b) ∈ (a, b) :: l ∧ false = false)) as [|Hn].
        -- by rewrite cellAt_updCell_eq.
        -- exfalso. apply Hn. split; [apply list_elem_of_here|done].
    + rewrite (Hother x y Hxy Hne).
      destruct (decide ((x, y) ∈ l ∧ isMine (cellAt gr x y) = false)) as [[Hl Hm]|Hn].
      * destruct (decide ((x, y) ∈ (a, b) :: l ∧ isMine (cellAt gr x y) = false))
          as [|Hn]; [done|].
        exfalso. apply Hn. split; [by apply list_elem_of_further|done].
      * destruct (decide ((x, y) ∈ (a, b) :: l ∧ isMine (cellAt gr x y) = false))
          as [[[?|?]%elem_of_cons ?]|]; try done.
        exfalso. by apply Hn.
Qed.

Lemma all_in_allCells c : c ∈ allCells → inBounds c.1 c.2 = true.
Proof. destruct c as [x y]. apply elem_of_allCells. Qed.

Lemma board_cells bm gr x y :
  wf_grid gr → inBounds x y = true →
  wf_grid (computeNumbers (installMines bm gr)) ∧
  cellAt (computeNumbers (installMines bm gr)) x y
  = mkCell (mineAt bm x y)
           (if mineAt bm x y then 0 else countMineNeighbors (installMines bm gr) x y)
           HIDDEN.
Proof.
  intros Hwf Hin.
  destruct (install_fold bm allCells gr Hwf NoDup_allCells all_in_allCells) as [Hwf1 H1].
  fold (installMines bm gr) in Hwf1, H1.
  destruct (numbers_fold allCells (installMines bm gr) Hwf1 NoDup_allCells all_in_allCells)
    as [Hwf2 H2].
  fold (computeNumbers (installMines bm gr)) in Hwf2, H2.
  split; [done|]. rewrite (H2 x y Hin), (H1 x y Hin).
  pose proof (proj2 (elem_of_allCells x y) Hin) as Hall.
  destruct (decide ((x, y) ∈ allCells)) as [_|]; [|done].
  cbn [isMine]. destruct (mineAt bm x y).
  - destruct (decide ((x, y) ∈ allCells ∧ true = false)) as [[_ ?]|]; done.
  - destruct (decide ((x, y) ∈ allCells ∧ false = false)) as [|Hn]; [done|].
    exfalso. by apply Hn.
Qed.

Lemma bitmapMines_filter bm :
  bitmapMines bm
  = Z.of_nat (length (filter (λ c, Is_true (mineAt bm c.1 c.2)) allCells)).
Proof.
  unfold bitmapMines.
  rewrite <- (fold_count (λ c, mineAt bm c.1 c.2) allCells 0) at 1.
  apply fold_left_fun_ext. by intros n [x y].
Qed.

Lemma installMines_cell bm gr x y :
  wf_grid gr → inBounds x y = true →
  cellAt (installMines bm gr) x y = mkCell (mineAt bm x y) 0 HIDDEN.
Proof.
  intros Hwf Hin.
  destruct (install_fold bm allCells gr Hwf NoDup_allCells all_in_allCells) as [_ H1].
  fold (installMines bm gr) in H1. rewrite (H1 x y Hin).
  pose proof (proj2 (elem_of_allCells x y) Hin).
  by destruct (decide ((x, y) ∈ allCells)).
Qed.

Lemma wf_freshBoard bm : wf_grid (grid (freshBoard bm)).
Proof.
  pose proof GRID_WIDTH_pos. pose proof GRID_HEIGHT_pos.
  apply (board_cells bm (grid newGame) 0 0 wf_newGame). apply inBounds_spec. lia.
Qed.

Lemma freshBoard_cell bm x y :
  inBounds x y = true →
  cellAt (grid (freshBoard bm)) x y
  = mkCell (mineAt bm x y)
           (if mineAt bm x y then 0 else countMineNeighbors (grid (freshBoard bm)) x y)
           HIDDEN.
Proof.
  intros Hin. cbn [grid freshBoard].
  rewrite (proj2 (board_cells bm (grid newGame) x y wf_newGame Hin)).
  destruct (mineAt bm x y); [done|]. f_equal. symmetry.
  apply countMineNeighbors_mines. intros x' y' Hin'.
  rewrite (proj2 (board_cells bm (grid newGame) x' y' wf_newGame Hin')).
  by rewrite installMines_cell by (done || apply wf_newGame).
Qed.

Lemma freshBoard_settled bm : bitmapMines bm = NUM_MINES → settled (freshBoard bm).
Proof.
  intros Hmines. pose proof (wf_freshBoard bm) as Hwf.
  assert (∀ x y, inBounds x y = true →
                 isHidden (cellAt (grid (freshBoard bm)) x y) = true) as Hhid.
  { intros x y Hin. by rewrite (freshBoard_cell bm x y Hin). }
  assert (countCells isRevealed (grid (freshBoard bm)) = 0) as Hrev.
  { apply countCells_none. intros x y Hin. apply hidden_not_revealed. by apply Hhid. }
  pose proof safe_cells_pos as Hpos. fold SAFE_CELLS in Hpos.
  split; [split|].
  - done.
  - intros x y Hin. rewrite (freshBoard_cell bm x y Hin). cbn [isMine neighboringMines].
    by intros ->.
  - rewrite <- Hmines, bitmapMines_filter, countCells_filter. f_equal.
    apply (count_same (λ c, mineAt bm c.1 c.2)
                      (λ c, isMine (cellAt (grid (freshBoard bm)) c.1 c.2))).
    intros [x y] Hc%elem_of_allCells. cbn [fst snd].
    by rewrite (freshBoard_cell bm x y Hc).
  - intros x y Hin Hr. by rewrite (hidden_not_revealed _ (Hhid x y Hin)) in Hr.
  - intros x y Hin Hf. by rewrite (hidden_not_flagged _ (Hhid x y Hin)) in Hf.
  - done.
  - done.
  - rewrite Hrev. lia.
Qed.



Section PlayoutFacts.

Variable rnd : nat → nat.
Variable std_sort : (Rule → Rule → bool) → list Rule → list Rule.


End PlayoutFacts.

(** ** Bytes and little-endian integers *)

Lemma Z_of_byte_of_Z z : Z_of_byte (byte_of_Z z) = z mod 256.
Proof.
  unfold Z_of_byte, byte_of_Z.
  pose proof (Z.mod_pos_bound z 256 eq_refl) as Hb.
  destruct (Byte.of_N (Z.to_N (z mod 256))) as [b|] eqn:Hof.
  - apply Byte.to_of_N in Hof. simpl. rewrite Hof. lia.
  - apply Byte.of_N_None_iff in Hof. lia.
Qed.

Lemma Z_of_byte_bounds b : 0 ≤ Z_of_byte b < 256.
Proof. unfold Z_of_byte. pose proof (Byte.to_N_bounded b). lia. Qed.

Lemma length_le_bytes n z : length (le_bytes n z) = n.
Proof. revert z. induction n as [|n IH]; intros z; simpl; [done|]. by rewrite IH. Qed.

Lemma le_value_le_bytes n z : le_value (le_bytes n z) = z mod 256 ^ Z.of_nat n.
Proof.
  revert z. induction n as [|n IH]; intros z.
  - simpl. by rewrite Z.mod_1_r.
  - cbn [le_bytes le_value]. rewrite Z_of_byte_of_Z, IH.
    replace (256 ^ Z.of_nat (S n)) with (256 * 256 ^ Z.of_nat n)
      by (rewrite Nat2Z.inj_succ, Z.pow_succ_r; lia).
    rewrite Z.rem_mul_r by lia. lia.
Qed.

Lemma le_value_bounds bs : 0 ≤ le_value bs < 256 ^ Z.of_nat (length bs).
Proof.
  induction bs as [|b bs IH]; [simpl; lia|].
  cbn [le_value length]. pose proof (Z_of_byte_bounds b).
  rewrite Nat2Z.inj_succ, Z.pow_succ_r by lia. lia.
Qed.

(** ** Round trips of the object representations *)

Lemma int_repr_ok z : int_range z = true → repr_ok int_repr z.
Proof.
  intros [Hlo%Z.leb_le Hhi%Z.ltb_lt]%andb_true_iff. split; [done|].
  cbn [of_bytes to_bytes int_repr]. rewrite le_value_le_bytes.
  change (256 ^ Z.of_nat 4) with (2 ^ 32).
  destruct (decide (0 ≤ z)).
  - rewrite Z.mod_small by lia. case_match eqn:E; [done|]. apply Z.ltb_ge in E. lia.
  - replace (z mod 2 ^ 32) with (z + 2 ^ 32).
    + case_match eqn:E; [apply Z.ltb_lt in E; lia|lia].
    + apply Z.mod_unique with (-1); lia.
Qed.

Lemma bool_repr_ok b : repr_ok bool_repr b.
Proof. split; [done|]. by destruct b. Qed.

Lemma action_repr_ok a : repr_ok action_repr a.
Proof. split; [done|]. by destruct a. Qed.

(** ** The binary64 bit pattern *)

Lemma digits2_pos_bounds m :
  2 ^ (Z.pos (digits2_pos m) - 1) ≤ Z.pos m < 2 ^ Z.pos (digits2_pos m).
Proof.
  induction m as [m IH|m IH|]; cbn [digits2_pos]; [| |simpl; lia].
  - rewrite Pos2Z.inj_succ. replace (Z.succ (Z.pos (digits2_pos m)) - 1)
      with (Z.succ (Z.pos (digits2_pos m) - 1)) by lia.
    rewrite !Z.pow_succ_r by lia. lia.
  - rewrite Pos2Z.inj_succ. replace (Z.succ (Z.pos (digits2_pos m)) - 1)
      with (Z.succ (Z.pos (digits2_pos m) - 1)) by lia.
    rewrite !Z.pow_succ_r by lia. lia.
Qed.

(** A valid finite binary64 number is subnormal with exponent -1074, or
    has a 53-bit mantissa. *)
Lemma valid_finite_cases s m e :
  valid_binary (S754_finite s m e) = true →
  (Z.pos m < 2 ^ 52 ∧ e = -1074) ∨
  (2 ^ 52 ≤ Z.pos m < 2 ^ 53 ∧ -1074 ≤ e ≤ 971).
Proof.
  unfold valid_binary, SpecFloat.valid_binary, bounded, canonical_mantissa, fexp,
    SpecFloat.emin, prec, emax.
  intros [Hc%Z.eqb_eq Hle%Z.leb_le]%andb_true_iff.
  pose proof (digits2_pos_bounds m) as [Hlo Hhi].
  set (d := Z.pos (digits2_pos m)) in *.
  assert (0 < d) by (unfold d; lia).
  destruct (decide (d ≤ 52)) as [Hd|Hd].
  - left. split; [|lia].
    eapply Z.lt_le_trans; [exact Hhi|]. apply Z.pow_le_mono_r; lia.
  - right. assert (d = 53) as Hd53 by lia. rewrite Hd53 in Hlo, Hhi.
    simpl in Hlo. lia.
Qed.

Lemma bits_of_SF_range f : valid_binary f = true → 0 ≤ bits_of_SF f < 2 ^ 64.
Proof.
  destruct f as [s|s| |s m e]; intros Hv; cbn [bits_of_SF].
  - destruct s; lia.
  - destruct s; lia.
  - lia.
  - destruct (valid_finite_cases s m e Hv) as [[Hm ->]|[Hm He]].
    + rewrite (proj2 (Z.ltb_lt _ _) Hm). destruct s; lia.
    + rewrite (proj2 (Z.ltb_ge _ _) (proj1 Hm)). destruct s; lia.
Qed.

Lemma SF_of_bits_of_SF f : valid_binary f = true → SF_of_bits (bits_of_SF f) = f.
Proof.
  destruct f as [s|s| |s m e]; intros Hv.
  - by destruct s.
  - by destruct s.
  - done.
  - cbn [bits_of_SF]. unfold SF_of_bits. cbv zeta.
    destruct (valid_finite_cases s m e Hv) as [[Hm ->]|[Hm He]].
    + rewrite (proj2 (Z.ltb_lt _ _) Hm).
      set (sg := if s then 2 ^ 63 else 0).
      assert ((2 ^ 63 <=? sg + Z.pos m) = s) as ->.
      { unfold sg. destruct s; [apply Z.leb_le|apply Z.leb_gt]; lia. }
      assert ((sg + Z.pos m) mod 2 ^ 63 = Z.pos m) as ->.
      { unfold sg. destruct s.
        - rewrite Z.add_comm, <- (Z.mul_1_l (2 ^ 63)), Z.mod_add by lia.
          apply Z.mod_small. lia.
        - apply Z.mod_small. lia. }
      rewrite Z.div_small, Z.mod_small by lia. done.
    + rewrite (proj2 (Z.ltb_ge _ _) (proj1 Hm)).
      set (sg := if s then 2 ^ 63 else 0).
      set (r := (e + 1075) * 2 ^ 52 + (Z.pos m - 2 ^ 52)).
      assert (0 ≤ r < 2 ^ 63) as Hr by (unfold r; lia).
      assert ((2 ^ 63 <=? sg + r) = s) as ->.
      { unfold sg. destruct s; [apply Z.leb_le|apply Z.leb_gt]; lia. }
      assert ((sg + r) mod 2 ^ 63 = r) as ->.
      { unfold sg. destruct s.
        - rewrite Z.add_comm, <- (Z.mul_1_l (2 ^ 63)), Z.mod_add by lia.
          apply Z.mod_small. lia.
        - apply Z.mod_small. lia. }
      assert (r / 2 ^ 52 = e + 1075) as ->.
      { unfold r. rewrite Z.add_comm, Z.div_add by lia.
        rewrite Z.div_small by lia. lia. }
      assert (r mod 2 ^ 52 = Z.pos m - 2 ^ 52) as ->.
      { unfold r. rewrite Z.add_comm, Z.mod_add by lia. apply Z.mod_small. lia. }
      rewrite (proj2 (Z.eqb_neq _ _)) by lia.
      rewrite (proj2 (Z.eqb_neq (e + 1075) 2047)) by lia.
      replace (Z.pos m - 2 ^ 52 + 2 ^ 52) with (Z.pos m) by lia.
      f_equal. lia.
Qed.

Lemma double_repr_ok f : repr_ok double_repr f.
Proof.
  split; [done|]. cbn [of_bytes to_bytes double_repr].
  rewrite le_value_le_bytes. change (256 ^ Z.of_nat 8) with (2 ^ 64).
  rewrite Z.mod_small by apply bits_of_SF_range, Prim2SF_valid.
  rewrite SF_of_bits_of_SF by apply Prim2SF_valid. apply SF2Prim_Prim2SF.
Qed.

(** ** Reading back what was written *)

Lemma sread_swrite {T} (R : Repr T) (v old : T) (rest : list byte) :
  repr_ok R v →
  sread R old (mkIstream (@to_bytes T R v ++ rest) false) = (v, mkIstream rest false).
Proof.
  intros [Hlen Hval]. unfold sread. cbn [failbit buf].
  rewrite length_app, Hlen.
  rewrite (proj2 (Nat.leb_le _ _)) by lia.
  rewrite <- Hlen at 1 2. rewrite take_app_length, drop_app_length. by rewrite Hval.
Qed.

Lemma writeRule_app ofs rule : writeRule ofs rule = ofs ++ writeRule [] rule.
Proof. unfold writeRule, swrite. cbn [app]. by rewrite !app_assoc. Qed.

Lemma writeRules_app rs ofs :
  fold_left writeRule rs ofs = ofs ++ fold_left writeRule rs [].
Proof.
  revert ofs. induction rs as [|r rs IH]; intros ofs; cbn [fold_left].
  - by rewrite app_nil_r.
  - rewrite IH, (IH (writeRule [] r)), writeRule_app. by rewrite app_assoc.
Qed.

Lemma writeIndividual_app ofs ind :
  writeIndividual ofs ind = ofs ++ writeIndividual [] ind.
Proof.
  unfold writeIndividual, swrite. cbn [app].
  rewrite writeRules_app, (writeRules_app _ (to_bytes _)). by rewrite !app_assoc.
Qed.

Lemma writeIndividuals_app inds ofs :
  fold_left writeIndividual inds ofs = ofs ++ fold_left writeIndividual inds [].
Proof.
  revert ofs. induction inds as [|i inds IH]; intros ofs; cbn [fold_left].
  - by rewrite app_nil_r.
  - rewrite IH, (IH (writeIndividual [] i)), writeIndividual_app. by rewrite app_assoc.
Qed.

Lemma readRule_writeRule rule old rest :
  rule_ok rule = true →
  readRule old (mkIstream (writeRule [] rule ++ rest) false)
  = (rule, mkIstream rest false).
Proof.
  unfold rule_ok. rewrite !andb_true_iff. intros [[[[H1 H2] H3] H4] H5].
  unfold writeRule, swrite, readRule. cbn [app]. rewrite <- !app_assoc.
  rewrite (sread_swrite int_repr) by by apply int_repr_ok.
  rewrite (sread_swrite int_repr) by by apply int_repr_ok.
  rewrite (sread_swrite int_repr) by by apply int_repr_ok.
  rewrite (sread_swrite bool_repr) by apply bool_repr_ok.
  rewrite (sread_swrite bool_repr) by apply bool_repr_ok.
  rewrite (sread_swrite int_repr) by by apply int_repr_ok.
  rewrite (sread_swrite int_repr) by by apply int_repr_ok.
  rewrite (sread_swrite action_repr) by apply action_repr_ok.
  by destruct rule.
Qed.

Lemma readRules_written (remaining done todo : list Rule) (rest : list byte) :
  length todo = length remaining → forallb rule_ok remaining = true →
  fold_left (λ '(rs, ifs) j,
               let '(rule, ifs) := readRule (default Rule0 (rs !! j)) ifs in
               (<[j := rule]> rs, ifs))
            (seq (length done) (length remaining))
            (done ++ todo, mkIstream (fold_left writeRule remaining [] ++ rest) false)
  = (done ++ remaining, mkIstream rest false).
Proof.
  revert done todo. induction remaining as [|r rem IH]; intros done todo Hlen Hok.
  - destruct todo; [done|discriminate].
  - destruct todo as [|t todo]; [discriminate|].
    cbn [forallb] in Hok. apply andb_true_iff in Hok as [Hr Hrem].
    cbn [length seq fold_left]. rewrite writeRules_app, <- app_assoc.
    rewrite readRule_writeRule by done.
    assert (<[length done := r]> (done ++ t :: todo) = (done ++ [r]) ++ todo) as ->.
    { rewrite insert_app_r_alt by lia. rewrite Nat.sub_diag. cbn. by rewrite <- app_assoc. }
    replace (S (length done)) with (length (done ++ [r]))
      by (rewrite length_app; simpl; lia).
    rewrite IH by (done || (simpl in Hlen; lia)).
    by rewrite <- app_assoc.
Qed.

Lemma readRules_writeRules (rs rs0 : list Rule) (rest : list byte) :
  length rs0 = length rs → forallb rule_ok rs = true →
  readRules (Z.of_nat (length rs)) rs0
            (mkIstream (fold_left writeRule rs [] ++ rest) false)
  = (rs, mkIstream rest false).
Proof.
  intros Hlen Hok. unfold readRules. rewrite Nat2Z.id.
  apply (readRules_written rs [] rs0 rest Hlen Hok).
Qed.

Lemma int_range_NUM_RULES : int_range NUM_RULES = true.
Proof. reflexivity. Qed.

Lemma int_range_POPULATION_SIZE : int_range POPULATION_SIZE = true.
Proof. reflexivity. Qed.

Lemma readIndividuals_written (remaining done todo : list Individual)
    (rest : list byte) :
  length todo = length remaining → forallb ind_ok remaining = true →
  readIndividuals (seq (length done) (length remaining)) (done ++ todo)
                  (mkIstream (fold_left writeIndividual remaining [] ++ rest) false)
  = (true, done ++ remaining).
Proof.
  revert done todo. induction remaining as [|r rem IH]; intros done todo Hlen Hok.
  - destruct todo; [|discriminate]. done.
  - destruct todo as [|t todo]; [discriminate|].
    cbn [forallb] in Hok. apply andb_true_iff in Hok as [Hr Hrem].
    unfold ind_ok in Hr. apply andb_true_iff in Hr as [Hn%Z.eqb_eq Hrules].
    cbn [length seq readIndividuals fold_left].
    rewrite writeIndividuals_app. unfold writeIndividual at 1. unfold swrite. cbn [app].
    rewrite writeRules_app, <- !app_assoc.
    rewrite (sread_swrite int_repr) by (apply int_repr_ok; rewrite Hn; reflexivity).
    cbn [failbit orb]. rewrite Hn, Z.eqb_refl. cbn [negb].
    assert ((done ++ t :: todo) !! length done = Some t) as ->.
    { rewrite lookup_app_r by lia. by rewrite Nat.sub_diag. }
    cbn [default]. rewrite <- Hn.
    rewrite readRules_writeRules;
      [|rewrite length_resize; lia|done].
    rewrite (sread_swrite double_repr) by apply double_repr_ok. cbn [failbit].
    assert (<[length done := mkIndividual (rules r) (fitness r)]> (done ++ t :: todo)
            = (done ++ [r]) ++ todo) as ->.
    { rewrite insert_app_r_alt by lia. rewrite Nat.sub_diag. cbn.
      rewrite <- app_assoc. by destruct r. }
    replace (S (length done)) with (length (done ++ [r]))
      by (rewrite length_app; simpl; lia).
    rewrite IH by (done || (simpl in Hlen; lia)).
    by rewrite <- app_assoc.
Qed.

Lemma load_save_roundtrip population population0 filename fs :
  writable fs filename = true → population_ok population = true →
  loadPopulation population0 filename (savePopulation population filename fs)
  = (true, population).
Proof.
  intros Hw [Hn%Z.eqb_eq Hinds]%andb_true_iff.
  unfold savePopulation, loadPopulation. rewrite Hw. cbn [negb files].
  rewrite lookup_insert_eq. unfold swrite. cbn [app].
  rewrite writeIndividuals_app.
  rewrite (sread_swrite int_repr) by (apply int_repr_ok; rewrite Hn; reflexivity).
  cbn [failbit orb]. rewrite Hn, Z.eqb_refl. cbn [negb].
  rewrite <- Hn, Nat2Z.id.
  rewrite <- (app_nil_r (fold_left writeIndividual population [])).
  apply (readIndividuals_written population [] (replicate (length population) Individual0) []);
    [by rewrite length_replicate|done].
Qed.

(** ** The fallback of [main] *)

Lemma push_random_length rnd (n : list nat) (population : list Individual) k :
  length (fold_left (λ '(population, k) _,
                       let '(ind, k) := createRandomIndividual rnd k in
                       (population ++ [ind], k)) n (population, k)).1
  = (length population + length n)%nat
  ∧ take (length population)
      (fold_left (λ '(population, k) _,
                       let '(ind, k) := createRandomIndividual rnd k in
                       (population ++ [ind], k)) n (population, k)).1
    = population.
Proof.
  revert population k. induction n as [|i n IH]; intros population k; cbn [fold_left].
  - simpl. split; [lia|]. by rewrite firstn_all.
  - destruct (createRandomIndividual rnd k) as [ind k'].
    destruct (IH (population ++ [ind]) k') as [Hlen Htake]. split.
    + rewrite Hlen, length_app. simpl. lia.
    + match goal with |- take _ ?R = _ =>
        assert (take (length population) R
                = take (length population) (take (length (population ++ [ind])) R)) as ->
      end.
      { rewrite take_take. f_equal. rewrite length_app. simpl. lia. }
      by rewrite Htake, take_app_length.
Qed.

Lemma load_mismatchedRules :
  loadPopulation [] "populacao_regras.dat" mismatchedRules
  = (false, replicate 300 Individual0).
Proof. vm_compute. reflexivity. Qed.

Lemma load_mismatchedSize :
  loadPopulation [] "populacao_regras.dat" mismatchedSize = (false, []).
Proof. vm_compute. reflexivity. Qed.

Lemma start_mismatched rnd k :
  length (startPopulation rnd mismatchedRules k).1 = 600%nat ∧
  take 300 (startPopulation rnd mismatchedRules k).1 = replicate 300 Individual0 ∧
  length (startPopulation rnd mismatchedSize k).1 = 300%nat.
Proof.
  unfold startPopulation. rewrite load_mismatchedRules, load_mismatchedSize. cbn [negb].
  pose proof (push_random_length rnd (seq 0 (Z.to_nat POPULATION_SIZE))
                (replicate 300 Individual0) k) as [Hlen Htake].
  pose proof (push_random_length rnd (seq 0 (Z.to_nat POPULATION_SIZE)) [] k) as [Hlen' _].
  rewrite length_replicate in Htake. rewrite length_replicate, length_seq in Hlen.
  rewrite length_seq in Hlen'.
  split_and!; [exact Hlen|exact Htake|exact Hlen'].
Qed.

(** ** Crossover *)

Lemma NUM_RULES_pos : 1 < NUM_RULES.
Proof. reflexivity. Qed.

Opaque NUM_RULES.

Lemma uniform_int_range rnd a b k :
  a ≤ b → a ≤ (uniform_int rnd a b k).1 ≤ b.
Proof.
  intros Hab. unfold uniform_int. cbn [fst].
  pose proof (Z.mod_pos_bound (Z.of_nat (rnd k)) (b - a + 1)). lia.
Qed.

Lemma drawPoints_spec rnd fuel : ∀ numPoints points k points' k',
  drawPoints rnd fuel numPoints points k = Some (points', k') →
  cutPoints_ok points → Z.of_nat (length points) ≤ numPoints →
  cutPoints_ok points' ∧ Z.of_nat (length points') = numPoints.
Proof.
  pose proof NUM_RULES_pos as HR.
  induction fuel as [|fuel IH]; intros numPoints points k points' k' Hd Hok Hlen.
  - cbn [drawPoints] in Hd. destruct (Z.of_nat (length points) <? numPoints) eqn:Hlt;
      [done|]. injection Hd as <- <-. apply Z.ltb_ge in Hlt. split; [done|lia].
  - cbn [drawPoints] in Hd. destruct (Z.of_nat (length points) <? numPoints) eqn:Hlt.
    + apply Z.ltb_lt in Hlt.
      pose proof (uniform_int_range rnd 1 (NUM_RULES - 1) k) as Hr.
      destruct (uniform_int rnd 1 (NUM_RULES - 1) k) as [point k1]. cbn [fst] in Hr.
      destruct (bool_decide (point ∈ points)) eqn:Hin.
      * by apply (IH _ _ _ _ _ Hd).
      * apply bool_decide_eq_false in Hin. apply (IH _ _ _ _ _ Hd).
        -- destruct Hok as [Hnd Hall]. split.
           ++ apply NoDup_app. split_and!; [done| |apply NoDup_singleton].
              intros x Hx ->%list_elem_of_singleton. done.
           ++ apply Forall_app. split; [done|]. apply Forall_singleton. lia.
        -- rewrite length_app. simpl. lia.
    + injection Hd as <- <-. apply Z.ltb_ge in Hlt. split; [done|lia].
Qed.

Lemma copyGene_lookup toggle p1 p2 i o j :
  0 ≤ i →
  (Z.to_nat i < length o.1)%nat → (Z.to_nat i < length o.2)%nat →
  let o' := copyGene toggle p1 p2 i o in
  length o'.1 = length o.1 ∧ length o'.2 = length o.2 ∧
  o'.1 !! j = (if decide (j = Z.to_nat i)
               then Some (gene (parentOf toggle p1 p2) i) else o.1 !! j) ∧
  o'.2 !! j = (if decide (j = Z.to_nat i)
               then Some (gene (parentOf (negb toggle) p1 p2) i) else o.2 !! j).
Proof.
  intros Hi H1 H2. unfold copyGene, parentOf.
  destruct toggle; cbn [fst snd negb]; rewrite !length_insert;
    (split_and!; [done|done| |]);
    (case_decide as Hj; [subst j; by apply list_lookup_insert_eq
                        |by apply list_lookup_insert_ne]).
Qed.

(** One block: the positions from [lo] up to [hi] come from one parent,
    the rest is left alone. *)
Lemma copyBlock_lookup toggle p1 p2 (len : nat) : ∀ lo o j,
  0 ≤ lo → (Z.to_nat lo + len ≤ length o.1)%nat →
  (Z.to_nat lo + len ≤ length o.2)%nat →
  let o' := fold_left (λ o i, copyGene toggle p1 p2 i o) (seqZ lo (Z.of_nat len)) o in
  length o'.1 = length o.1 ∧ length o'.2 = length o.2 ∧
  o'.1 !! j = (if decide (Z.to_nat lo ≤ j < Z.to_nat lo + len)%nat
               then Some (gene (parentOf toggle p1 p2) (Z.of_nat j)) else o.1 !! j) ∧
  o'.2 !! j = (if decide (Z.to_nat lo ≤ j < Z.to_nat lo + len)%nat
               then Some (gene (parentOf (negb toggle) p1 p2) (Z.of_nat j)) else o.2 !! j).
Proof.
  induction len as [|len IH]; intros lo o j Hlo H1 H2; cbv zeta.
  - rewrite seqZ_nil by lia. cbn [fold_left].
    split_and!; [done|done| |]; by rewrite decide_False by lia.
  - rewrite seqZ_cons by lia. cbn [fold_left].
    replace (Z.pred (Z.of_nat (S len))) with (Z.of_nat len) by lia.
    destruct (copyGene_lookup toggle p1 p2 lo o j Hlo) as (L1 & L2 & G1 & G2);
      [lia|lia|].
    destruct (IH (Z.succ lo) (copyGene toggle p1 p2 lo o) j) as (L1' & L2' & G1' & G2');
      [lia|rewrite L1; lia|rewrite L2; lia|].
    split_and!; [congruence|congruence| |].
    + rewrite G1', G1. repeat case_decide; try lia; try done.
      subst j. by rewrite Z2Nat.id by lia.
    + rewrite G2', G2. repeat case_decide; try lia; try done.
      subst j. by rewrite Z2Nat.id by lia.
Qed.

Lemma copyBlock_spec toggle p1 p2 lo hi o j :
  0 ≤ lo → (Z.to_nat hi ≤ length o.1)%nat → (Z.to_nat hi ≤ length o.2)%nat →
  let o' := copyBlock toggle p1 p2 lo hi o in
  length o'.1 = length o.1 ∧ length o'.2 = length o.2 ∧
  o'.1 !! j = (if decide (lo ≤ Z.of_nat j < hi)
               then Some (gene (parentOf toggle p1 p2) (Z.of_nat j)) else o.1 !! j) ∧
  o'.2 !! j = (if decide (lo ≤ Z.of_nat j < hi)
               then Some (gene (parentOf (negb toggle) p1 p2) (Z.of_nat j)) else o.2 !! j).
Proof.
  intros Hlo H1 H2. unfold copyBlock. cbv zeta.
  destruct (decide (hi ≤ lo)) as [Hle|Hgt].
  - rewrite seqZ_nil by lia. cbn [fold_left].
    split_and!; [done|done| |]; by rewrite decide_False by lia.
  - replace (hi - lo) with (Z.of_nat (Z.to_nat (hi - lo))) by lia.
    destruct (copyBlock_lookup toggle p1 p2 (Z.to_nat (hi - lo)) lo o j Hlo)
      as (L1 & L2 & G1 & G2); [lia|lia|].
    split_and!; [done|done| |].
    + rewrite G1. repeat case_decide; try lia; done.
    + rewrite G2. repeat case_decide; try lia; done.
Qed.

Lemma cutsUpTo_snoc points p i :
  cutsUpTo (points ++ [p]) i
  = (cutsUpTo points i + (if decide (p ≤ i)%Z then 1 else 0))%nat.
Proof.
  unfold cutsUpTo. rewrite filter_app, length_app, filter_cons, filter_nil.
  by case_decide.
Qed.

Lemma cutsUpTo_all points i :
  Forall (λ p, p ≤ i) points → cutsUpTo points i = length points.
Proof.
  unfold cutsUpTo. induction 1 as [|p l Hp _ IH]; [done|].
  rewrite filter_cons, decide_True by done. simpl. by rewrite IH.
Qed.

(** The state of the copy loops after the cut points [points]: every
    position before the last cut holds the gene of the parent that the
    number of cuts passed so far selects. *)
Lemma copyBlocks_spec p1 p2 o0 (points : list Z) :
  StronglySorted Z.le points → NoDup points →
  Forall (λ p, 1 ≤ p ≤ NUM_RULES - 1) points →
  length o0.1 = Z.to_nat NUM_RULES → length o0.2 = Z.to_nat NUM_RULES →
  ∃ o last,
    copyBlocks p1 p2 points (o0, 0, false) = (o, last, Nat.odd (length points)) ∧
    0 ≤ last ≤ NUM_RULES - 1 ∧ (last = 0 ∨ last ∈ points) ∧
    Forall (λ p, p ≤ last) points ∧
    length o.1 = Z.to_nat NUM_RULES ∧ length o.2 = Z.to_nat NUM_RULES ∧
    ∀ j, Z.of_nat j < last →
         o.1 !! j = Some (gene (parentOf (Nat.odd (cutsUpTo points (Z.of_nat j))) p1 p2)
                               (Z.of_nat j)) ∧
         o.2 !! j = Some (gene (parentOf (negb (Nat.odd (cutsUpTo points (Z.of_nat j))))
                                         p1 p2) (Z.of_nat j)).
Proof.
  pose proof NUM_RULES_pos as HR.
  induction points as [|p l IH] using rev_ind; intros Hs Hnd Hall H1 H2.
  - exists o0, 0. split_and!; [done|lia|lia|by left|done|done|done|]. intros j Hj. lia.
  - apply Forall_app in Hall as [Hall Hp]. apply Forall_inv in Hp.
    apply NoDup_app in Hnd as (Hnd & Hnotin & _).
    destruct (IH (StronglySorted_app_1_l _ _ _ Hs) Hnd Hall H1 H2)
      as (o & last & Hrun & Hlast & Hwhere & Hle & L1 & L2 & Hgenes).
    assert (Forall (λ q, q < p) l) as Hlt.
    { apply Forall_forall. intros q Hq.
      pose proof (StronglySorted_app_1_elem_of _ _ _ q p Hs Hq (list_elem_of_here _ _)).
      assert (q ≠ p) by (intros ->; by apply (Hnotin p), list_elem_of_here).
      lia. }
    assert (last < p) as Hlastp.
    { destruct Hwhere as [->|Hin]; [lia|].
      by apply (proj1 (Forall_forall _ _) Hlt). }
    exists (copyBlock (Nat.odd (length l)) p1 p2 last p o), p.
    destruct (copyBlock_spec (Nat.odd (length l)) p1 p2 last p o 0)
      as (L1' & L2' & _ & _); [lia|lia|lia|].
    split_and!.
    + unfold copyBlocks in *. rewrite fold_left_app, Hrun. cbn [fold_left].
      rewrite length_app. cbn [length]. rewrite Nat.add_1_r, Nat.odd_succ.
      by rewrite <- Nat.negb_odd.
    + lia.
    + lia.
    + right. apply elem_of_app. right. apply list_elem_of_here.
    + apply Forall_app. split; [|by apply Forall_singleton].
      eapply Forall_impl; [exact Hlt|]. simpl. lia.
    + congruence.
    + congruence.
    + intros j Hj.
      destruct (copyBlock_spec (Nat.odd (length l)) p1 p2 last p o j)
        as (_ & _ & G1 & G2); [lia|lia|lia|].
      rewrite G1, G2, cutsUpTo_snoc. rewrite (decide_False (P := p ≤ Z.of_nat j)) by lia.
      rewrite Nat.add_0_r.
      destruct (decide (last ≤ Z.of_nat j < p)) as [Hin|Hout].
      * rewrite cutsUpTo_all; [done|].
        eapply Forall_impl; [exact Hle|]. simpl. lia.
      * apply Hgenes. lia.
Qed.

Lemma gene_lookup p i :
  0 ≤ i < Z.of_nat (length (rules p)) → Some (gene p i) = rules p !! Z.to_nat i.
Proof.
  intros Hi. unfold gene.
  destruct (lookup_lt_is_Some_2 (rules p) (Z.to_nat i)) as [r ->]; [lia|]. done.
Qed.

Lemma crossover_spec rnd fuel p1 p2 o1 o2 k o1' o2' k' :
  crossover rnd fuel p1 p2 o1 o2 k = Some (o1', o2', k') →
  Z.of_nat (length (rules p1)) = NUM_RULES →
  Z.of_nat (length (rules p2)) = NUM_RULES →
  ∃ points : list Z,
    1 ≤ Z.of_nat (length points) ≤ NUM_RULES - 1 ∧
    StronglySorted Z.lt points ∧
    Forall (λ p, 1 ≤ p ≤ NUM_RULES - 1) points ∧
    Z.of_nat (length (rules o1')) = NUM_RULES ∧
    Z.of_nat (length (rules o2')) = NUM_RULES ∧
    ∀ i : nat, Z.of_nat i < NUM_RULES →
      rules o1' !! i
      = rules (parentOf (Nat.odd (cutsUpTo points (Z.of_nat i))) p1 p2) !! i ∧
      rules o2'  !! i
      = rules (parentOf (negb (Nat.odd (cutsUpTo points (Z.of_nat i)))) p1 p2) !! i.
Proof.
  pose proof NUM_RULES_pos as HR.
  intros Hc Hp1 Hp2. unfold crossover in Hc.
  pose proof (uniform_int_range rnd 1 (NUM_RULES - 1) k) as Hn.
  destruct (uniform_int rnd 1 (NUM_RULES - 1) k) as [numPoints k0]. cbn [fst] in Hn.
  destruct (drawPoints rnd fuel numPoints [] k0) as [[raw k1]|] eqn:Hdraw; [|done].
  cbn [mbind option_bind] in Hc.
  destruct (drawPoints_spec rnd fuel numPoints [] k0 raw k1 Hdraw) as [[Hnd Hall] Hlen].
  { split; [apply NoDup_nil_2|apply Forall_nil_2]. }
  { simpl. lia. }
  set (points := merge_sort Z.le raw) in *.
  pose proof (merge_sort_Permutation Z.le raw) as Hperm. fold points in Hperm.
  assert (StronglySorted Z.le points) as Hss.
  { apply StronglySorted_merge_sort; apply _. }
  assert (NoDup points) as Hnd' by by rewrite Hperm.
  assert (Forall (λ p, 1 ≤ p ≤ NUM_RULES - 1) points) as Hall' by by rewrite Hperm.
  destruct (copyBlocks_spec p1 p2
              (resize (Z.to_nat NUM_RULES) Rule0 (rules o1),
               resize (Z.to_nat NUM_RULES) Rule0 (rules o2)) points Hss Hnd' Hall')
    as (o & last & Hrun & Hlast & _ & Hle & L1 & L2 & Hgenes);
    [cbn [fst snd]; by rewrite length_resize..|].
  rewrite Hrun in Hc. injection Hc as <- <- <-. cbn [rules].
  destruct (copyBlock_spec (Nat.odd (length points)) p1 p2 last NUM_RULES o 0)
    as (L1' & L2' & _ & _); [lia|lia|lia|].
  exists points. split_and!.
  - rewrite Hperm. lia.
  - rewrite Hperm. lia.
  - clear -Hss Hnd'. induction Hss as [|p l Hs IH Hf]; [constructor|].
    apply NoDup_cons in Hnd' as [Hnotin Hnd]. constructor; [by apply IH|].
    apply Forall_forall. intros q Hq.
    pose proof (proj1 (Forall_forall _ _) Hf q Hq).
    assert (q ≠ p) by (intros ->; done). lia.
  - done.
  - lia.
  - lia.
  - intros i Hi.
    destruct (copyBlock_spec (Nat.odd (length points)) p1 p2 last NUM_RULES o i)
      as (_ & _ & G1 & G2); [lia|lia|lia|].
    rewrite G1, G2.
    assert (∀ b, Some (gene (parentOf b p1 p2) (Z.of_nat i))
                 = rules (parentOf b p1 p2) !! i) as Hgene.
    { intros b. rewrite gene_lookup, Nat2Z.id; [done|]. destruct b; simpl; lia. }
    destruct (decide (last ≤ Z.of_nat i < NUM_RULES)) as [Hin|Hout].
    + rewrite cutsUpTo_all; [by rewrite !Hgene|].
      eapply Forall_impl; [exact Hle|]. simpl. lia.
    + destruct (Hgenes i) as [-> ->]; [lia|]. by rewrite !Hgene.
Qed.

(** ** Scores *)

Lemma tally_fold g (l : list (Z * Z)) a b c :
  fold_left
    (λ '(safeRevealed, correctFlags, minesRevealed) '(x, y),
       let c := cellAt (grid g) x y in
       (if negb (isMine c) && isRevealed c then safeRevealed + 1 else safeRevealed,
        if isMine c && isFlagged c then correctFlags + 1 else correctFlags,
        if isMine c && isRevealed c then minesRevealed + 1 else minesRevealed))
    l (a, b, c)
  = (fold_left (λ n '(x, y), if (λ c, negb (isMine c) && isRevealed c) (cellAt (grid g) x y)
                             then n + 1 else n) l a,
     fold_left (λ n '(x, y), if (λ c, isMine c && isFlagged c) (cellAt (grid g) x y)
                             then n + 1 else n) l b,
     fold_left (λ n '(x, y), if (λ c, isMine c && isRevealed c) (cellAt (grid g) x y)
                             then n + 1 else n) l c).
Proof.
  revert a b c. induction l as [|[x y] l IH]; intros a b c; [done|].
  cbn [fold_left]. by rewrite IH.
Qed.

Lemma tally_spec g : tally g = (safeRevealed g, correctFlags g, minesRevealed g).
Proof.
  unfold tally. rewrite tally_fold.
  unfold safeRevealed, correctFlags, minesRevealed, countCells. reflexivity.
Qed.

Lemma gameScore_formula g actionsTaken :
  gameScore g actionsTaken = scoreFormula g actionsTaken.
Proof. unfold gameScore, scoreFormula. by rewrite tally_spec. Qed.

Lemma float_sub_zero (x : float) : (x - 0)%float = x.
Proof.
  apply Prim2SF_inj. rewrite FloatAxioms.sub_spec.
  change (Prim2SF 0) with (S754_zero false).
  destruct (Prim2SF x) as [s|s| |s m e]; try reflexivity.
  destruct s; reflexivity.
Qed.

(** The score of a game that was won without revealing a mine. *)
Lemma scoreFormula_won g n :
  youWin g = true → minesRevealed g = 0 →
  scoreFormula g n
  = (double_of_int (safeRevealed g) + double_of_int (correctFlags g) * 5
     - double_of_int n * 0x1.999999999999ap-4 + 2000)%float.
Proof.
  intros Hw Hm. unfold scoreFormula. rewrite Hw, Hm.
  change (double_of_int 0 * 50)%float with 0%float. by rewrite float_sub_zero.
Qed.

Section EvaluationFacts.

Variable rnd : nat → nat.
Variable std_sort : (Rule → Rule → bool) → list Rule → list Rule.

(** ** The individual is only read *)

Lemma applyRules_frame ind g ind' g' changed :
  applyRules std_sort ind g = Some (ind', g', changed) → ind' = ind.
Proof.
  unfold applyRules. destruct (applySorted _ _) as [[g1 ch1]|]; [|done].
  by intros [= <- _ _].
Qed.

Lemma playLoop_frame fuel : ∀ ind g actionsTaken changed k ind' g' actions' k',
  playLoop rnd std_sort fuel ind g actionsTaken changed k
  = Some (ind', g', actions', k') → ind' = ind.
Proof.
  induction fuel as [|fuel IH]; intros ind g acts changed k ind' g' acts' k' Hp;
    cbn [playLoop] in Hp;
    destruct (negb (gameOver g) && negb (youWin g) && changed);
    try done; try by injection Hp as <- _ _ _.
  destruct (applyRules std_sort ind g) as [[[ind1 g1] ch1]|] eqn:Ha; [|done].
  apply applyRules_frame in Ha as ->. cbn [mbind option_bind] in Hp.
  destruct (negb ch1 && negb (gameOver g1) && negb (youWin g1)).
  - destruct (revealRandomCell rnd g1 k) as [[g2 k2]|]; [|done].
    cbn [mbind option_bind] in Hp. by apply IH in Hp.
  - by apply IH in Hp.
Qed.

Lemma playGame_frame fuel ind fg k ind' g' actions' k' :
  playGame rnd std_sort fuel ind fg k = Some (ind', g', actions', k') → ind' = ind.
Proof.
  unfold playGame. destruct (initializeGridFixed _ _ _ _) as [g0|]; [|done].
  cbn [mbind option_bind]. apply playLoop_frame.
Qed.

(** ** The fitness is the mean of the scores *)

Lemma winsOf_cons r results :
  winsOf (r :: results) = (if youWin r.1 then 1 else 0) + winsOf results.
Proof.
  unfold winsOf. rewrite filter_cons.
  destruct (youWin r.1); case_decide; try done; cbn [length]; lia.
Qed.

Lemma length_playAll fuel ind games : ∀ k results k',
  playAll rnd std_sort fuel ind games k = Some (results, k') → length results = length games.
Proof.
  induction games as [|fg rest IH]; intros k results k' Hp; cbn [playAll] in Hp.
  - by injection Hp as <- _.
  - destruct (playGame _ _ _ _ _ _) as [[[[ind1 g1] a1] k1]|]; [|done].
    cbn [mbind option_bind] in Hp.
    destruct (playAll rnd std_sort fuel ind rest k1) as [[rs k2]|] eqn:Hr; [|done].
    injection Hp as <- _. simpl. f_equal. by eapply IH.
Qed.

Lemma evalGames_playAll fuel ind games : ∀ totalScore wins n k,
  evalGames rnd std_sort fuel ind games totalScore wins n k
  = '(results, k') ← playAll rnd std_sort fuel ind games k;
    Some (ind, fold_left PrimFloat.add (scoreOf <$> results) totalScore,
          wins + winsOf results, n + Z.of_nat (length results), k').
Proof.
  induction games as [|fg rest IH]; intros total wins n k; cbn [evalGames playAll].
  - cbn. unfold winsOf. cbn. by rewrite !Z.add_0_r.
  - destruct (playGame rnd std_sort fuel ind fg k) as [[[[ind1 g1] a1] k1]|] eqn:Hg;
      [|done].
    apply playGame_frame in Hg as ->. cbn [mbind option_bind]. rewrite IH.
    destruct (playAll rnd std_sort fuel ind rest k1) as [[rs k2]|]; [|done].
    cbn [mbind option_bind fmap list_fmap fold_left length].
    rewrite gameScore_formula, winsOf_cons. cbn [fst snd].
    replace ((if youWin g1 then wins + 1 else wins) + winsOf rs)
      with (wins + ((if youWin g1 then 1 else 0) + winsOf rs))
      by (destruct (youWin g1); lia).
    replace (n + 1 + Z.of_nat (length rs)) with (n + Z.of_nat (S (length rs))) by lia.
    done.
Qed.

End EvaluationFacts.

(** ** The order of the rules *)







Lemma ties_reversed :
  sortReversingTies byPriority (rules tiedIndividual) = [flagLastHidden; revealNextToFlag].
Proof. reflexivity. Qed.

(** On that board the pass wins the game when the flag rule goes first and
    does not when the genome order is kept. *)
Lemma ties_decide_the_game :
  (g ← initializeGridFixed (startX tiedScenario) (startY tiedScenario)
         (mineGrid tiedScenario) newGame;
   '(_, g1, _) ← applyRules sortKeepingTies tiedIndividual g;
   '(_, g2, _) ← applyRules sortReversingTies tiedIndividual g;
   Some (youWin g1, countCells isRevealed (grid g1),
         youWin g2, countCells isRevealed (grid g2)))
  = Some (false, 83, true, 85).
Proof. vm_compute. reflexivity. Qed.

(** ** Sequences of reveals *)

Lemma foldM_preserves {A S} (P : S → Prop) (f : A → S → option S) (l : list A) :
  (∀ a s s', f a s = Some s' → P s → P s') →
  ∀ s s', foldM f l s = Some s' → P s → P s'.
Proof.
  intros Hf. induction l as [|a l IH]; intros s s' Hr Hs; cbn [foldM] in Hr.
  - by injection Hr as <-.
  - destruct (f a s) as [s1|] eqn:Ha; [|done]. cbn [mbind option_bind] in Hr.
    eauto.
Qed.


Lemma settled_safeRevealed g :
  settled g → safeRevealed g = countCells isRevealed (grid g).
Proof.
  intros [Hl _]. apply countCells_eq. intros x y Hin.
  destruct (isRevealed (cellAt (grid g) x y)) eqn:Hr; [|by rewrite andb_false_r].
  by rewrite (live_sound g Hl x y Hin Hr).
Qed.


(** What one reveal does to a settled game. *)
Lemma reveal_settled_cases g x y :
  settled g →
  ∃ g', revealCell STACK x y g = Some g' ∧
        (settled g' ∨
         (g' = set_gameOver true (mark x y g) ∧ inBounds x y = true ∧
          isHidden (cellAt (grid g) x y) = true ∧
          isMine (cellAt (grid g) x y) = true)).
Proof.
  intros Hs. pose proof Hs as [Hl Hw]. pose proof (live_wf g Hl) as Hwf.
  destruct (inBounds x y && isHidden (cellAt (grid g) x y)) eqn:Hc.
  - apply andb_true_iff in Hc as [Hin Hh].
    destruct (isMine (cellAt (grid g) x y)) eqn:Hm.
    + exists (set_gameOver true (mark x y g)). split; [by apply revealCell_mine|].
      by right.
    + destruct (reveal_settled g x y Hs) as (g' & Hr & [Hs'|[Hover _]] & _).
      * exists g'. by split; [|left].
      * exfalso.
        destruct (revealCell_flood STACK g x y) as (g'' & Hr' & Hf & _);
          [done|apply Hl|apply hiddenCount_lt_STACK|done|].
        rewrite Hr in Hr'. injection Hr' as <-.
        rewrite (flood_gameOver _ _ Hf), (live_gameOver g Hl) in Hover. done.
  - exists g. split; [by apply revealCell_noop|by left].
Qed.

Lemma safeRevealed_mark_mine g x y :
  wf_grid (grid g) → inBounds x y = true → isMine (cellAt (grid g) x y) = true →
  isHidden (cellAt (grid g) x y) = true →
  safeRevealed (set_gameOver true (mark x y g)) = safeRevealed g.
Proof.
  intros Hwf Hin Hm Hh. unfold safeRevealed.
  change (grid (set_gameOver true (mark x y g))) with (grid (mark x y g)).
  rewrite grid_mark.
  pose proof (countCells_updCell (λ c, negb (isMine c) && isRevealed c)
                (grid g) x y (set_state REVEALED) Hwf Hin) as H.
  cbn [isMine set_state] in H. rewrite Hm in H. simpl in H. lia.
Qed.




(** ** Boards that can be checked by evaluation *)

Lemma boardOk_spec g : boardOk g = true → wf_grid (grid g) ∧ numbers_ok (grid g).
Proof.
  unfold boardOk. rewrite !andb_true_iff.
  intros [[Hlen%Z.eqb_eq Hrows] Hnum]. split; [split|].
  - pose proof GRID_HEIGHT_pos. lia.
  - apply Forall_forall. intros row Hrow%list_elem_of_In.
    pose proof (proj1 (forallb_forall _ _) Hrows row Hrow) as H%Z.eqb_eq.
    pose proof GRID_WIDTH_pos. lia.
  - intros x y Hin Hm.
    pose proof (proj1 (forallb_forall _ _) Hnum (x, y)) as H. cbv beta iota in H.
    rewrite Hm in H. cbn [orb] in H. apply Z.eqb_eq, H, list_elem_of_In.
    by apply elem_of_allCells.
Qed.

Lemma revealCell_humano_noop depth x y g :
  inBounds x y && isHidden (cellAt (grid g) x y) = false →
  revealCell_humano (S depth) x y g = Some g.
Proof.
  intros H. rewrite revealCell_humano_S.
  destruct (inBounds x y), (isHidden (cellAt (grid g) x y)); done.
Qed.

Lemma revealCell_humano_mine depth x y g :
  wf_grid (grid g) → inBounds x y = true →
  isHidden (cellAt (grid g) x y) = true → isMine (cellAt (grid g) x y) = true →
  revealCell_humano (S depth) x y g = Some (set_gameOver true (mark x y g)).
Proof.
  intros Hwf Hin Hh Hm. rewrite revealCell_humano_S, Hin, Hh. cbn [negb orb]. cbv zeta.
  rewrite grid_mark, cellAt_updCell_eq by done. cbn [isMine set_state]. by rewrite Hm.
Qed.

Lemma reveal_lost_only_on_mine (reveal : nat → Z → Z → Game → option Game) g x y :
  (∀ depth, inBounds x y && isHidden (cellAt (grid g) x y) = false →
            reveal (S depth) x y g = Some g) →
  (∀ depth, inBounds x y = true → isHidden (cellAt (grid g) x y) = true →
            isMine (cellAt (grid g) x y) = true →
            reveal (S depth) x y g = Some (set_gameOver true (mark x y g))) →
  ((inBounds x y = true → isMine (cellAt (grid g) x y) = false) →
   ∃ g', reveal STACK x y g = Some g' ∧ reveal_post x y g g') →
  ∃ g', reveal STACK x y g = Some g' ∧ lost_only_on_mine x y g g'.
Proof.
  intros Hnoop Hmine Hsafe. unfold lost_only_on_mine.
  destruct (inBounds x y && isHidden (cellAt (grid g) x y)) eqn:Hc.
  - apply andb_true_iff in Hc as [Hin Hh].
    destruct (isMine (cellAt (grid g) x y)) eqn:Hm.
    + exists (set_gameOver true (mark x y g)). split; [by apply Hmine|].
      split; [by right|]. intros Hno. by specialize (Hno Hin).
    + destruct Hsafe as (g' & Hr & Hf & _); [done|]. exists g'. split; [done|].
      rewrite (flood_gameOver _ _ Hf). split; [by left|done].
  - exists g. split; [by apply Hnoop|]. split; [by left|done].
Qed.

(** ** A bitmap with another number of mines *)

Lemma noMines_opening :
  initializeGridFixed (startX noMines) (startY noMines) (mineGrid noMines) newGame
  = Some allRevealed.
Proof. vm_compute. reflexivity. Qed.

Lemma allRevealed_pass :
  applyRules sortKeepingTies noRules allRevealed = Some (noRules, allRevealed, false).
Proof. vm_compute. reflexivity. Qed.

Lemma allRevealed_stuck rnd k :
  revealRandomCell rnd allRevealed k = Some (allRevealed, k).
Proof.
  unfold revealRandomCell.
  replace (collectHidden allRevealed) with (@nil (Z * Z)) by (vm_compute; reflexivity).
  reflexivity.
Qed.

(** The mine count of the scenario is needed for the playout to end: on a
    bitmap without mines the opening reveals the whole board, the win test
    never succeeds, and the loop goes round for ever. *)
Lemma playout_needs_the_mine_count rnd fuel k :
  validScenario noMines = false ∧
  playGame rnd sortKeepingTies fuel noRules noMines k = None.
Proof.
  split; [vm_compute; reflexivity|].
  unfold playGame. rewrite noMines_opening. cbn [mbind option_bind].
  generalize 0. revert k.
  induction fuel as [|fuel IH]; intros k a; cbn [playLoop]; [reflexivity|].
  change (negb (gameOver allRevealed) && negb (youWin allRevealed) && true) with true.
  cbv iota. rewrite allRevealed_pass. cbn [mbind option_bind].
  change (negb false && negb (gameOver allRevealed) && negb (youWin allRevealed))
    with true.
  cbv iota. rewrite allRevealed_stuck. cbn [mbind option_bind]. apply IH.
Qed.

(** * The claims *)

Section Claims.

Variable rnd : nat → nat.
Variable std_sort : (Rule → Rule → bool) → list Rule → list Rule.


Lemma evaluateIndividual_mean fuel ind games wins n k :
  evaluateIndividual rnd std_sort fuel ind games wins n k
  = ('(results, k') ← playAll rnd std_sort fuel ind games k;
     Some (ind, mean (scoreOf <$> results),
           wins + winsOf results, n + Z.of_nat (length results), k')).
Proof.
  unfold evaluateIndividual. rewrite evalGames_playAll.
  destruct (playAll rnd std_sort fuel ind games k) as [[rs k']|] eqn:Hp; [|done].
  cbn [mbind option_bind]. unfold mean.
  by rewrite length_fmap, (length_playAll _ _ _ _ _ _ _ _ Hp).
Qed.



(** C9: on a well-formed board whose neighbour counts are those of its
    mines, [revealCell] (of the genetic agent and of the human game)
    returns; the board is marked lost only if it already was or the cell
    aimed at is a mine; revealing a cell that is no mine leaves the lost
    flag as it was; and around a mine-free cell that shows 0 no cell of the
    3x3 block is a mine. *)
Theorem revealCell_loses_only_on_a_mine g x y :
  boardOk g = true →
  (∃ g', revealCell STACK x y g = Some g' ∧ lost_only_on_mine x y g g') ∧
  (∃ g', revealCell_humano STACK x y g = Some g' ∧ lost_only_on_mine x y g g') ∧
  (inBounds x y = true → isMine (cellAt (grid g) x y) = false →
   neighboringMines (cellAt (grid g) x y) = 0 →
   ∀ dx dy, (dx, dy) ∈ offsets 1 → inBounds (x + dx) (y + dy) = true →
            isMine (cellAt (grid g) (x + dx) (y + dy)) = false).
Proof.
  intros [Hwf Hnum]%boardOk_spec. split_and!.
  - apply (reveal_lost_only_on_mine revealCell).
    + intros depth. apply revealCell_noop.
    + intros depth. by apply revealCell_mine.
    + intros Hsafe. by apply revealCell_flood; [| |apply hiddenCount_lt_STACK|].
  - apply (reveal_lost_only_on_mine revealCell_humano).
    + intros depth. apply revealCell_humano_noop.
    + intros depth. by apply revealCell_humano_mine.
    + intros Hsafe. by apply revealCell_humano_flood; [| |apply hiddenCount_lt_STACK|].
  - intros Hin Hm H0 dx dy Hd Hin'. apply (zero_cell_neighbors (grid g) x y); try done.
    by rewrite <- (Hnum x y Hin Hm).
Qed.

(** C3: the score of a playout is
    safeRevealed + 5 correctFlags - 50 minesRevealed - 0.1 actionsTaken,
    plus 2000 when the game is won, in [double] arithmetic and in this
    order, where [actionsTaken] is the counter of the playout loop; the
    value [evaluateIndividual] returns is the mean of the scores of the
    playouts of the sampled scenarios; and when every playout is won with
    no mine revealed and [N] actions, every score is
    safeRevealed + 5 correctFlags - 0.1 N + 2000. *)
Theorem fitness_is_mean_score fuel ind games wins n k :
  (∀ g actionsTaken, gameScore g actionsTaken = scoreFormula g actionsTaken) ∧
  evaluateIndividual rnd std_sort fuel ind games wins n k
  = ('(results, k') ← playAll rnd std_sort fuel ind games k;
     Some (ind, mean (scoreOf <$> results),
           wins + winsOf results, n + Z.of_nat (length results), k')) ∧
  (∀ results k' N,
     playAll rnd std_sort fuel ind games k = Some (results, k') →
     Forall (λ r, youWin r.1 = true ∧ minesRevealed r.1 = 0 ∧ r.2 = N) results →
     evaluateIndividual rnd std_sort fuel ind games wins n k
     = Some (ind,
             mean ((λ r, (double_of_int (safeRevealed r.1)
                          + double_of_int (correctFlags r.1) * 5
                          - double_of_int N * 0x1.999999999999ap-4 + 2000)%float)
                   <$> results),
             wins + winsOf results, n + Z.of_nat (length results), k')).
Proof.
  split_and!; [apply gameScore_formula|apply evaluateIndividual_mean|].
  intros results k' N Hp Hall. rewrite evaluateIndividual_mean, Hp.
  cbn [mbind option_bind].
  do 5 f_equal. f_equal. apply list_fmap_ext. intros i [g a] Hr%list_elem_of_lookup_2.
  pose proof (proj1 (Forall_forall _ _) Hall (g, a) Hr) as (Hw & Hm & Ha).
  cbn [fst snd] in *. subst a. unfold scoreOf. cbn [fst snd].
  by apply scoreFormula_won.
Qed.

(** C5 (what the code does): with an empty sample [evaluateIndividual]
    returns, without any error, the quotient of 0.0 by 0, a NaN; and
    [selectFixedGames] hands an empty sample over when the bank is
    empty. *)
Theorem empty_sample_gives_nan (std_sample : list FixedGame → Z → list FixedGame)
    fuel ind wins n k numGames :
  selectFixedGames std_sample [] numGames = [] ∧
  ∃ fit,
    evaluateIndividual rnd std_sort fuel ind
                       (selectFixedGames std_sample [] numGames) wins n k
    = Some (ind, fit, wins, n, k) ∧
    PrimFloat.is_nan fit = true.
Proof.
  split; [done|]. exists (0 / double_of_int 0)%float. split; [done|].
  vm_compute. reflexivity.
Qed.

(** C10: [applyRules] hands the individual back as it received it, and so
    does [evaluateIndividual]: neither the genome nor the stored fitness
    changes. *)
Theorem evaluation_leaves_individual fuel ind :
  (∀ g ind' g' changed,
     applyRules std_sort ind g = Some (ind', g', changed) →
     ind' = ind ∧ rules ind' = rules ind) ∧
  (∀ games wins n k ind' fit wins' n' k',
     evaluateIndividual rnd std_sort fuel ind games wins n k
     = Some (ind', fit, wins', n', k') →
     ind' = ind ∧ rules ind' = rules ind ∧ fitness ind' = fitness ind).
Proof.
  split.
  - intros g ind' g' changed Ha. by apply applyRules_frame in Ha as ->.
  - intros games wins n k ind' fit wins' n' k' He.
    rewrite evaluateIndividual_mean in He.
    destruct (playAll rnd std_sort fuel ind games k) as [[rs k'']|]; [|done].
    by injection He as <- _ _ _ _.
Qed.

End Claims.




(** C6: a population of [POPULATION_SIZE] individuals with [NUM_RULES]
    rules each, saved to a file that can be written and loaded again, comes
    back whole: [loadPopulation] returns true and the vector it fills is the
    population that was saved, rule by rule and fitness by fitness. *)
Theorem checkpoint_roundtrip population population0 filename fs :
  writable fs filename = true → population_ok population = true →
  loadPopulation population0 filename (savePopulation population filename fs)
  = (true, population).
Proof. apply load_save_roundtrip. Qed.

Lemma checkpoint_roundtrip_witness :
  loadPopulation [] "populacao_regras.dat"
                 (savePopulation samplePopulation "populacao_regras.dat" emptyDisk)
  = (true, samplePopulation).
Proof.
  apply (checkpoint_roundtrip samplePopulation [] "populacao_regras.dat" emptyDisk).
  - reflexivity.
  - vm_compute. reflexivity.
Defined.

(** C7 (what the code does): on a checkpoint that records the configured
    population size and, for its first individual, 149 rules,
    [loadPopulation] returns false and leaves 300 empty individuals in the
    vector; [main] then pushes 300 random individuals behind them, so
    training starts with 600 individuals, the first 300 without a rule.  On
    a checkpoint that records another population size the vector is left
    empty and the fallback has the configured size. *)
Theorem mismatched_rule_count_doubles_population rnd k :
  loadPopulation [] "populacao_regras.dat" mismatchedRules
  = (false, replicate 300 Individual0) ∧
  length (startPopulation rnd mismatchedRules k).1 = 600%nat ∧
  take 300 (startPopulation rnd mismatchedRules k).1 = replicate 300 Individual0 ∧
  loadPopulation [] "populacao_regras.dat" mismatchedSize = (false, []) ∧
  length (startPopulation rnd mismatchedSize k).1 = 300%nat.
Proof.
  destruct (start_mismatched rnd k) as (H1 & H2 & H3).
  split_and!; [apply load_mismatchedRules|done|done|apply load_mismatchedSize|done].
Qed.

(** C8: when [crossover] returns, on parents of [NUM_RULES] rules, there is
    a strictly increasing list of between 1 and [NUM_RULES - 1] cut points in
    [1, NUM_RULES - 1] such that both offspring have [NUM_RULES] rules and,
    at every position, the first offspring holds the gene of the first
    parent when the number of cut points at or before the position is even
    and of the second parent when it is odd, and the second offspring holds
    the gene of the other parent. *)
Theorem crossover_genes_from_parents rnd fuel p1 p2 o1 o2 k o1' o2' k' :
  crossover rnd fuel p1 p2 o1 o2 k = Some (o1', o2', k') →
  Z.of_nat (length (rules p1)) = NUM_RULES →
  Z.of_nat (length (rules p2)) = NUM_RULES →
  ∃ points : list Z,
    1 ≤ Z.of_nat (length points) ≤ NUM_RULES - 1 ∧
    StronglySorted Z.lt points ∧
    Forall (λ p, 1 ≤ p ≤ NUM_RULES - 1) points ∧
    Z.of_nat (length (rules o1')) = NUM_RULES ∧
    Z.of_nat (length (rules o2')) = NUM_RULES ∧
    ∀ i : nat, Z.of_nat i < NUM_RULES →
      rules o1' !! i
      = rules (parentOf (Nat.odd (cutsUpTo points (Z.of_nat i))) p1 p2) !! i ∧
      rules o2' !! i
      = rules (parentOf (negb (Nat.odd (cutsUpTo points (Z.of_nat i)))) p1 p2) !! i.
Proof. apply crossover_spec. Qed.

Lemma crossover_genes_from_parents_witness :
  ∃ o1' o2' k' points,
    crossover (λ n, (7 * n + 3)%nat) 100 parentA parentB Individual0 Individual0 0
    = Some (o1', o2', k') ∧
    1 ≤ Z.of_nat (length points) ≤ NUM_RULES - 1 ∧
    ∀ i : nat, Z.of_nat i < NUM_RULES →
      rules o1' !! i
      = rules (parentOf (Nat.odd (cutsUpTo points (Z.of_nat i))) parentA parentB) !! i.
Proof.
  destruct (crossover (λ n, (7 * n + 3)%nat) 100 parentA parentB Individual0 Individual0 0)
    as [[[o1' o2'] k']|] eqn:Hc; [|vm_compute in Hc; discriminate].
  destruct (crossover_genes_from_parents _ _ _ _ _ _ _ _ _ _ Hc)
    as (points & Hn & _ & _ & _ & _ & Hgenes); [reflexivity..|].
  exists o1', o2', k', points. split_and!; [done|apply Hn..|].
  intros i Hi. apply Hgenes. done.
Defined.




Lemma revealCell_loses_only_on_a_mine_witness :
  ∃ g', revealCell STACK 6 3 (freshBoard (mineGrid tiedScenario)) = Some g' ∧
        lost_only_on_mine 6 3 (freshBoard (mineGrid tiedScenario)) g'.
Proof.
  refine (proj1 (revealCell_loses_only_on_a_mine
                   (freshBoard (mineGrid tiedScenario)) 6 3 _)).
  vm_compute. reflexivity.
Defined.

Lemma evaluation_leaves_individual_witness :
  ∃ fit wins n k,
    evaluateIndividual (λ n, n) sortKeepingTies 100 tiedIndividual [tiedScenario] 0 0 0
    = Some (tiedIndividual, fit, wins, n, k).
Proof.
  destruct (evaluateIndividual (λ n, n) sortKeepingTies 100 tiedIndividual
              [tiedScenario] 0 0 0) as [[[[[i fit] wins] n] k]|] eqn:He;
    [|vm_compute in He; discriminate].
  destruct (proj2 (evaluation_leaves_individual (λ n, n) sortKeepingTies 100
                     tiedIndividual) _ _ _ _ _ _ _ _ _ He) as [-> _].
  exists fit, wins, n, k. reflexivity.
Defined.

(** * Further proofs *)

(** ** How a playout can end *)




Lemma settled_minesRevealed g : settled g → minesRevealed g = 0.
Proof.
  intros [Hl _]. unfold minesRevealed. apply countCells_none. intros x y Hin.
  destruct (isRevealed (cellAt (grid g) x y)) eqn:Hr; [|by rewrite andb_false_r].
  by rewrite (live_sound g Hl x y Hin Hr).
Qed.

Lemma minesRevealed_mark_mine g x y :
  wf_grid (grid g) → inBounds x y = true → isMine (cellAt (grid g) x y) = true →
  isHidden (cellAt (grid g) x y) = true →
  minesRevealed (set_gameOver true (mark x y g)) = minesRevealed g + 1.
Proof.
  intros Hwf Hin Hm Hh. unfold minesRevealed.
  change (grid (set_gameOver true (mark x y g)))
    with (updCell x y (set_state REVEALED) (grid g)).
  pose proof (countCells_updCell (λ c, isMine c && isRevealed c) (grid g) x y
                (set_state REVEALED) Hwf Hin) as H.
  cbv beta in H. rewrite (hidden_not_revealed _ Hh), andb_false_r in H.
  change (isMine (set_state REVEALED (cellAt (grid g) x y)))
    with (isMine (cellAt (grid g) x y)) in H.
  rewrite Hm in H. change (isRevealed (set_state REVEALED _)) with true in H.
  change (b2z false) with 0 in H. change (b2z (true && true)) with 1 in H. lia.
Qed.

Lemma lostBoard_mark g x y :
  settled g → terminal g = false → inBounds x y = true →
  isHidden (cellAt (grid g) x y) = true → isMine (cellAt (grid g) x y) = true →
  lostBoard (set_gameOver true (mark x y g)).
Proof.
  intros Hs Ht Hin Hh Hm. pose proof Hs as [Hl Hw]. pose proof (live_wf g Hl) as Hwf.
  pose proof (same_layout_set_state (grid g) x y REVEALED Hwf Hin) as Hlay.
  split.
  - change (wf_grid (updCell x y (set_state REVEALED) (grid g))). by apply wf_updCell.
  - change (numbers_ok (updCell x y (set_state REVEALED) (grid g))).
    eapply numbers_ok_layout; [exact Hlay|]. apply Hl.
  - change (countCells isMine (updCell x y (set_state REVEALED) (grid g)) = NUM_MINES).
    rewrite (countCells_layout _ _ Hlay). apply Hl.
  - rewrite (minesRevealed_mark_mine g x y Hwf Hin Hm Hh).
    rewrite (settled_minesRevealed g Hs). reflexivity.
  - rewrite (safeRevealed_mark_mine g x y Hwf Hin Hm Hh).
    rewrite (settled_safeRevealed g Hs).
    pose proof (live_revealed_le g Hl) as Hle.
    destruct (decide (countCells isRevealed (grid g) = SAFE_CELLS)) as [He|Hne]; [|lia].
    apply Hw in He. unfold terminal in Ht. rewrite He, orb_true_r in Ht. discriminate.
  - intros x' y' Hin'.
    change (grid (set_gameOver true (mark x y g)))
      with (updCell x y (set_state REVEALED) (grid g)).
    rewrite cellAt_updCell by assumption.
    case_decide as Heq; [intros Hf; discriminate Hf|]. by apply live_flags.
  - reflexivity.
  - change (youWin g = false). unfold terminal in Ht.
    destruct (gameOver g), (youWin g); first [reflexivity|discriminate].
Qed.

Lemma reveal_inPlay g x y g' :
  settled g → terminal g = false → revealCell STACK x y g = Some g' → inPlay g'.
Proof.
  intros Hs Ht Hr.
  destruct (reveal_settled_cases g x y Hs) as (g1 & Hr1 & Hcase).
  rewrite Hr1 in Hr. injection Hr as ->.
  destruct Hcase as [Hs1|(Heq & Hin & Hh & Hm)]; [by left|right].
  rewrite Heq. by apply lostBoard_mark.
Qed.





Section OutcomeFacts.

Variable rnd : nat → nat.
Variable std_sort : (Rule → Rule → bool) → list Rule → list Rule.






End OutcomeFacts.

(** ** What a reveal does to a board *)

Lemma gridOk_spec gr : gridOk gr = true ↔ wf_grid gr.
Proof.
  unfold gridOk, wf_grid. rewrite andb_true_iff, Z.eqb_eq, forallb_forall.
  rewrite Forall_forall. pose proof GRID_WIDTH_pos. pose proof GRID_HEIGHT_pos.
  split; intros [H1 H2]; (split; [lia|]).
  - intros row Hr%list_elem_of_In. apply H2, Z.eqb_eq in Hr. lia.
  - intros row Hr%list_elem_of_In. apply Z.eqb_eq. rewrite (H2 row Hr). lia.
Qed.

Lemma onlyReveals_refl g : onlyReveals g g.
Proof. intros x y _. by left. Qed.

Lemma onlyReveals_trans g1 g2 g3 :
  onlyReveals g1 g2 → onlyReveals g2 g3 → onlyReveals g1 g3.
Proof.
  intros H12 H23 x y Hin.
  destruct (H12 x y Hin) as [E12|[Hh E12]], (H23 x y Hin) as [E23|[Hh' E23]].
  - left. congruence.
  - right. rewrite E12 in Hh', E23. done.
  - right. split; [done|congruence].
  - rewrite E12 in Hh'. discriminate Hh'.
Qed.

Lemma onlyReveals_mark g x y :
  wf_grid (grid g) → inBounds x y = true → isHidden (cellAt (grid g) x y) = true →
  onlyReveals g (mark x y g).
Proof.
  intros Hwf Hin Hh x' y' Hin'. rewrite grid_mark, cellAt_updCell by done.
  case_decide as Heq; [injection Heq as <- <-; by right|by left].
Qed.

Lemma onlyReveals_grid g g1 g2 :
  grid g2 = grid g1 → onlyReveals g g1 → onlyReveals g g2.
Proof. intros E H x y Hin. rewrite E. by apply H. Qed.

Lemma onlyReveals_hidden g g' x y :
  onlyReveals g g' → inBounds x y = true →
  isHidden (cellAt (grid g') x y) = true → isHidden (cellAt (grid g) x y) = true.
Proof.
  intros H Hin Hh. destruct (H x y Hin) as [E|[_ E]]; rewrite E in Hh; [done|].
  discriminate Hh.
Qed.

Lemma onlyReveals_nonhidden g g' x y :
  onlyReveals g g' → inBounds x y = true →
  isHidden (cellAt (grid g) x y) = false → cellAt (grid g') x y = cellAt (grid g) x y.
Proof.
  intros H Hin Hh. destruct (H x y Hin) as [E|[Hh' _]]; [done|congruence].
Qed.

Lemma onlyReveals_layout g g' : onlyReveals g g' → same_layout (grid g) (grid g').
Proof. intros H x y Hin. destruct (H x y Hin) as [->|[_ ->]]; done. Qed.

Lemma onlyReveals_hiddenCount g g' :
  onlyReveals g g' → hiddenCount g' ≤ hiddenCount g.
Proof.
  intros H. unfold hiddenCount. rewrite !countCells_filter.
  apply inj_le, count_filter_le. intros [x y] Hc%elem_of_allCells Hh.
  by apply (onlyReveals_hidden g g').
Qed.

Lemma flood_onlyReveals g g' : flood g g' → wf_grid (grid g) → onlyReveals g g'.
Proof.
  induction 1 as [g|g1 g2 g3 Hs Hf IH]; intros Hwf; [apply onlyReveals_refl|].
  eapply onlyReveals_trans; [|apply IH; by eapply flood_step_wf].
  destruct Hs as [g x y Hin Hh Hm|g].
  - by apply onlyReveals_mark.
  - apply (onlyReveals_grid g g); [apply grid_checkWinCondition|apply onlyReveals_refl].
Qed.

(** A loop whose body may fail: an invariant, a relation between the states
    and, for every element, what its turn leaves behind. *)
Lemma foldM_total {A St} (R : St → St → Prop) (Inv : St → Prop) (Q : A → St → Prop)
    (f : A → St → option St) (l : list A) :
  (∀ s, R s s) → (∀ s1 s2 s3, R s1 s2 → R s2 s3 → R s1 s3) →
  (∀ a s s', Q a s → R s s' → Q a s') →
  (∀ a s, a ∈ l → Inv s → ∃ s', f a s = Some s' ∧ R s s' ∧ Inv s' ∧ Q a s') →
  ∀ s, Inv s →
       ∃ s', foldM f l s = Some s' ∧ R s s' ∧ Inv s' ∧ ∀ a, a ∈ l → Q a s'.
Proof.
  intros Hrefl Htrans Hstable. induction l as [|a l IH]; intros Hbody s Hs.
  - exists s. split_and!; [done|apply Hrefl|done|]. intros a Ha. by apply elem_of_nil in Ha.
  - cbn [foldM]. destruct (Hbody a s) as (s1 & -> & HR1 & Hs1 & HQ1);
      [apply list_elem_of_here|done|].
    cbn [mbind option_bind].
    destruct (IH (λ a' s' Ha', Hbody a' s' (list_elem_of_further _ _ _ Ha')) s1 Hs1)
      as (s2 & -> & HR2 & Hs2 & HQ2).
    exists s2. split_and!; [done|by eapply Htrans|done|].
    intros b [->|Hb]%elem_of_cons; [by eapply Hstable|by apply HQ2].
Qed.

Lemma closedExcept_weaken pending pending' gr :
  (∀ c, c ∈ pending → c ∈ pending') →
  closedExcept pending gr → closedExcept pending' gr.
Proof. intros Hsub H x y Hin Hn. apply H; [done|]. intros Hc. by apply Hn, Hsub. Qed.

(** Revealing cells keeps every cell closed that was closed, the revealed
    cells themselves apart. *)
Lemma closedAt_onlyReveals g g' x y :
  onlyReveals g g' → inBounds x y = true →
  isHidden (cellAt (grid g) x y) = false →
  closedAt (grid g) x y → closedAt (grid g') x y.
Proof.
  intros H Hin Hh Hc. unfold closedAt.
  rewrite (onlyReveals_nonhidden g g' x y H Hin Hh).
  intros Hr Hm Hz dx dy Hd Hin'.
  destruct (isHidden (cellAt (grid g') (x + dx) (y + dy))) eqn:Hh'; [|done].
  apply (onlyReveals_hidden g g') in Hh'; [|done..].
  by rewrite (Hc Hr Hm Hz dx dy Hd Hin') in Hh'.
Qed.

Lemma closedAt_hidden gr x y : isRevealed (cellAt gr x y) = false → closedAt gr x y.
Proof. intros Hr Hr'. congruence. Qed.

Lemma closedExcept_onlyReveals pending g g' :
  onlyReveals g g' → closedExcept pending (grid g) →
  (∀ x y, inBounds x y = true → (x, y) ∉ pending →
          isHidden (cellAt (grid g) x y) = true → closedAt (grid g') x y) →
  closedExcept pending (grid g').
Proof.
  intros H Hc Hnew x y Hin Hn.
  destruct (isHidden (cellAt (grid g) x y)) eqn:Hh; [by apply Hnew|].
  apply (closedAt_onlyReveals g g'); [done..|]. by apply Hc.
Qed.

Lemma closedExcept_mark pending g x y :
  wf_grid (grid g) → inBounds x y = true → isHidden (cellAt (grid g) x y) = true →
  closedExcept pending (grid g) →
  closedExcept ((x, y) :: pending) (grid (mark x y g)).
Proof.
  intros Hwf Hin Hh Hc.
  apply (closedExcept_onlyReveals _ g); [by apply onlyReveals_mark| |].
  - eapply closedExcept_weaken; [|done]. intros c Hcp. by apply list_elem_of_further.
  - intros x' y' Hin' Hn Hh'. apply closedAt_hidden.
    rewrite grid_mark, cellAt_updCell_ne; [by apply hidden_not_revealed|done..|].
    intros Heq. apply Hn. rewrite Heq. apply list_elem_of_here.
Qed.

Lemma closedExcept_drop pending gr x y :
  closedExcept ((x, y) :: pending) gr → closedAt gr x y → closedExcept pending gr.
Proof.
  intros Hc Hxy x' y' Hin Hn.
  destruct (decide ((x', y') = (x, y))) as [[= -> ->]|Hne]; [done|].
  apply Hc; [done|]. by intros [?|?]%elem_of_cons.
Qed.

Lemma wf_mark g x y : wf_grid (grid g) → wf_grid (grid (mark x y g)).
Proof. intros Hwf. rewrite grid_mark. by apply wf_updCell. Qed.

Lemma cellAt_mark g x y :
  wf_grid (grid g) → inBounds x y = true →
  cellAt (grid (mark x y g)) x y = set_state REVEALED (cellAt (grid g) x y).
Proof. intros Hwf Hin. rewrite grid_mark. by apply cellAt_updCell_eq. Qed.

(** The step shared by the two versions of [revealCell]. *)
Lemma reveal_body_closed (callee : Z → Z → Game → option Game)
    (skip : Z → Z → bool) (depth : nat) (x y : Z) (g : Game) (pending : list (Z * Z)) :
  (∀ dx dy, skip dx dy = true → dx = 0 ∧ dy = 0) →
  (∀ g0 x0 y0 pending0,
     fillState depth pending0 g0 →
     ∃ g', callee x0 y0 g0 = Some g' ∧ fillPost pending0 x0 y0 g0 g') →
  fillState (S depth) pending g →
  ∃ g',
    (if negb (inBounds x y) || negb (isHidden (cellAt (grid g) x y)) then Some g
     else
       let g1 := mark x y g in
       if isMine (cellAt (grid g1) x y) then Some (set_gameOver true g1)
       else
         g2 ← (if neighboringMines (cellAt (grid g1) x y) =? 0
               then foldM (λ '(dx, dy) g',
                             if skip dx dy then Some g'
                             else callee (x + dx) (y + dy) g')
                          (offsets 1) g1
               else Some g1);
         Some (checkWinCondition g2)) = Some g'
    ∧ fillPost pending x y g g'.
Proof.
  intros Hskip IH (Hwf & Hh & Hc). unfold fillPost.
  destruct (inBounds x y) eqn:Hin; cbn [negb orb];
    [|exists g; split_and!; [done|apply onlyReveals_refl|done|done|done]].
  destruct (isHidden (cellAt (grid g) x y)) eqn:Hhid; cbn [negb orb];
    [|exists g; split_and!; [done|apply onlyReveals_refl|done|done|done]].
  cbv zeta. rewrite cellAt_mark by done.
  change (isMine (set_state REVEALED (cellAt (grid g) x y)))
    with (isMine (cellAt (grid g) x y)).
  change (neighboringMines (set_state REVEALED (cellAt (grid g) x y)))
    with (neighboringMines (cellAt (grid g) x y)).
  pose proof (onlyReveals_mark g x y Hwf Hin Hhid) as Hm1.
  pose proof (wf_mark g x y Hwf) as Hwf1.
  pose proof (closedExcept_mark pending g x y Hwf Hin Hhid Hc) as Hc1.
  assert (isHidden (cellAt (grid (mark x y g)) x y) = false) as Hnh1.
  { by rewrite cellAt_mark. }
  destruct (isMine (cellAt (grid g) x y)) eqn:Hmine.
  { exists (set_gameOver true (mark x y g)). split_and!; try done.
    apply (closedExcept_drop _ _ x y); [done|].
    intros _ Hm. change (grid (set_gameOver true (mark x y g))) with (grid (mark x y g)) in Hm.
    rewrite cellAt_mark in Hm by done. cbn in Hm. congruence. }
  assert (∃ g2, (if neighboringMines (cellAt (grid g) x y) =? 0
               then foldM (λ '(dx, dy) g',
                             if skip dx dy then Some g'
                             else callee (x + dx) (y + dy) g')
                          (offsets 1) (mark x y g)
               else Some (mark x y g)) = Some g2
              ∧ onlyReveals (mark x y g) g2 ∧ wf_grid (grid g2)
              ∧ closedExcept pending (grid g2)) as (g2 & -> & Hr2 & Hwf2 & Hc2).
  { destruct (neighboringMines (cellAt (grid g) x y) =? 0) eqn:Hz.
    - destruct (foldM_total onlyReveals
                  (λ s, fillState depth ((x, y) :: pending) s
                        ∧ isHidden (cellAt (grid s) x y) = false)
                  (λ d s, inBounds (x + d.1) (y + d.2) = true →
                          isHidden (cellAt (grid s) (x + d.1) (y + d.2)) = false)
                  (λ '(dx, dy) g',
                     if skip dx dy then Some g' else callee (x + dx) (y + dy) g')
                  (offsets 1))
        with (s := mark x y g) as (g2 & Hf & Hr2 & [(Hwf2 & _ & Hc2) Hnh2] & HQ).
      + apply onlyReveals_refl.
      + apply onlyReveals_trans.
      + intros d s s' HQ HR Hin'.
        destruct (isHidden (cellAt (grid s') (x + d.1) (y + d.2))) eqn:Hh'; [|done].
        apply (onlyReveals_hidden s s') in Hh'; [|done..]. by rewrite HQ in Hh'.
      + intros [dx dy] s Hd [(Hwfs & Hhs & Hcs) Hnhs].
        destruct (skip dx dy) eqn:Hsk.
        * exists s. destruct (Hskip dx dy Hsk) as [-> ->]. unfold fillState.
          split_and!; [done|apply onlyReveals_refl|done..|].
          cbn [fst snd]. by rewrite !Z.add_0_r.
        * destruct (IH s (x + dx) (y + dy) ((x, y) :: pending)) as (s' & Hcall & Hp);
            [done|].
          destruct Hp as (HR & Hwf' & Hc' & Hnh').
          exists s'. unfold fillState. split_and!; try done.
          -- pose proof (onlyReveals_hiddenCount s s' HR). lia.
          -- by rewrite (onlyReveals_nonhidden s s' x y HR Hin Hnhs).
      + unfold fillState. split_and!; [done| |done|done].
        rewrite hiddenCount_mark by done. lia.
      + exists g2. split_and!; try done.
        apply (closedExcept_drop _ _ x y); [done|].
        intros _ _ _ dx dy Hd Hin'. by apply (HQ (dx, dy)).
    - exists (mark x y g). split_and!; [done|apply onlyReveals_refl|done|].
      apply (closedExcept_drop _ _ x y); [done|].
      intros _ _ Hzero. rewrite cellAt_mark in Hzero by done. cbn in Hzero.
      apply Z.eqb_neq in Hz. done. }
  cbn [mbind option_bind]. exists (checkWinCondition g2).
  split_and!; rewrite ?grid_checkWinCondition; try done.
  - apply (onlyReveals_grid g g2); [apply grid_checkWinCondition|].
    by eapply onlyReveals_trans.
  - intros _. by rewrite (onlyReveals_nonhidden _ g2 x y Hr2 Hin Hnh1).
Qed.

Lemma revealCell_closed depth : ∀ g x y pending,
  fillState depth pending g →
  ∃ g', revealCell depth x y g = Some g' ∧ fillPost pending x y g g'.
Proof.
  induction depth as [|depth IH]; intros g x y pending Hs.
  - destruct Hs as (_ & Hh & _). pose proof (hiddenCount_nonneg g). lia.
  - rewrite revealCell_S.
    apply (reveal_body_closed (revealCell depth) (λ _ _, false) depth); done.
Qed.

Lemma revealCell_humano_closed depth : ∀ g x y pending,
  fillState depth pending g →
  ∃ g', revealCell_humano depth x y g = Some g' ∧ fillPost pending x y g g'.
Proof.
  induction depth as [|depth IH]; intros g x y pending Hs.
  - destruct Hs as (_ & Hh & _). pose proof (hiddenCount_nonneg g). lia.
  - rewrite revealCell_humano_S.
    apply (reveal_body_closed (revealCell_humano depth)
             (λ dx dy, (dx =? 0) && (dy =? 0)) depth); try done.
    intros dx dy [H1%Z.eqb_eq H2%Z.eqb_eq]%andb_true_iff. done.
Qed.

Lemma floodClosed_spec gr : floodClosed gr = true ↔ closedExcept [] gr.
Proof.
  unfold floodClosed, closedExcept. rewrite forallb_forall. split.
  - intros H x y Hin _ Hr Hm Hz dx dy Hd Hin'.
    specialize (H (x, y)). cbv beta iota in H.
    rewrite Hr, Hm, Hz in H. cbn [negb orb] in H. rewrite Z.eqb_refl in H.
    cbn [negb orb] in H.
    assert (In (x, y) allCells) as Hc by by apply list_elem_of_In, elem_of_allCells.
    apply H in Hc. rewrite forallb_forall in Hc.
    specialize (Hc (dx, dy)). cbv beta iota in Hc. rewrite Hin' in Hc.
    cbn [negb orb] in Hc. apply negb_true_iff, Hc. by apply list_elem_of_In.
  - intros H [x y] Hc%list_elem_of_In%elem_of_allCells.
    destruct (isRevealed (cellAt gr x y)) eqn:Hr; [|done].
    destruct (isMine (cellAt gr x y)) eqn:Hm; [done|].
    destruct (neighboringMines (cellAt gr x y) =? 0) eqn:Hz; [|done].
    cbn [negb orb]. apply forallb_forall. intros [dx dy] Hd%list_elem_of_In.
    destruct (inBounds (x + dx) (y + dy)) eqn:Hin'; [|done]. cbn [negb orb].
    apply negb_true_iff. apply (H x y Hc); try done.
    + apply not_elem_of_nil.
    + by apply Z.eqb_eq.
Qed.

Lemma closedExcept_all gr : closedExcept allCells gr.
Proof. intros x y Hin Hn. destruct Hn. by apply elem_of_allCells. Qed.

Lemma fillState_any depth g :
  wf_grid (grid g) → hiddenCount g < Z.of_nat depth → fillState depth allCells g.
Proof. intros Hwf Hh. split_and!; [done..|apply closedExcept_all]. Qed.

(** The call of the agent's [revealCell] on the centre of the block finds
    the cell revealed and returns at once, so skipping it, as the human
    game does, changes nothing. *)
Lemma revealCell_humano_eq depth : ∀ g x y,
  wf_grid (grid g) → hiddenCount g < Z.of_nat depth →
  revealCell_humano depth x y g = revealCell depth x y g.
Proof.
  induction depth as [|depth IH]; intros g x y Hwf Hh; [done|].
  rewrite revealCell_humano_S, revealCell_S.
  destruct (inBounds x y) eqn:Hin; [|done].
  destruct (isHidden (cellAt (grid g) x y)) eqn:Hhid; [|done].
  cbn [negb orb]. cbv zeta.
  destruct (isMine (cellAt (grid (mark x y g)) x y)); [done|].
  destruct (neighboringMines (cellAt (grid (mark x y g)) x y) =? 0); [|done].
  assert (∀ (l : list (Z * Z)) s,
            wf_grid (grid s) → hiddenCount s < Z.of_nat depth →
            isHidden (cellAt (grid s) x y) = false →
            foldM (λ '(dx, dy) g',
                     if (dx =? 0) && (dy =? 0) then Some g'
                     else revealCell_humano depth (x + dx) (y + dy) g') l s
            = foldM (λ '(dx, dy) g', revealCell depth (x + dx) (y + dy) g') l s)
    as Hloop.
  { induction l as [|[dx dy] l IHl]; intros s Hwfs Hhs Hnh; [done|]. cbn [foldM].
    assert ((if (dx =? 0) && (dy =? 0) then Some s
             else revealCell_humano depth (x + dx) (y + dy) s)
            = revealCell depth (x + dx) (y + dy) s) as ->.
    { destruct ((dx =? 0) && (dy =? 0)) eqn:Hz; [|by apply IH].
      apply andb_true_iff in Hz as [->%Z.eqb_eq ->%Z.eqb_eq]. rewrite !Z.add_0_r.
      destruct depth as [|depth']; [pose proof (hiddenCount_nonneg s); lia|].
      symmetry. apply revealCell_noop. by rewrite Hnh, andb_false_r. }
    destruct (revealCell_closed depth s (x + dx) (y + dy) allCells)
      as (s' & -> & HR & Hwf' & _ & _); [by apply fillState_any|].
    cbn [mbind option_bind]. apply IHl; [done| |].
    - pose proof (onlyReveals_hiddenCount s s' HR). lia.
    - by rewrite (onlyReveals_nonhidden s s' x y HR Hin Hnh). }
  rewrite Hloop; [done|by apply wf_mark| |].
  - rewrite hiddenCount_mark by done. lia.
  - by rewrite cellAt_mark.
Qed.

Lemma revealCell_gameOver depth : ∀ x y g g',
  revealCell depth x y g = Some g' → gameOver g = true → gameOver g' = true.
Proof.
  induction depth as [|depth IH]; intros x y g g' Hr Hw; [done|].
  rewrite revealCell_S in Hr.
  destruct (negb (inBounds x y) || negb (isHidden (cellAt (grid g) x y)));
    [by injection Hr as <-|].
  cbv zeta in Hr. destruct (isMine (cellAt (grid (mark x y g)) x y));
    [by injection Hr as <-|].
  destruct (neighboringMines (cellAt (grid (mark x y g)) x y) =? 0).
  - destruct (foldM _ (offsets 1) (mark x y g)) as [g2|] eqn:Hf; [|done].
    cbn [mbind option_bind] in Hr. injection Hr as <-.
    rewrite gameOver_checkWinCondition.
    apply (foldM_preserves (λ g, gameOver g = true) _ _) with (s := mark x y g) in Hf;
      [done| |done].
    intros [dx dy] s s' H Hs. eapply IH; [exact H|exact Hs].
  - cbn [mbind option_bind] in Hr. injection Hr as <-.
    by rewrite gameOver_checkWinCondition.
Qed.

(** Two grids of the right size that agree cell by cell are equal. *)
Lemma grid_ext gr gr' :
  wf_grid gr → wf_grid gr' →
  (∀ x y, inBounds x y = true → cellAt gr' x y = cellAt gr x y) → gr' = gr.
Proof.
  intros [Hlen Hrows] [Hlen' Hrows'] Hcells.
  apply list_eq_same_length with (Z.to_nat GRID_HEIGHT); [done..|].
  intros j row' row Hj Hr' Hr.
  pose proof (Forall_lookup_1 _ _ _ _ Hrows Hr) as Hl.
  pose proof (Forall_lookup_1 _ _ _ _ Hrows' Hr') as Hl'. cbv beta in Hl, Hl'.
  apply list_eq_same_length with (Z.to_nat GRID_WIDTH); [done..|].
  intros i c' c Hi Hc' Hc.
  specialize (Hcells (Z.of_nat i) (Z.of_nat j)).
  unfold cellAt in Hcells. rewrite !Nat2Z.id, Hr, Hr' in Hcells. cbn in Hcells.
  rewrite Hc, Hc' in Hcells. cbn in Hcells. apply Hcells, inBounds_spec. lia.
Qed.

Lemma boardOk_intro g : wf_grid (grid g) → numbers_ok (grid g) → boardOk g = true.
Proof.
  intros Hwf Hn. unfold boardOk.
  pose proof (proj2 (gridOk_spec (grid g)) Hwf) as Hg. unfold gridOk in Hg.
  rewrite Hg. cbn [andb]. apply forallb_forall.
  intros [x y] Hc%list_elem_of_In%elem_of_allCells.
  destruct (isMine (cellAt (grid g) x y)) eqn:Hm; [done|]. cbn [orb].
  apply Z.eqb_eq. by apply Hn.
Qed.



Lemma isInSafeZone_offsets sx sy x y :
  isInSafeZone sx sy x y = true ↔ ∃ dx dy, (dx, dy) ∈ offsets 1 ∧ x = sx + dx ∧ y = sy + dy.
Proof.
  unfold isInSafeZone. rewrite !andb_true_iff, !Z.leb_le. split.
  - intros [[[? ?] ?] ?]. exists (x - sx), (y - sy).
    rewrite elem_of_offsets. lia.
  - intros (dx & dy & Hd%elem_of_offsets & -> & ->). lia.
Qed.

Lemma safeZoneFree_spec sx sy bm dx dy :
  safeZoneFree sx sy bm = true → (dx, dy) ∈ offsets 1 →
  inBounds (sx + dx) (sy + dy) = true → mineAt bm (sx + dx) (sy + dy) = false.
Proof.
  intros H Hd Hin. unfold safeZoneFree in H.
  pose proof (proj1 (forallb_forall _ _) H (sx + dx, sy + dy)) as Hc.
  cbv beta iota in Hc.
  assert (isInSafeZone sx sy (sx + dx) (sy + dy) = true) as Hz.
  { apply isInSafeZone_offsets. by exists dx, dy. }
  rewrite Hz, andb_true_r in Hc. apply negb_true_iff, Hc.
  by apply list_elem_of_In, elem_of_allCells.
Qed.

Lemma freshBoard_hidden bm x y :
  inBounds x y = true → isHidden (cellAt (grid (freshBoard bm)) x y) = true.
Proof. intros Hin. by rewrite freshBoard_cell. Qed.

Lemma freshBoard_numbers bm : numbers_ok (grid (freshBoard bm)).
Proof.
  intros x y Hin Hm. rewrite freshBoard_cell in Hm |- * by done.
  cbn [isMine neighboringMines] in *. by rewrite Hm.
Qed.

Lemma freshBoard_closed bm : closedExcept [] (grid (freshBoard bm)).
Proof.
  intros x y Hin _. apply closedAt_hidden, hidden_not_revealed.
  by apply freshBoard_hidden.
Qed.

Lemma countMineNeighbors_zero gr x y :
  (∀ dx dy, (dx, dy) ∈ offsets 1 → inBounds (x + dx) (y + dy) = true →
            isMine (cellAt gr (x + dx) (y + dy)) = false) →
  countMineNeighbors gr x y = 0.
Proof.
  intros H. rewrite countMineNeighbors_filter.
  assert (∀ l : list (Z * Z), length (filter (λ _, False) l) = 0%nat) as Hnil.
  { induction l as [|d l IH]; [done|].
    rewrite filter_cons. case_decide as Hf; [destruct Hf|exact IH]. }
  rewrite (filter_ext_elem _ (λ _, False)).
  - by rewrite Hnil.
  - intros [dx dy] Hd. cbn [fst snd].
    destruct (inBounds (x + dx) (y + dy)) eqn:Hin; [|done].
    by rewrite (H dx dy Hd Hin).
Qed.

(** Revealed or flagged cells only come from hidden ones. *)
Lemma onlyReveals_revealed g g' x y :
  onlyReveals g g' → inBounds x y = true →
  isHidden (cellAt (grid g) x y) = true →
  isHidden (cellAt (grid g') x y) = false →
  isRevealed (cellAt (grid g') x y) = true.
Proof.
  intros H Hin Hh Hnh. destruct (H x y Hin) as [E|[_ E]]; rewrite E in *; [congruence|done].
Qed.

Lemma onlyReveals_flagged g g' x y :
  onlyReveals g g' → inBounds x y = true →
  isFlagged (cellAt (grid g') x y) = isFlagged (cellAt (grid g) x y).
Proof.
  intros H Hin. destruct (H x y Hin) as [->|[Hh ->]]; [done|].
  by rewrite (hidden_not_flagged _ Hh).
Qed.

Lemma onlyReveals_keeps_revealed g g' x y :
  onlyReveals g g' → inBounds x y = true →
  isRevealed (cellAt (grid g) x y) = true → isRevealed (cellAt (grid g') x y) = true.
Proof.
  intros H Hin Hr. destruct (H x y Hin) as [->|[Hh _]]; [done|].
  by rewrite (hidden_not_revealed _ Hh) in Hr.
Qed.

(** ** Genomes stay in range *)

Lemma ruleInRange_ok r : ruleInRange r = true → rule_ok r = true.
Proof.
  unfold ruleInRange, rule_ok, int_range. rewrite !andb_true_iff, !Z.leb_le, !Z.ltb_lt.
  lia.
Qed.

Lemma genomeOk_ind_ok ind : genomeOk ind = true → ind_ok ind = true.
Proof.
  unfold genomeOk, ind_ok. rewrite !andb_true_iff, !forallb_forall.
  intros [? H]. split; [done|]. intros r Hr. by apply ruleInRange_ok, H.
Qed.

Section GenomeFacts.

Variable rnd : nat → nat.
Variable rndReal : nat → float.

Lemma uniform_int_cursor a b k : (uniform_int rnd a b k).2 = S k.
Proof. reflexivity. Qed.

Lemma randomRule_spec k :
  ruleInRange (randomRule rnd k).1 = true ∧ (randomRule rnd k).2 = (k + 8)%nat.
Proof.
  unfold randomRule.
  repeat match goal with
         | |- context [uniform_int rnd ?a ?b ?k] =>
           let H := fresh "H" in
           pose proof (uniform_int_range rnd a b k ltac:(lia)) as H;
           let v := fresh "v" in let k' := fresh "k" in let E := fresh "E" in
           destruct (uniform_int rnd a b k) as [v k'] eqn:E;
           apply (f_equal snd) in E; rewrite uniform_int_cursor in E;
           cbn [fst snd] in H, E; subst k'
         end.
  cbn [fst snd]. split; [|lia]. unfold ruleInRange. cbn.
  rewrite !andb_true_iff, !Z.leb_le. lia.
Qed.

Lemma createRandomIndividual_loop (n : nat) : ∀ (done : list Rule) (todo : list Rule) k,
  length todo = n → forallb ruleInRange done = true →
  let '(rs, k') :=
    fold_left (λ '(rs, k) i, let '(r, k) := randomRule rnd k in (<[i := r]> rs, k))
              (seq (length done) n) (done ++ todo, k) in
  length rs = (length done + n)%nat ∧ forallb ruleInRange rs = true ∧
  k' = (k + 8 * n)%nat.
Proof.
  induction n as [|n IH]; intros done todo k Hlen Hok.
  - destruct todo; [|done]. cbn [seq fold_left]. rewrite app_nil_r.
    split_and!; [lia|done|lia].
  - destruct todo as [|t todo]; [done|]. cbn [seq fold_left].
    destruct (randomRule_spec k) as [Hr Hk].
    destruct (randomRule rnd k) as [r k1]. cbn [fst snd] in Hr, Hk. subst k1.
    assert (<[length done := r]> (done ++ t :: todo) = (done ++ [r]) ++ todo) as ->.
    { rewrite insert_app_r_alt, Nat.sub_diag by lia. cbn. by rewrite <- app_assoc. }
    specialize (IH (done ++ [r]) todo (k + 8)%nat).
    rewrite length_app in IH. cbn [length] in IH.
    replace (length done + 1)%nat with (S (length done)) in IH by lia.
    destruct (fold_left _ _ _) as [rs k'].
    destruct IH as (H1 & H2 & H3).
    + by injection Hlen.
    + rewrite forallb_app, Hok. cbn. by rewrite Hr.
    + split_and!; [lia|done|lia].
Qed.

Lemma createRandomIndividual_spec k :
  genomeOk (createRandomIndividual rnd k).1 = true ∧
  fitness (createRandomIndividual rnd k).1 = 0%float ∧
  (createRandomIndividual rnd k).2 = (k + 8 * Z.to_nat NUM_RULES)%nat.
Proof.
  unfold createRandomIndividual.
  pose proof (createRandomIndividual_loop (Z.to_nat NUM_RULES) []
                (resize (Z.to_nat NUM_RULES) Rule0 []) k) as H.
  cbn [length app] in H.
  destruct (fold_left _ _ _) as [rs k'].
  destruct H as (H1 & H2 & H3); [by rewrite length_resize|done|].
  cbn [fst snd]. split_and!; [|done|done].
  unfold genomeOk. cbn [rules]. rewrite H2, andb_true_r. apply Z.eqb_eq.
  rewrite H1. pose proof NUM_RULES_pos. lia.
Qed.

Lemma individualAt_elem (pop : list Individual) i :
  0 ≤ i < Z.of_nat (length pop) → individualAt pop i ∈ pop.
Proof.
  intros Hi. unfold individualAt.
  destruct (pop !! Z.to_nat i) as [ind|] eqn:E.
  - by apply list_elem_of_lookup_2 in E.
  - apply lookup_ge_None in E. lia.
Qed.

Lemma tournament_pick (pop : list Individual) k :
  pop ≠ [] →
  ∃ i, uniform_int rnd 0 (Z.of_nat (length pop) - 1) k = (i, S k) ∧
       individualAt pop i ∈ pop.
Proof.
  intros Hne. exists (uniform_int rnd 0 (Z.of_nat (length pop) - 1) k).1.
  split; [done|]. apply individualAt_elem.
  assert (0 < Z.of_nat (length pop)) by (destruct pop; [done|cbn; lia]).
  pose proof (uniform_int_range rnd 0 (Z.of_nat (length pop) - 1) k). lia.
Qed.

Lemma tournament_fold (pop : list Individual) (l : list Z) :
  pop ≠ [] → ∀ best k, best ∈ pop →
  let r := fold_left
             (λ '(best, k) _,
                let '(i, k) := uniform_int rnd 0 (Z.of_nat (length pop) - 1) k in
                let competitor := individualAt pop i in
                if (fitness best <? fitness competitor)%float then (competitor, k)
                else (best, k))
             l (best, k) in
  r.1 ∈ pop ∧ r.2 = (k + length l)%nat.
Proof.
  intros Hne. induction l as [|a l IH]; intros best k Hb; cbn [fold_left length].
  - cbv zeta. cbn [fst snd]. split; [done|lia].
  - destruct (tournament_pick pop k Hne) as (i & -> & Hi). cbv beta iota zeta.
    destruct (fitness best <? fitness (individualAt pop i))%float.
    + destruct (IH (individualAt pop i) (S k) Hi) as [H1 H2]. cbv zeta in H1, H2.
      split; [exact H1|]. rewrite H2. lia.
    + destruct (IH best (S k) Hb) as [H1 H2]. cbv zeta in H1, H2.
      split; [exact H1|]. rewrite H2. lia.
Qed.

Lemma tournamentSelection_spec (pop : list Individual) k :
  pop ≠ [] →
  (tournamentSelection rnd pop k).1 ∈ pop ∧
  (tournamentSelection rnd pop k).2 = (k + Z.to_nat TOURNAMENT_SIZE)%nat.
Proof.
  intros Hne. unfold tournamentSelection.
  destruct (tournament_pick pop k Hne) as (i & -> & Hi). cbv beta iota zeta.
  destruct (tournament_fold pop (seqZ 1 (TOURNAMENT_SIZE - 1)) Hne
              (individualAt pop i) (S k) Hi) as [H1 H2]. cbv zeta in H1, H2.
  split; [exact H1|]. rewrite H2. rewrite length_seqZ. unfold TOURNAMENT_SIZE. lia.
Qed.

(** *** Mutation *)

Lemma mutateField_keeps {A} (set : A → Rule → Rule) (draw : nat → A * nat)
    (P : Rule → Prop) (st : Rule * nat) :
  (∀ r k, P r → P (set (draw k).1 r)) → P st.1 → P (mutateField rndReal set draw st).1.
Proof.
  intros Hset Hst. destruct st as [r k]. unfold mutateField, uniform_real.
  destruct (rndReal k <? MUTATION_RATE)%float; [|done].
  specialize (Hset r (S k) Hst). by destruct (draw (S k)).
Qed.

Lemma mutateRule_inRange rule k :
  ruleInRange rule = true → ruleInRange (mutateRule rnd rndReal rule k).1 = true.
Proof.
  intros Hr. unfold mutateRule.
  repeat (apply (mutateField_keeps _ _ (λ r, ruleInRange r = true));
          [intros r k0;
           try (pose proof (uniform_int_range rnd 0 8 k0 ltac:(lia)));
           try (pose proof (uniform_int_range rnd 1 2 k0 ltac:(lia)));
           try (pose proof (uniform_int_range rnd 1 10 k0 ltac:(lia)));
           unfold ruleInRange; cbn [numberCondition hiddenCondition flaggedCondition
             extendedScope priority set_numberCondition set_hiddenCondition
             set_flaggedCondition set_nearEdge set_hasSpecificPattern set_extendedScope
             set_priority set_action];
           rewrite !andb_true_iff, !Z.leb_le; lia|]).
  exact Hr.
Qed.

Lemma mutate_fold (rs : list Rule) : ∀ (acc : list Rule) k,
  forallb ruleInRange rs = true → forallb ruleInRange acc = true →
  let r := fold_left (λ '(rs, k) rule,
                        let '(rule, k) := mutateRule rnd rndReal rule k in
                        (rs ++ [rule], k)) rs (acc, k) in
  length r.1 = (length acc + length rs)%nat ∧ forallb ruleInRange r.1 = true.
Proof.
  induction rs as [|rule rs IH]; intros acc k Hrs Hacc; cbn [fold_left length].
  - cbv zeta. cbn [fst]. split; [lia|done].
  - cbn [forallb] in Hrs. apply andb_true_iff in Hrs as [Hrule Hrs].
    pose proof (mutateRule_inRange rule k Hrule) as Hm.
    destruct (mutateRule rnd rndReal rule k) as [rule' k']. cbn [fst] in Hm.
    destruct (IH (acc ++ [rule']) k' Hrs) as [H1 H2].
    { rewrite forallb_app, Hacc. cbn. by rewrite Hm. }
    cbv zeta in H1, H2. rewrite length_app in H1. cbn [length] in H1.
    split; [lia|done].
Qed.

Lemma mutate_spec ind k :
  genomeOk ind = true →
  genomeOk (mutate rnd rndReal ind k).1 = true ∧
  fitness (mutate rnd rndReal ind k).1 = fitness ind.
Proof.
  unfold genomeOk. intros [Hlen%Z.eqb_eq Hok]%andb_true_iff. unfold mutate.
  destruct (mutate_fold (rules ind) [] k Hok eq_refl) as [H1 H2]. cbv zeta in H1, H2.
  destruct (fold_left _ _ _) as [rs k']. cbn [fst snd rules fitness] in *.
  split; [|done]. rewrite H2, andb_true_r. apply Z.eqb_eq. cbn [length] in H1. lia.
Qed.

Lemma mutateField_idle {A} (set : A → Rule → Rule) (draw : nat → A * nat) rule k :
  (∀ k, (rndReal k <? MUTATION_RATE)%float = false) →
  mutateField rndReal set draw (rule, k) = (rule, S k).
Proof. intros H. unfold mutateField, uniform_real. by rewrite H. Qed.

Lemma mutate_idle ind k :
  (∀ k, (rndReal k <? MUTATION_RATE)%float = false) →
  mutate rnd rndReal ind k = (ind, (k + 8 * length (rules ind))%nat).
Proof.
  intros H. unfold mutate.
  assert (∀ rs acc k,
            fold_left (λ '(rs, k) rule,
                         let '(rule, k) := mutateRule rnd rndReal rule k in
                         (rs ++ [rule], k)) rs (acc, k)
            = (acc ++ rs, (k + 8 * length rs)%nat)) as Hfold.
  { induction rs as [|rule rs IH]; intros acc k0; cbn [fold_left length].
    - rewrite app_nil_r. f_equal. lia.
    - unfold mutateRule. rewrite !mutateField_idle by done.
      rewrite IH, <- app_assoc. cbn [app]. f_equal. lia. }
  rewrite Hfold. cbn [app]. by destruct ind.
Qed.

End GenomeFacts.

Section GenerationFacts.

Variable rnd : nat → nat.
Variable rndReal : nat → float.

Lemma crossover_fitness fuel p1 p2 o1 o2 k o1' o2' k' :
  crossover rnd fuel p1 p2 o1 o2 k = Some (o1', o2', k') →
  fitness o1' = fitness o1 ∧ fitness o2' = fitness o2.
Proof.
  unfold crossover. destruct (uniform_int rnd 1 (NUM_RULES - 1) k) as [n k1].
  destruct (drawPoints rnd fuel n [] k1) as [[points k2]|]; [|done].
  cbn [mbind option_bind]. destruct (copyBlocks _ _ _ _) as [[o last] toggle].
  by intros [= <- <- _].
Qed.

Lemma genomeOk_length ind : genomeOk ind = true → Z.of_nat (length (rules ind)) = NUM_RULES.
Proof. unfold genomeOk. by intros [?%Z.eqb_eq _]%andb_true_iff. Qed.

Lemma genomeOk_rule ind r : genomeOk ind = true → r ∈ rules ind → ruleInRange r = true.
Proof.
  unfold genomeOk. intros [_ H]%andb_true_iff Hr.
  apply (proj1 (forallb_forall _ _) H). by apply list_elem_of_In.
Qed.

Lemma genomeOk_intro ind :
  Z.of_nat (length (rules ind)) = NUM_RULES →
  (∀ r, r ∈ rules ind → ruleInRange r = true) → genomeOk ind = true.
Proof.
  intros Hlen H. unfold genomeOk. apply andb_true_iff. split; [by apply Z.eqb_eq|].
  apply forallb_forall. intros r Hr%list_elem_of_In. by apply H.
Qed.

Lemma crossover_genomeOk fuel p1 p2 o1 o2 k o1' o2' k' :
  crossover rnd fuel p1 p2 o1 o2 k = Some (o1', o2', k') →
  genomeOk p1 = true → genomeOk p2 = true →
  genomeOk o1' = true ∧ genomeOk o2' = true.
Proof.
  intros Hc Hp1 Hp2.
  destruct (crossover_spec rnd fuel p1 p2 o1 o2 k o1' o2' k' Hc
              (genomeOk_length p1 Hp1) (genomeOk_length p2 Hp2))
    as (points & _ & _ & _ & Hl1 & Hl2 & Hgenes).
  assert (∀ b r i, rules (parentOf b p1 p2) !! i = Some r → ruleInRange r = true) as Hpar.
  { intros b r i Hr%list_elem_of_lookup_2.
    destruct b; cbn [parentOf] in Hr;
      [by apply (genomeOk_rule p2)|by apply (genomeOk_rule p1)]. }
  split; apply genomeOk_intro; try done.
  - intros r [i Hi]%list_elem_of_lookup_1.
    pose proof (lookup_lt_Some _ _ _ Hi) as Hlt.
    destruct (Hgenes i) as [H1 _]; [lia|]. rewrite Hi in H1. symmetry in H1. eauto.
  - intros r [i Hi]%list_elem_of_lookup_1.
    pose proof (lookup_lt_Some _ _ _ Hi) as Hlt.
    destruct (Hgenes i) as [_ H2]; [lia|]. rewrite Hi in H2. symmetry in H2. eauto.
Qed.

Lemma fillPopulation_spec fuel drawFuel (population : list Individual) :
  population ≠ [] → forallb genomeOk population = true →
  ∀ newPopulation k result k',
    fillPopulation rnd rndReal fuel drawFuel population newPopulation k
    = Some (result, k') →
    Z.of_nat (length newPopulation) ≤ POPULATION_SIZE →
    forallb genomeOk newPopulation = true →
    Z.of_nat (length result) = POPULATION_SIZE ∧
    forallb genomeOk result = true ∧
    take (length newPopulation) result = newPopulation.
Proof.
  intros Hne Hpop. induction fuel as [|fuel IH]; intros new k result k' Hf Hlen Hnew;
    cbn [fillPopulation] in Hf;
    destruct (Z.of_nat (length new) <? POPULATION_SIZE) eqn:Hlt;
    try done;
    try (injection Hf as <- <-; apply Z.ltb_ge in Hlt;
         split_and!; [lia|done|by rewrite firstn_all]).
  apply Z.ltb_lt in Hlt.
  destruct (tournamentSelection_spec rnd population k Hne) as [Hs1 _].
  destruct (tournamentSelection rnd population k) as [parent1 k1]. cbn [fst] in Hs1.
  destruct (tournamentSelection_spec rnd population k1 Hne) as [Hs2 _].
  destruct (tournamentSelection rnd population k1) as [parent2 k2]. cbn [fst] in Hs2.
  assert (∀ ind, ind ∈ population → genomeOk ind = true) as Hall.
  { intros ind Hi%list_elem_of_In. by apply (proj1 (forallb_forall _ _) Hpop). }
  pose proof (Hall _ Hs1) as Hp1. pose proof (Hall _ Hs2) as Hp2.
  unfold uniform_real in Hf.
  assert (∃ o1 o2 k3,
            (if (rndReal k2 <? CROSSOVER_RATE)%float
             then crossover rnd drawFuel parent1 parent2 Individual0 Individual0 (S k2)
             else Some (parent1, parent2, S k2)) = Some (o1, o2, k3)
            ∧ genomeOk o1 = true ∧ genomeOk o2 = true) as (o1 & o2 & k3 & Hx & Ho1 & Ho2).
  { destruct (rndReal k2 <? CROSSOVER_RATE)%float.
    - destruct (crossover rnd drawFuel parent1 parent2 Individual0 Individual0 (S k2))
        as [[[o1 o2] k3]|] eqn:Hc; [|done].
      destruct (crossover_genomeOk _ _ _ _ _ _ _ _ _ Hc Hp1 Hp2). by exists o1, o2, k3.
    - by exists parent1, parent2, (S k2). }
  rewrite Hx in Hf. cbn [mbind option_bind] in Hf.
  destruct (mutate_spec rnd rndReal o1 k3 Ho1) as [Hm1 _].
  destruct (mutate rnd rndReal o1 k3) as [m1 k4]. cbn [fst] in Hm1.
  destruct (mutate_spec rnd rndReal o2 k4 Ho2) as [Hm2 _].
  destruct (mutate rnd rndReal o2 k4) as [m2 k5]. cbn [fst] in Hm2.
  rewrite length_app in Hf. cbn [length] in Hf.
  destruct (Z.of_nat (length new + 1) <? POPULATION_SIZE) eqn:Hlt2.
  - apply Z.ltb_lt in Hlt2. apply IH in Hf as (H1 & H2 & H3).
    + split_and!; [done..|].
      apply (f_equal (take (length new))) in H3.
      rewrite take_take, <- !app_assoc, take_app_length in H3.
      rewrite !length_app in H3. cbn [length] in H3.
      by replace (length new `min` (length new + (1 + 1)))%nat with (length new) in H3
        by lia.
    + rewrite !length_app. cbn [length]. lia.
    + rewrite !forallb_app, Hnew. cbn. by rewrite Hm1, Hm2.
  - apply Z.ltb_ge in Hlt2. apply IH in Hf as (H1 & H2 & H3).
    + split_and!; [done..|].
      apply (f_equal (take (length new))) in H3.
      rewrite take_take, take_app_length in H3.
      rewrite !length_app in H3. cbn [length] in H3.
      by replace (length new `min` (length new + 1))%nat with (length new) in H3
        by lia.
    + rewrite !length_app. cbn [length]. lia.
    + rewrite !forallb_app, Hnew. cbn. by rewrite Hm1.
Qed.

Lemma push_random_ok (n : list nat) : ∀ (population : list Individual) k,
  forallb genomeOk population = true →
  forallb genomeOk
    (fold_left (λ '(population, k) _,
                  let '(ind, k) := createRandomIndividual rnd k in
                  (population ++ [ind], k)) n (population, k)).1 = true.
Proof.
  induction n as [|i n IH]; intros population k Hok; cbn [fold_left]; [done|].
  destruct (createRandomIndividual_spec rnd k) as [Hg _].
  destruct (createRandomIndividual rnd k) as [ind k']. cbn [fst] in Hg.
  apply IH. rewrite forallb_app, Hok. cbn. by rewrite Hg.
Qed.

End GenerationFacts.

(** *** The genetic distance *)

Lemma ruleDifferences_bounds a b : 0 ≤ ruleDifferences a b ≤ 7.
Proof. unfold ruleDifferences. repeat case_match; lia. Qed.

Lemma RuleAction_eqb_refl a : RuleAction_eqb a a = true.
Proof. by destruct a. Qed.

Lemma RuleAction_eqb_sym a b : RuleAction_eqb a b = RuleAction_eqb b a.
Proof. by destruct a, b. Qed.

Lemma ruleDifferences_refl a : ruleDifferences a a = 0.
Proof.
  unfold ruleDifferences. by rewrite !Z.eqb_refl, !eqb_reflx, RuleAction_eqb_refl.
Qed.

Lemma eqb_sym (a b : bool) : eqb a b = eqb b a.
Proof. by destruct a, b. Qed.

Lemma ruleDifferences_sym a b : ruleDifferences a b = ruleDifferences b a.
Proof.
  unfold ruleDifferences.
  by rewrite (Z.eqb_sym (numberCondition a)), (Z.eqb_sym (hiddenCondition a)),
    (Z.eqb_sym (flaggedCondition a)), (Z.eqb_sym (extendedScope a)),
    (eqb_sym (nearEdge a)), (eqb_sym (hasSpecificPattern a)),
    (RuleAction_eqb_sym (action a)).
Qed.

Lemma ruleDifferences_priority a b v w :
  ruleDifferences (set_priority v a) (set_priority w b) = ruleDifferences a b.
Proof. reflexivity. Qed.

Lemma differences_fold (f : Z → Z) (l : list Z) (n : Z) :
  fold_left (λ distance i, distance + f i) l n
  = n + fold_left (λ distance i, distance + f i) l 0.
Proof.
  revert n. induction l as [|i l IH]; intros n; cbn [fold_left]; [lia|].
  rewrite IH, (IH (0 + f i)). lia.
Qed.

Lemma differences_bounds (f : Z → Z) (l : list Z) :
  (∀ i, 0 ≤ f i ≤ 7) →
  0 ≤ fold_left (λ distance i, distance + f i) l 0 ≤ 7 * Z.of_nat (length l).
Proof.
  intros Hf. induction l as [|i l IH]; cbn [fold_left length]; [lia|].
  rewrite differences_fold. specialize (Hf i). lia.
Qed.

Lemma differences_ext (f f' : Z → Z) (l : list Z) :
  (∀ i, i ∈ l → f i = f' i) →
  fold_left (λ distance i, distance + f i) l 0
  = fold_left (λ distance i, distance + f' i) l 0.
Proof.
  intros Hf. induction l as [|i l IH]; cbn [fold_left]; [done|].
  rewrite differences_fold, (differences_fold f'), IH, (Hf i).
  - done.
  - apply list_elem_of_here.
  - intros j Hj. by apply Hf, list_elem_of_further.
Qed.

(** ** Bitmaps *)

Lemma bitmapOk_spec bm : bitmapOk bm = true ↔ wf_bitmap bm.
Proof.
  unfold bitmapOk, wf_bitmap. rewrite andb_true_iff, Z.eqb_eq, forallb_forall.
  rewrite Forall_forall. pose proof GRID_WIDTH_pos. pose proof GRID_HEIGHT_pos.
  split; intros [H1 H2]; (split; [lia|]).
  - intros row Hr%list_elem_of_In. apply H2, Z.eqb_eq in Hr. lia.
  - intros row Hr%list_elem_of_In. apply Z.eqb_eq. rewrite (H2 row Hr). lia.
Qed.

Lemma wf_emptyBitmap : wf_bitmap emptyBitmap.
Proof.
  split; [apply length_replicate|]. apply Forall_replicate, length_replicate.
Qed.

Lemma mineAt_emptyBitmap x y : mineAt emptyBitmap x y = false.
Proof.
  unfold mineAt, emptyBitmap.
  destruct (replicate _ _ !! _) as [row|] eqn:E; [|done].
  apply lookup_replicate_1 in E as [-> _]. cbn.
  destruct (replicate _ _ !! _) as [b|] eqn:E; [|done].
  by apply lookup_replicate_1 in E as [-> _].
Qed.

Lemma wf_setMine bm x y b : wf_bitmap bm → wf_bitmap (setMine x y b bm).
Proof.
  intros [Hlen Hrows]. unfold setMine. split; [by rewrite length_alter|].
  apply Forall_lookup_2. intros i row Hi.
  destruct (decide (i = Z.to_nat y)) as [->|Hne].
  - rewrite list_lookup_alter_eq in Hi.
    destruct (bm !! Z.to_nat y) as [row'|] eqn:Hrow'; [|done].
    injection Hi as <-. rewrite length_insert.
    eapply Forall_lookup_1 in Hrows; [|exact Hrow']. done.
  - rewrite list_lookup_alter_ne in Hi by done.
    eapply Forall_lookup_1 in Hrows; [|exact Hi]. done.
Qed.

Lemma mineAt_setMine bm x y b x' y' :
  wf_bitmap bm → inBounds x y = true → inBounds x' y' = true →
  mineAt (setMine x y b bm) x' y'
  = if decide ((x, y) = (x', y')) then b else mineAt bm x' y'.
Proof.
  intros [Hlen Hrows] [Hx Hy]%inBounds_spec [Hx' Hy']%inBounds_spec.
  unfold mineAt, setMine.
  destruct (decide (Z.to_nat y = Z.to_nat y')) as [Heq|Hney].
  - assert (y = y') as -> by lia. rewrite list_lookup_alter_eq.
    destruct (lookup_lt_is_Some_2 bm (Z.to_nat y')) as [row Hrow]; [lia|].
    rewrite Hrow. cbn.
    assert (length row = Z.to_nat GRID_WIDTH) as Hw.
    { eapply Forall_lookup_1 in Hrows; [|exact Hrow]. done. }
    case_decide as Hd.
    + injection Hd as ->. rewrite list_lookup_insert_eq by lia. done.
    + rewrite list_lookup_insert_ne; [done|]. intros Hxx. apply Hd. f_equal. lia.
  - rewrite list_lookup_alter_ne by done. case_decide as Hd; [|done].
    injection Hd as -> ->. done.
Qed.

Lemma bitmap_ext bm bm' :
  wf_bitmap bm → wf_bitmap bm' →
  (∀ x y, inBounds x y = true → mineAt bm' x y = mineAt bm x y) → bm' = bm.
Proof.
  intros [Hlen Hrows] [Hlen' Hrows'] Hcells.
  apply list_eq_same_length with (Z.to_nat GRID_HEIGHT); [done..|].
  intros j row' row Hj Hr' Hr.
  pose proof (Forall_lookup_1 _ _ _ _ Hrows Hr) as Hl.
  pose proof (Forall_lookup_1 _ _ _ _ Hrows' Hr') as Hl'. cbv beta in Hl, Hl'.
  apply list_eq_same_length with (Z.to_nat GRID_WIDTH); [done..|].
  intros i c' c Hi Hc' Hc.
  specialize (Hcells (Z.of_nat i) (Z.of_nat j)).
  unfold mineAt in Hcells. rewrite !Nat2Z.id, Hr, Hr' in Hcells. cbn in Hcells.
  rewrite Hc, Hc' in Hcells. cbn in Hcells. apply Hcells, inBounds_spec. lia.
Qed.

(** ** Records of the bank file *)

Lemma char_repr_ok (b : bool) : repr_ok char_repr (if b then 1 else 0).
Proof. split; [done|]. by destruct b. Qed.

Lemma swrite_nil {T} (R : Repr T) (v : T) : swrite R v [] = @to_bytes T R v.
Proof. reflexivity. Qed.

Lemma writeCells_app (fg : FixedGame) (l : list (Z * Z)) (ofs : list byte) :
  fold_left (λ ofs '(x, y),
               let mine := if mineAt (mineGrid fg) x y then 1 else 0 in
               swrite char_repr mine ofs) l ofs
  = ofs ++ fold_left (λ ofs '(x, y),
                        let mine := if mineAt (mineGrid fg) x y then 1 else 0 in
                        swrite char_repr mine ofs) l [].
Proof.
  revert ofs. induction l as [|[x y] l IH]; intros ofs; cbn [fold_left].
  - by rewrite app_nil_r.
  - rewrite IH. rewrite (IH (swrite _ _ [])). unfold swrite. cbn [app].
    by rewrite <- app_assoc.
Qed.

Lemma writeFixedGame_app ofs fg : writeFixedGame ofs fg = ofs ++ writeFixedGame [] fg.
Proof.
  unfold writeFixedGame. rewrite writeCells_app, (writeCells_app _ _ (swrite _ _ _)).
  unfold swrite. cbn [app]. by rewrite <- !app_assoc.
Qed.

Lemma bankBytes_cons fg fgs : bankBytes (fg :: fgs) = writeFixedGame [] fg ++ bankBytes fgs.
Proof.
  unfold bankBytes. cbn [fold_left].
  assert (∀ l ofs, fold_left writeFixedGame l ofs = ofs ++ fold_left writeFixedGame l [])
    as Happ.
  { induction l as [|a l IH]; intros ofs; cbn [fold_left]; [by rewrite app_nil_r|].
    rewrite IH, (IH (writeFixedGame [] a)), writeFixedGame_app. by rewrite <- app_assoc. }
  apply Happ.
Qed.

Lemma length_writeCells (fg : FixedGame) (l : list (Z * Z)) :
  length (fold_left (λ ofs '(x, y),
                       let mine := if mineAt (mineGrid fg) x y then 1 else 0 in
                       swrite char_repr mine ofs) l []) = length l.
Proof.
  induction l as [|[x y] l IH]; [done|]. cbn [fold_left].
  rewrite writeCells_app, length_app, IH. done.
Qed.

Lemma length_writeFixedGame fg : length (writeFixedGame [] fg) = RECORD_SIZE.
Proof.
  unfold writeFixedGame. rewrite writeCells_app, length_app, length_writeCells.
  unfold RECORD_SIZE. pose proof length_allCells. cbn. lia.
Qed.

Section BankFacts.

Variable uninitialised : nat → Z → Z → Z.

(** Reading the cells [l] of a record that was written from [fg]. *)
Lemma readCells_written (fg : FixedGame) (index : nat) (l : list (Z * Z)) :
  ∀ (bm : list (list bool)) (rest : list byte),
    wf_bitmap bm → NoDup l → (∀ c, c ∈ l → inBounds c.1 c.2 = true) →
    ∃ bm',
      fold_left (λ '(mineGrid, ifs) '(x, y),
                   let '(mine, ifs) := sread char_repr (uninitialised index x y) ifs in
                   (setMine x y (mine =? 1) mineGrid, ifs))
                l (bm, mkIstream
                         (fold_left (λ ofs '(x, y),
                                       let mine := if mineAt (mineGrid fg) x y
                                                   then 1 else 0 in
                                       swrite char_repr mine ofs) l [] ++ rest) false)
      = (bm', mkIstream rest false) ∧
      wf_bitmap bm' ∧
      ∀ x y, inBounds x y = true →
             mineAt bm' x y = if decide ((x, y) ∈ l) then mineAt (mineGrid fg) x y
                              else mineAt bm x y.
Proof.
  induction l as [|[x y] l IH]; intros bm rest Hwf Hnd Hin.
  - exists bm. split_and!; [done..|]. intros x y _. case_decide as H; [|done].
    by apply elem_of_nil in H.
  - cbn [fold_left]. cbv zeta. rewrite writeCells_app, swrite_nil, <- app_assoc.
    rewrite (sread_swrite char_repr) by apply char_repr_ok.
    apply NoDup_cons in Hnd as [Hnot Hnd].
    assert (inBounds x y = true) as Hxy by (apply (Hin (x, y)), list_elem_of_here).
    destruct (IH (setMine x y ((if mineAt (mineGrid fg) x y then 1 else 0) =? 1) bm) rest)
      as (bm' & -> & Hwf' & Hcells).
    + by apply wf_setMine.
    + done.
    + intros c Hc. by apply Hin, list_elem_of_further.
    + exists bm'. split_and!; [done..|]. intros x' y' Hin'.
      rewrite (Hcells x' y' Hin'), mineAt_setMine by done.
      destruct (decide ((x', y') ∈ l)) as [Hl|Hl].
      * rewrite decide_True; [done|by apply list_elem_of_further].
      * destruct (decide ((x, y) = (x', y'))) as [[= <- <-]|Hne].
        -- rewrite decide_True by apply list_elem_of_here.
           by destruct (mineAt (mineGrid fg) x y).
        -- rewrite decide_False; [done|]. intros [Heq|?]%elem_of_cons; [|done].
           by apply Hne.
Qed.

Lemma readBitmap_written fg index rest :
  wf_bitmap (mineGrid fg) →
  readBitmap uninitialised index
    (mkIstream (fold_left (λ ofs '(x, y),
                             let mine := if mineAt (mineGrid fg) x y then 1 else 0 in
                             swrite char_repr mine ofs) allCells [] ++ rest) false)
  = (mineGrid fg, mkIstream rest false).
Proof.
  intros Hwf. unfold readBitmap.
  destruct (readCells_written fg index allCells emptyBitmap rest)
    as (bm' & Hr & Hwf' & Hcells);
    [apply wf_emptyBitmap|apply NoDup_allCells|apply all_in_allCells|].
  cbv zeta in Hr. rewrite Hr. f_equal. apply bitmap_ext; [done..|]. intros x y Hin.
  rewrite (Hcells x y Hin), decide_True; [done|by apply elem_of_allCells].
Qed.

Lemma readFixedGames_written (fgs : list FixedGame) :
  ∀ (fuel : nat) (acc : list FixedGame),
    forallb scenarioOk fgs = true → (length fgs < fuel)%nat →
    readFixedGames uninitialised fuel acc (mkIstream (bankBytes fgs) false)
    = Some (acc ++ fgs).
Proof.
  induction fgs as [|fg fgs IH]; intros fuel acc Hok Hfuel.
  - destruct fuel; [cbn in Hfuel; lia|]. cbn. by rewrite app_nil_r.
  - destruct fuel as [|fuel]; [cbn in Hfuel; lia|].
    cbn [forallb] in Hok. apply andb_true_iff in Hok as [Hfg Hok].
    unfold scenarioOk in Hfg.
    apply andb_true_iff in Hfg as [[Hbm%bitmapOk_spec Hsx]%andb_true_iff Hsy].
    rewrite bankBytes_cons. cbn [readFixedGames failbit buf orb].
    assert (bool_decide (writeFixedGame [] fg ++ bankBytes fgs = []) = false) as ->.
    { apply bool_decide_eq_false. intros Hnil%(f_equal length).
      rewrite length_app, length_writeFixedGame in Hnil. unfold RECORD_SIZE in Hnil.
      cbn in Hnil. lia. }
    unfold writeFixedGame. cbv zeta. rewrite writeCells_app.
    unfold swrite at 1. rewrite swrite_nil, <- !app_assoc.
    rewrite (sread_swrite int_repr) by by apply int_repr_ok.
    rewrite (sread_swrite int_repr) by by apply int_repr_ok.
    cbn [failbit]. rewrite readBitmap_written by done.
    rewrite IH; [|done|cbn in Hfuel; lia]. rewrite <- app_assoc. cbn [app].
    by destruct fg.
Qed.

(** The reads never give back more bytes than they found. *)
Lemma sread_shrinks {T} (R : Repr T) (old : T) (s : istream) :
  (length (buf (sread R old s).2) ≤ length (buf s))%nat ∧
  (failbit (sread R old s).2 = false →
   (length (buf (sread R old s).2) + @sizeof T R = length (buf s))%nat).
Proof.
  unfold sread. destruct (failbit s) eqn:Hf; cbn [snd buf failbit]; [by rewrite Hf|].
  destruct (sizeof <=? length (buf s))%nat eqn:Hle; cbn [snd buf failbit].
  - apply Nat.leb_le in Hle. rewrite length_drop. lia.
  - split; [cbn; lia|done].
Qed.

Lemma readCells_shrinks (index : nat) (l : list (Z * Z)) : ∀ bm ifs,
  wf_bitmap bm →
  let r := fold_left (λ '(mineGrid, ifs) '(x, y),
                        let '(mine, ifs) := sread char_repr (uninitialised index x y) ifs in
                        (setMine x y (mine =? 1) mineGrid, ifs)) l (bm, ifs) in
  wf_bitmap r.1 ∧ (length (buf r.2) ≤ length (buf ifs))%nat.
Proof.
  induction l as [|[x y] l IH]; intros bm ifs Hwf; cbn [fold_left].
  - cbv zeta. cbn [fst snd]. split; [done|lia].
  - pose proof (sread_shrinks char_repr (uninitialised index x y) ifs) as [Hs _].
    destruct (sread char_repr (uninitialised index x y) ifs) as [mine ifs'].
    cbn [snd] in Hs.
    destruct (IH (setMine x y (mine =? 1) bm) ifs') as [H1 H2]; [by apply wf_setMine|].
    cbv zeta in H1, H2 |- *. split; [done|lia].
Qed.

Lemma readFixedGames_total (fuel : nat) : ∀ (acc : list FixedGame) (ifs : istream),
  (length (buf ifs) < fuel)%nat → forallb scenarioOk acc = true →
  ∃ fgs, readFixedGames uninitialised fuel acc ifs = Some fgs ∧
         forallb scenarioOk fgs = true.
Proof.
  induction fuel as [|fuel IH]; intros acc ifs Hfuel Hacc; [lia|].
  cbn [readFixedGames].
  destruct (failbit ifs || bool_decide (buf ifs = [])) eqn:Hend; [by exists acc|].
  pose proof (sread_shrinks int_repr 0 ifs) as [_ H1].
  destruct (sread int_repr 0 ifs) as [sx ifs1] eqn:E1. cbn [snd] in H1.
  pose proof (sread_shrinks int_repr 0 ifs1) as [_ H2].
  destruct (sread int_repr 0 ifs1) as [sy ifs2] eqn:E2. cbn [snd] in H2.
  destruct (failbit ifs2) eqn:Hf2; [by exists acc|].
  assert (failbit ifs1 = false) as Hf1.
  { destruct (failbit ifs1) eqn:Hf1; [|done].
    unfold sread in E2. rewrite Hf1 in E2. injection E2 as _ <-. congruence. }
  specialize (H1 Hf1). specialize (H2 eq_refl). cbn [sizeof int_repr] in H1, H2.
  unfold readBitmap.
  pose proof (readCells_shrinks (length acc) allCells emptyBitmap ifs2 wf_emptyBitmap)
    as [Hwf Hlen]. cbv zeta in Hwf, Hlen.
  destruct (fold_left _ allCells (emptyBitmap, ifs2)) as [bm ifs3]. cbn [fst snd] in *.
  assert (int_range sx = true ∧ int_range sy = true) as [Hsx Hsy].
  { assert (∀ bs, int_range (@of_bytes Z int_repr bs) = true
                  ∨ 2 ^ 32 ≤ le_value bs) as Hrange.
    { intros bs. cbn [of_bytes int_repr]. pose proof (le_value_bounds bs).
      destruct (decide (le_value bs < 2 ^ 32)); [left|right; lia].
      unfold int_range. case_match eqn:Hc;
        [apply Z.ltb_lt in Hc|apply Z.ltb_ge in Hc];
        apply andb_true_iff; rewrite Z.leb_le, Z.ltb_lt; lia. }
    unfold sread in E1, E2. rewrite Hf1 in E2.
    destruct (failbit ifs) eqn:Hf; [done|].
    destruct (sizeof <=? length (buf ifs))%nat eqn:Hl1;
      [|injection E1 as _ <-; done].
    destruct (sizeof <=? length (buf ifs1))%nat eqn:Hl2;
      [|injection E2 as _ <-; done].
    injection E1 as <- _. injection E2 as <- _.
    split.
    - destruct (Hrange (take 4 (buf ifs))) as [?|Hbig]; [done|].
      pose proof (le_value_bounds (take 4 (buf ifs))) as Hb.
      rewrite length_take in Hb.
      assert (256 ^ Z.of_nat (4 `min` length (buf ifs)) ≤ 256 ^ 4)
        by (apply Z.pow_le_mono_r; lia). lia.
    - destruct (Hrange (take 4 (buf ifs1))) as [?|Hbig]; [done|].
      pose proof (le_value_bounds (take 4 (buf ifs1))) as Hb.
      rewrite length_take in Hb.
      assert (256 ^ Z.of_nat (4 `min` length (buf ifs1)) ≤ 256 ^ 4)
        by (apply Z.pow_le_mono_r; lia). lia. }
  apply IH; [lia|]. rewrite forallb_app, Hacc. cbn [forallb andb].
  rewrite andb_true_r. unfold scenarioOk. cbn [mineGrid startX startY].
  rewrite Hsx, Hsy, !andb_true_r. by apply bitmapOk_spec.
Qed.

End BankFacts.

(** ** Generating the bank *)

Lemma grid_square : GRID_WIDTH = GRID_HEIGHT.
Proof. vm_compute. reflexivity. Qed.

Lemma bitmapMines_setMine bm x y :
  wf_bitmap bm → inBounds x y = true → mineAt bm x y = false →
  bitmapMines (setMine x y true bm) = bitmapMines bm + 1.
Proof.
  intros Hwf Hin Hm. rewrite !bitmapMines_filter.
  pose proof (count_change_one (λ c, mineAt bm c.1 c.2)
                (λ c, mineAt (setMine x y true bm) c.1 c.2) allCells (x, y)
                NoDup_allCells) as H.
  cbn [fst snd] in H. rewrite Hm, mineAt_setMine, decide_True in H by done.
  change (b2z false) with 0 in H. change (b2z true) with 1 in H.
  rewrite Z.add_0_r in H. apply H; [by apply elem_of_allCells|].
  intros [x' y'] Hc%elem_of_allCells Hne. cbn [fst snd].
  rewrite mineAt_setMine by done. by rewrite decide_False.
Qed.

Lemma safeZoneFree_setMine sx sy bm x y :
  wf_bitmap bm → inBounds x y = true → isInSafeZone sx sy x y = false →
  safeZoneFree sx sy bm = true → safeZoneFree sx sy (setMine x y true bm) = true.
Proof.
  intros Hwf Hin Hz H. unfold safeZoneFree in *. rewrite forallb_forall in *.
  intros [x' y'] Hc. specialize (H (x', y') Hc). cbv beta iota in H |- *.
  apply list_elem_of_In, elem_of_allCells in Hc.
  rewrite mineAt_setMine by done. case_decide as Heq; [|done].
  injection Heq as <- <-. by rewrite Hz, andb_false_r.
Qed.

Lemma safeZoneFree_empty sx sy : safeZoneFree sx sy emptyBitmap = true.
Proof.
  unfold safeZoneFree. apply forallb_forall. intros [x y] _.
  by rewrite mineAt_emptyBitmap.
Qed.

Lemma bitmapMines_empty : bitmapMines emptyBitmap = 0.
Proof.
  rewrite bitmapMines_filter.
  rewrite (filter_ext_elem _ (λ _, False)).
  - induction allCells as [|c l IH]; [done|].
    rewrite filter_cons. case_decide as Hf; [destruct Hf|exact IH].
  - intros [x y] _. cbn [fst snd]. by rewrite mineAt_emptyBitmap.
Qed.

Lemma int_range_small z : 0 ≤ z < GRID_WIDTH → int_range z = true.
Proof.
  intros Hz. assert (GRID_WIDTH = 10) as Hw by (vm_compute; reflexivity).
  unfold int_range. apply andb_true_iff. rewrite Z.leb_le, Z.ltb_lt. lia.
Qed.

Section GenerateFacts.

Variable rnd : nat → nat.

Lemma dis_pos_range k :
  0 ≤ (uniform_int rnd 0 (GRID_WIDTH - 1) k).1 < GRID_WIDTH.
Proof.
  pose proof GRID_WIDTH_pos.
  pose proof (uniform_int_range rnd 0 (GRID_WIDTH - 1) k). lia.
Qed.

Lemma placeBankMines_spec fuel : ∀ placed sx sy bm k bm' k',
  placeBankMines rnd fuel placed sx sy bm k = Some (bm', k') →
  wf_bitmap bm → bitmapMines bm = placed → placed ≤ NUM_MINES →
  safeZoneFree sx sy bm = true →
  wf_bitmap bm' ∧ bitmapMines bm' = NUM_MINES ∧ safeZoneFree sx sy bm' = true.
Proof.
  induction fuel as [|fuel IH]; intros placed sx sy bm k bm' k' Hp Hwf Hcount Hle Hfree;
    cbn [placeBankMines] in Hp;
    destruct (placed <? NUM_MINES) eqn:Hlt;
    try done;
    try (injection Hp as <- <-; apply Z.ltb_ge in Hlt; split_and!; [done|lia|done]).
  apply Z.ltb_lt in Hlt.
  pose proof (dis_pos_range k) as Hx.
  destruct (uniform_int rnd 0 (GRID_WIDTH - 1) k) as [x k1]. cbn [fst] in Hx.
  pose proof (dis_pos_range k1) as Hy.
  destruct (uniform_int rnd 0 (GRID_WIDTH - 1) k1) as [y k2]. cbn [fst] in Hy.
  assert (inBounds x y = true) as Hin.
  { apply inBounds_spec. rewrite <- grid_square. lia. }
  destruct (negb (mineAt bm x y) && negb (isInSafeZone sx sy x y)) eqn:Hc.
  - apply andb_true_iff in Hc as [Hm%negb_true_iff Hz%negb_true_iff].
    apply IH in Hp; [done|by apply wf_setMine| |lia|by apply safeZoneFree_setMine].
    rewrite bitmapMines_setMine by done. lia.
  - by apply IH in Hp.
Qed.

Lemma generateFixedGame_spec fuel k fg k' :
  generateFixedGame rnd fuel k = Some (fg, k') →
  generatedOk fg = true ∧ scenarioOk fg = true.
Proof.
  unfold generateFixedGame.
  pose proof (dis_pos_range k) as Hx.
  destruct (uniform_int rnd 0 (GRID_WIDTH - 1) k) as [sx k1]. cbn [fst] in Hx.
  pose proof (dis_pos_range k1) as Hy.
  destruct (uniform_int rnd 0 (GRID_WIDTH - 1) k1) as [sy k2]. cbn [fst] in Hy.
  destruct (placeBankMines rnd fuel 0 sx sy emptyBitmap k2) as [[bm k3]|] eqn:Hp; [|done].
  cbn [mbind option_bind]. intros [= <- <-].
  apply placeBankMines_spec in Hp as (Hwf & Hcount & Hfree);
    [|apply wf_emptyBitmap|apply bitmapMines_empty| |apply safeZoneFree_empty].
  2:{ assert (0 < NUM_MINES) by (vm_compute; reflexivity). lia. }
  pose proof (proj2 (bitmapOk_spec bm) Hwf) as Hok.
  assert (inBounds sx sy = true) as Hin.
  { apply inBounds_spec. rewrite <- grid_square. lia. }
  split.
  - unfold generatedOk, validScenario. cbn [mineGrid startX startY].
    rewrite !andb_true_iff. split_and!; try done.
    + by apply andb_true_iff in Hok as [? _].
    + by apply andb_true_iff in Hok as [_ ?].
    + by apply Z.eqb_eq.
  - unfold scenarioOk. cbn [mineGrid startX startY].
    by rewrite Hok, !int_range_small.
Qed.

Lemma generateLoop_spec fuel (n : nat) : ∀ ofs k fgs ofs' k',
  generateLoop rnd fuel n ofs k = Some (fgs, ofs', k') →
  length fgs = n ∧ forallb generatedOk fgs = true ∧ forallb scenarioOk fgs = true ∧
  ofs' = ofs ++ bankBytes fgs.
Proof.
  induction n as [|n IH]; intros ofs k fgs ofs' k' Hg; cbn [generateLoop] in Hg.
  - injection Hg as <- <- _. by rewrite app_nil_r.
  - destruct (generateFixedGame rnd fuel k) as [[fg k1]|] eqn:Hfg; [|done].
    cbn [mbind option_bind] in Hg.
    destruct (generateLoop rnd fuel n (writeFixedGame ofs fg) k1)
      as [[[fgs1 ofs1] k2]|] eqn:Hrest; [|done].
    cbn [mbind option_bind] in Hg. injection Hg as <- <- _.
    apply IH in Hrest as (H1 & H2 & H3 & ->).
    apply generateFixedGame_spec in Hfg as [Hg1 Hg2].
    cbn [length forallb]. rewrite H1, H2, H3, Hg1, Hg2. split_and!; [done..|].
    rewrite bankBytes_cons, writeFixedGame_app. by rewrite <- app_assoc.
Qed.

End GenerateFacts.

Lemma generatedOk_valid fg : generatedOk fg = true → validScenario fg = true.
Proof. unfold generatedOk. by intros [[? _]%andb_true_iff _]%andb_true_iff. Qed.

(** ** What an accepted checkpoint holds *)

Lemma sread_failed {T} (R : Repr T) old s :
  failbit (sread R old s).2 = false → failbit s = false.
Proof.
  unfold sread. destruct (failbit s) eqn:F; [|done]. cbn [snd]. by rewrite F.
Qed.

Lemma sread_int_range old s :
  failbit (sread int_repr old s).2 = false → int_range (sread int_repr old s).1 = true.
Proof.
  unfold sread. destruct (failbit s) eqn:F; [cbn [snd]; by rewrite F|].
  destruct (_ <=? _)%nat eqn:Hlen; [|done]. intros _. cbn [fst].
  apply Nat.leb_le in Hlen.
  pose proof (le_value_bounds (take (@sizeof Z int_repr) (buf s))) as Hb.
  rewrite length_take, Nat.min_l in Hb by done.
  change (256 ^ Z.of_nat (@sizeof Z int_repr)) with (2 ^ 32) in Hb.
  cbn [of_bytes int_repr]. cbv zeta. unfold int_range.
  destruct (_ <? 2 ^ 31) eqn:Hs; [apply Z.ltb_lt in Hs|apply Z.ltb_ge in Hs];
    apply andb_true_iff; split; (apply Z.leb_le || apply Z.ltb_lt); lia.
Qed.

Lemma readRule_ok rule ifs :
  failbit (readRule rule ifs).2 = false →
  rule_ok (readRule rule ifs).1 = true ∧ failbit ifs = false.
Proof.
  unfold readRule.
  pose proof (sread_int_range (numberCondition rule) ifs) as H1.
  pose proof (sread_failed int_repr (numberCondition rule) ifs) as F1.
  destruct (sread int_repr (numberCondition rule) ifs) as [num s1].
  pose proof (sread_int_range (hiddenCondition rule) s1) as H2.
  pose proof (sread_failed int_repr (hiddenCondition rule) s1) as F2.
  destruct (sread int_repr (hiddenCondition rule) s1) as [hid s2].
  pose proof (sread_int_range (flaggedCondition rule) s2) as H3.
  pose proof (sread_failed int_repr (flaggedCondition rule) s2) as F3.
  destruct (sread int_repr (flaggedCondition rule) s2) as [fla s3].
  pose proof (sread_failed bool_repr (nearEdge rule) s3) as F4.
  destruct (sread bool_repr (nearEdge rule) s3) as [edge s4].
  pose proof (sread_failed bool_repr (hasSpecificPattern rule) s4) as F5.
  destruct (sread bool_repr (hasSpecificPattern rule) s4) as [pat s5].
  pose proof (sread_int_range (extendedScope rule) s5) as H6.
  pose proof (sread_failed int_repr (extendedScope rule) s5) as F6.
  destruct (sread int_repr (extendedScope rule) s5) as [scope s6].
  pose proof (sread_int_range (priority rule) s6) as H7.
  pose proof (sread_failed int_repr (priority rule) s6) as F7.
  destruct (sread int_repr (priority rule) s6) as [prio s7].
  pose proof (sread_failed action_repr (action rule) s7) as F8.
  destruct (sread action_repr (action rule) s7) as [act s8].
  cbn [fst snd] in *. intros F.
  specialize (F8 F). specialize (F7 F8). specialize (F6 F7). specialize (F5 F6).
  specialize (F4 F5). specialize (F3 F4). specialize (F2 F3). specialize (F1 F2).
  split; [|exact F1]. unfold rule_ok.
  cbn [numberCondition hiddenCondition flaggedCondition extendedScope priority].
  by rewrite (H1 F2), (H2 F3), (H3 F4), (H6 F7), (H7 F8).
Qed.

(** The loop over the rules of one individual, cut after [m] rules. *)
Lemma readRules_prefix (m : nat) (rs : list Rule) (ifs : istream) :
  let res := fold_left (λ '(rs, ifs) j,
               let '(rule, ifs) := readRule (default Rule0 (rs !! j)) ifs in
               (<[j := rule]> rs, ifs)) (seq 0 m) (rs, ifs) in
  length res.1 = length rs ∧
  (failbit res.2 = false →
   failbit ifs = false ∧
   ∀ j r, (j < m)%nat → res.1 !! j = Some r → rule_ok r = true) ∧
  ∀ j, (m ≤ j)%nat → res.1 !! j = rs !! j.
Proof.
  cbv zeta. induction m as [|m IH].
  - cbn [seq fold_left fst snd]. split_and!; [done| |done].
    intros F. split; [done|]. intros; lia.
  - rewrite seq_S, fold_left_app. cbn [Nat.add fold_left].
    destruct (fold_left _ (seq 0 m) (rs, ifs)) as [rs1 s1]. cbn [fst snd] in IH.
    destruct IH as (Hlen & Hok & Hrest).
    pose proof (readRule_ok (default Rule0 (rs1 !! m)) s1) as Hr.
    destruct (readRule (default Rule0 (rs1 !! m)) s1) as [rule s2].
    cbn [fst snd] in *. split_and!.
    + by rewrite length_insert.
    + intros F. destruct (Hr F) as [Hrule F1]. destruct (Hok F1) as [F0 Hall].
      split; [done|]. intros j r Hj Hjr.
      destruct (decide (j = m)) as [->|Hne].
      * rewrite list_lookup_insert_eq in Hjr by (apply lookup_lt_Some in Hjr;
          by rewrite length_insert in Hjr).
        by injection Hjr as <-.
      * rewrite list_lookup_insert_ne in Hjr by done. apply (Hall j); [lia|done].
    + intros j Hj. rewrite list_lookup_insert_ne by lia. apply Hrest. lia.
Qed.

Lemma readRules_ok numRules rs ifs :
  length rs = Z.to_nat numRules →
  length (readRules numRules rs ifs).1 = Z.to_nat numRules ∧
  (failbit (readRules numRules rs ifs).2 = false →
   failbit ifs = false ∧ forallb rule_ok (readRules numRules rs ifs).1 = true).
Proof.
  intros Hlen. unfold readRules.
  destruct (readRules_prefix (Z.to_nat numRules) rs ifs) as (Hl & Hok & _).
  split; [by rewrite Hl|]. intros F. destruct (Hok F) as [F0 Hall].
  split; [done|]. apply forallb_forall. intros r Hr%list_elem_of_In.
  apply list_elem_of_lookup_1 in Hr as [j Hj].
  apply (Hall j r); [|done]. apply lookup_lt_Some in Hj. lia.
Qed.

Lemma readIndividuals_ok indices : ∀ population ifs pop',
  readIndividuals indices population ifs = (true, pop') →
  length pop' = length population ∧
  ∀ i ind, pop' !! i = Some ind →
    (i ∈ indices → ind_ok ind = true) ∧ (i ∉ indices → population !! i = Some ind).
Proof.
  induction indices as [|i0 rest IH]; intros population ifs pop' Hr.
  - cbn [readIndividuals] in Hr. injection Hr as <-. split; [done|].
    intros i ind Hi. split; [by intros ?%elem_of_nil|done].
  - cbn [readIndividuals] in Hr.
    destruct (sread int_repr 0 ifs) as [numRules s1].
    destruct (failbit s1 || negb (numRules =? NUM_RULES)) eqn:Hc; [done|].
    apply orb_false_iff in Hc as [F1 Hn%negb_false_iff%Z.eqb_eq].
    set (ind0 := default Individual0 (population !! i0)) in Hr.
    pose proof (readRules_ok numRules
                  (resize (Z.to_nat numRules) Rule0 (rules ind0)) s1
                  (length_resize _ _ _)) as [Hlen Hok].
    destruct (readRules numRules _ s1) as [rs s2]. cbn [fst snd] in Hlen, Hok.
    pose proof (sread_failed double_repr (fitness ind0) s2) as F2.
    destruct (sread double_repr (fitness ind0) s2) as [fit s3]. cbn [snd] in F2.
    destruct (failbit s3) eqn:F3; [done|].
    apply IH in Hr as [Hl Hall]. rewrite length_insert in Hl. split; [done|].
    intros i ind Hi. destruct (Hall i ind Hi) as [Hin Hout]. split.
    + intros Hmem. destruct (decide (i ∈ rest)) as [?|Hnot]; [by apply Hin|].
      apply elem_of_cons in Hmem as [->|?]; [|done].
      specialize (Hout Hnot).
      rewrite list_lookup_insert_eq in Hout
        by (apply lookup_lt_Some in Hout; by rewrite length_insert in Hout).
      injection Hout as <-. unfold ind_ok. cbn [rules].
      destruct (Hok (F2 eq_refl)) as [_ ->]. rewrite Hlen, Z2Nat.id, Hn by (rewrite Hn; done).
      by rewrite Z.eqb_refl.
    + intros Hmem. apply not_elem_of_cons in Hmem as [Hne Hnot].
      specialize (Hout Hnot). by rewrite list_lookup_insert_ne in Hout.
Qed.

Lemma loadPopulation_ok population filename fs pop' :
  loadPopulation population filename fs = (true, pop') → population_ok pop' = true.
Proof.
  unfold loadPopulation. destruct (files fs !! filename) as [bytes|]; [|done].
  destruct (sread int_repr 0 (mkIstream bytes false)) as [popSize s1].
  destruct (failbit s1 || negb (popSize =? POPULATION_SIZE)) eqn:Hc; [done|].
  apply orb_false_iff in Hc as [F1 Hn%negb_false_iff%Z.eqb_eq].
  intros [Hlen Hall]%readIndividuals_ok. rewrite length_replicate in Hlen.
  unfold population_ok. apply andb_true_iff. split.
  - apply Z.eqb_eq. rewrite Hlen, Z2Nat.id; [done|]. by rewrite Hn.
  - apply forallb_forall. intros ind Hind%list_elem_of_In.
    apply list_elem_of_lookup_1 in Hind as [i Hi].
    apply (Hall i ind Hi). apply elem_of_seq. apply lookup_lt_Some in Hi. lia.
Qed.

(** ** The human game: a new board and the first click *)

Lemma reset_fold (l : list (Z * Z)) (gr : list (list Cell)) :
  wf_grid gr → (∀ c, c ∈ l → inBounds c.1 c.2 = true) →
  let gr' := fold_left (λ gr '(x, y), updCell x y (λ _, Cell0) gr) l gr in
  wf_grid gr' ∧
  ∀ x y, inBounds x y = true →
         cellAt gr' x y = if decide ((x, y) ∈ l) then Cell0 else cellAt gr x y.
Proof.
  revert gr. induction l as [|[a b] l IH]; intros gr Hwf Hin; cbv zeta.
  - split; [done|]. intros x y _. case_decide as Hd; [by apply elem_of_nil in Hd|done].
  - cbn [fold_left].
    assert (inBounds a b = true) as Hab by apply (Hin (a, b)), list_elem_of_here.
    destruct (IH (updCell a b (λ _, Cell0) gr) (wf_updCell _ _ _ _ Hwf)
                 (λ c Hc, Hin c (list_elem_of_further _ _ _ Hc))) as [Hwf' Hcells].
    split; [done|]. intros x y Hxy. rewrite (Hcells x y Hxy).
    destruct (decide ((x, y) ∈ l)) as [Hl|Hl].
    + rewrite decide_True; [done|]. by apply list_elem_of_further.
    + rewrite cellAt_updCell by done.
      destruct (decide ((a, b) = (x, y))) as [[= -> ->]|Hne].
      * rewrite decide_True; [done|]. apply list_elem_of_here.
      * rewrite decide_False; [done|]. by intros [[= -> ->]|?]%elem_of_cons.
Qed.

Lemma cellAt_newGame x y : cellAt (grid newGame) x y = Cell0.
Proof.
  unfold cellAt, newGame. cbn [grid].
  destruct (replicate _ _ !! _) as [row|] eqn:E; [|done].
  apply lookup_replicate_1 in E as [-> _]. cbn [mbind option_bind].
  destruct (replicate _ _ !! _) as [c|] eqn:E; [|done].
  by apply lookup_replicate_1 in E as [-> _].
Qed.

Lemma initializeGrid_fresh h :
  wf_grid (grid (board h)) → initializeGrid h = HumanGame0.
Proof.
  intros Hwf. unfold initializeGrid, HumanGame0. f_equal.
  destruct (reset_fold allCells (grid (board h)) Hwf all_in_allCells) as [Hwf' Hcells].
  cbv zeta in Hwf', Hcells.
  change newGame with (mkGame (grid newGame) false false). f_equal.
  apply grid_ext; [apply wf_newGame|done|].
  intros x y Hin. rewrite (Hcells x y Hin), cellAt_newGame.
  rewrite decide_True; [done|]. by apply elem_of_allCells.
Qed.

Lemma mirrors_newGame : mirrors (grid newGame) emptyBitmap.
Proof.
  split_and!; [apply wf_newGame|apply wf_emptyBitmap|].
  intros x y _. by rewrite cellAt_newGame, mineAt_emptyBitmap.
Qed.

Lemma mirrors_installed gr bm : mirrors gr bm → gr = installMines bm (grid newGame).
Proof.
  intros (Hwf & Hbm & Hcells).
  destruct (install_fold bm allCells (grid newGame) wf_newGame NoDup_allCells
              all_in_allCells) as [Hwf' _].
  apply grid_ext; [exact Hwf'|done|].
  intros x y Hin. by rewrite Hcells, installMines_cell by (done || apply wf_newGame).
Qed.

Lemma mirrors_setMine gr bm x y :
  mirrors gr bm → inBounds x y = true →
  mirrors (updCell x y (set_isMine true) gr) (setMine x y true bm).
Proof.
  intros (Hwf & Hbm & Hcells) Hin.
  split_and!; [by apply wf_updCell|by apply wf_setMine|].
  intros x' y' Hin'. rewrite cellAt_updCell, mineAt_setMine by done.
  case_decide as Heq.
  - injection Heq as <- <-. by rewrite Hcells.
  - by apply Hcells.
Qed.

Section FirstClickFacts.

Variable rnd : nat → nat.

(** The loop of [startGameAt] places the mines as the loop of
    [generateFixedGames] does on the same draws. *)
Lemma placeMines_placeBankMines fuel : ∀ placed sx sy gr bm k gr' k',
  mirrors gr bm →
  placeMines rnd fuel placed sx sy gr k = Some (gr', k') →
  ∃ bm', placeBankMines rnd fuel placed sx sy bm k = Some (bm', k') ∧ mirrors gr' bm'.
Proof.
  induction fuel as [|fuel IH]; intros placed sx sy gr bm k gr' k' Hmir Hp;
    cbn [placeMines placeBankMines] in Hp |- *;
    destruct (placed <? NUM_MINES) eqn:Hlt;
    try done;
    try (injection Hp as <- <-; by exists bm).
  cbv zeta in Hp. unfold uniform_int.
  replace (GRID_WIDTH - 1 - 0 + 1) with GRID_WIDTH by lia.
  rewrite !Z.add_0_l.
  replace (Z.of_nat (rnd (S k)) mod GRID_HEIGHT)
    with (Z.of_nat (rnd (S k)) mod GRID_WIDTH) in Hp by (by rewrite grid_square).
  set (x := Z.of_nat (rnd k) mod GRID_WIDTH) in *.
  set (y := Z.of_nat (rnd (S k)) mod GRID_WIDTH) in *.
  assert (inBounds x y = true) as Hin.
  { apply inBounds_spec. rewrite <- grid_square. pose proof GRID_WIDTH_pos.
    pose proof (Z.mod_pos_bound (Z.of_nat (rnd k)) GRID_WIDTH).
    pose proof (Z.mod_pos_bound (Z.of_nat (rnd (S k))) GRID_WIDTH). lia. }
  destruct Hmir as (Hwf & Hbm & Hcells).
  rewrite (Hcells x y Hin) in Hp. cbn [isMine] in Hp.
  destruct (negb (mineAt bm x y) && negb (isInSafeZone sx sy x y)).
  - apply (IH _ _ _ _ (setMine x y true bm)) in Hp; [done|].
    by apply mirrors_setMine.
  - by apply (IH _ _ _ _ bm) in Hp.
Qed.

(** The first click on a new board builds the board of a scenario. *)
Lemma startGameAt_scenario fuel sx sy k h' k' :
  startGameAt rnd fuel sx sy HumanGame0 k = Some (h', k') →
  firstClick h' = false ∧
  ∃ bm, wf_bitmap bm ∧ bitmapMines bm = NUM_MINES ∧ safeZoneFree sx sy bm = true ∧
        revealCell STACK sx sy (freshBoard bm) = Some (board h').
Proof.
  unfold startGameAt, HumanGame0. cbn [firstClick board negb].
  destruct (placeMines rnd fuel 0 sx sy (grid newGame) k) as [[gr k1]|] eqn:Hp; [|done].
  cbn [mbind option_bind].
  destruct (placeMines_placeBankMines _ _ _ _ _ _ _ _ _ mirrors_newGame Hp)
    as (bm & Hb & Hmir).
  assert (0 < NUM_MINES) by (vm_compute; reflexivity).
  apply placeBankMines_spec in Hb as (Hwf & Hcount & Hfree);
    [|apply wf_emptyBitmap|apply bitmapMines_empty|lia|apply safeZoneFree_empty].
  rewrite (mirrors_installed gr bm Hmir).
  change (set_grid (computeNumbers (installMines bm (grid newGame))) newGame)
    with (freshBoard bm).
  rewrite revealCell_humano_eq by (apply wf_freshBoard || apply hiddenCount_lt_STACK).
  destruct (revealCell STACK sx sy (freshBoard bm)) as [g|] eqn:Hr; [|done].
  cbn [mbind option_bind]. intros [= <- <-]. cbn [firstClick board].
  split; [done|]. by exists bm.
Qed.

End FirstClickFacts.

(** ** The human game: what a session keeps *)

Lemma settled_settledHuman g : settled g → settledHuman g.
Proof. intros [Hl Hw]. split; [|done]. split; apply Hl. Qed.

Lemma lostBoard_lostHuman g : lostBoard g → lostHuman g.
Proof. intros Hl. split; apply Hl. Qed.

Lemma inPlay_human g : inPlay g → settledHuman g ∨ lostHuman g.
Proof.
  intros [Hs|Hl]; [left; by apply settled_settledHuman|right; by apply lostBoard_lostHuman].
Qed.

Lemma liveHuman_revealed_le g :
  liveHuman g → countCells isRevealed (grid g) ≤ SAFE_CELLS.
Proof.
  intros Hl. unfold SAFE_CELLS. rewrite <- (lh_mines g Hl), <- countCells_negb.
  apply countCells_le. intros x y Hin Hr. by rewrite (lh_sound g Hl x y Hin Hr).
Qed.

Lemma liveHuman_hidden_safe g x y :
  liveHuman g → inBounds x y = true →
  isHidden (cellAt (grid g) x y) = true → isMine (cellAt (grid g) x y) = false →
  countCells isRevealed (grid g) < SAFE_CELLS.
Proof.
  intros Hl Hin Hh Hm. unfold SAFE_CELLS.
  rewrite <- (lh_mines g Hl), <- countCells_negb.
  apply (countCells_lt _ _ _ x y); try done.
  - intros x' y' Hin' Hr. by rewrite (lh_sound g Hl x' y' Hin' Hr).
  - by rewrite Hm.
  - by apply hidden_not_revealed.
Qed.

Lemma liveHuman_flood_step g g' : flood_step g g' → liveHuman g → liveHuman g'.
Proof.
  intros Hs Hl. pose proof (lh_wf g Hl) as Hwf.
  pose proof (flood_step_layout g g' Hs Hwf) as Hlay.
  destruct Hs as [g x y Hin Hh Hm|g].
  - split.
    + rewrite grid_mark. by apply wf_updCell.
    + eapply numbers_ok_layout; [done|]. apply Hl.
    + rewrite (countCells_layout _ _ Hlay). apply Hl.
    + intros x' y' Hin'. rewrite grid_mark, cellAt_updCell by done.
      case_decide as Heq; [injection Heq as <- <-; by intros _|]. by apply lh_sound.
    + apply Hl.
    + intros Hw. pose proof (lh_won g Hl Hw).
      pose proof (liveHuman_hidden_safe g x y Hl Hin Hh Hm). lia.
  - split; rewrite ?grid_checkWinCondition; try apply Hl.
    + rewrite gameOver_checkWinCondition. apply Hl.
    + rewrite youWin_checkWinCondition. intros [Hw|Hc%Z.eqb_eq]%orb_true_iff; [|done].
      by apply lh_won.
Qed.

Lemma liveHuman_flood g g' : flood g g' → liveHuman g → liveHuman g'.
Proof. induction 1; eauto using liveHuman_flood_step. Qed.

Lemma settledHuman_checkWinCondition g : liveHuman g → settledHuman (checkWinCondition g).
Proof.
  intros Hl. split; [apply (liveHuman_flood_step g); [constructor|done]|].
  rewrite grid_checkWinCondition, youWin_checkWinCondition.
  intros ->. by rewrite Z.eqb_refl, orb_true_r.
Qed.

Lemma liveHuman_minesRevealed g : liveHuman g → minesRevealed g = 0.
Proof.
  intros Hl. unfold minesRevealed. apply countCells_none. intros x y Hin.
  destruct (isRevealed (cellAt (grid g) x y)) eqn:Hr; [|by rewrite andb_false_r].
  by rewrite (lh_sound g Hl x y Hin Hr).
Qed.

Lemma liveHuman_safeRevealed g :
  liveHuman g → safeRevealed g = countCells isRevealed (grid g).
Proof.
  intros Hl. apply countCells_eq. intros x y Hin.
  destruct (isRevealed (cellAt (grid g) x y)) eqn:Hr; [|by rewrite andb_false_r].
  by rewrite (lh_sound g Hl x y Hin Hr).
Qed.

Lemma lostHuman_mark g x y :
  settledHuman g → youWin g = false → inBounds x y = true →
  isHidden (cellAt (grid g) x y) = true → isMine (cellAt (grid g) x y) = true →
  lostHuman (set_gameOver true (mark x y g)).
Proof.
  intros [Hl Hw] Hnw Hin Hh Hm. pose proof (lh_wf g Hl) as Hwf.
  pose proof (same_layout_set_state (grid g) x y REVEALED Hwf Hin) as Hlay.
  split.
  - change (wf_grid (updCell x y (set_state REVEALED) (grid g))). by apply wf_updCell.
  - change (numbers_ok (updCell x y (set_state REVEALED) (grid g))).
    eapply numbers_ok_layout; [exact Hlay|]. apply Hl.
  - change (countCells isMine (updCell x y (set_state REVEALED) (grid g)) = NUM_MINES).
    rewrite (countCells_layout _ _ Hlay). apply Hl.
  - rewrite (minesRevealed_mark_mine g x y Hwf Hin Hm Hh).
    rewrite (liveHuman_minesRevealed g Hl). reflexivity.
  - rewrite (safeRevealed_mark_mine g x y Hwf Hin Hm Hh).
    rewrite (liveHuman_safeRevealed g Hl).
    pose proof (liveHuman_revealed_le g Hl) as Hle.
    destruct (decide (countCells isRevealed (grid g) = SAFE_CELLS)) as [He|Hne]; [|lia].
    apply Hw in He. congruence.
  - reflexivity.
  - exact Hnw.
Qed.

(** A left click after the first one, on a game that is neither lost nor
    won. *)
Lemma revealCell_humano_session g x y :
  settledHuman g → youWin g = false →
  ∃ g', revealCell_humano STACK x y g = Some g' ∧ (settledHuman g' ∨ lostHuman g').
Proof.
  intros Hs Hnw. pose proof Hs as [Hl Hw]. pose proof (lh_wf g Hl) as Hwf.
  rewrite revealCell_humano_eq by (done || apply hiddenCount_lt_STACK).
  destruct (inBounds x y && isHidden (cellAt (grid g) x y)) eqn:Hc.
  - apply andb_true_iff in Hc as [Hin Hh].
    destruct (isMine (cellAt (grid g) x y)) eqn:Hm.
    + exists (set_gameOver true (mark x y g)). split; [by apply revealCell_mine|].
      right. by apply lostHuman_mark.
    + destruct (revealCell_flood STACK g x y) as (g' & Hr & Hf & Hpost);
        [done|apply Hl|apply hiddenCount_lt_STACK|done|].
      rewrite Hin, Hh in Hpost. destruct Hpost as (g'' & Hf'' & ->).
      exists (checkWinCondition g''). split; [done|].
      left. apply settledHuman_checkWinCondition.
      apply (liveHuman_flood (mark x y g)); [done|].
      apply (liveHuman_flood_step g); [by constructor|done].
  - exists g. split; [by apply revealCell_noop|by left].
Qed.

Lemma toggleFlag_cases x y h :
  toggleFlag x y h = h ∨
  ∃ s, inBounds x y = true ∧ firstClick h = false ∧
       isRevealed (cellAt (grid (board h)) x y) = false ∧ s ≠ REVEALED ∧
       toggleFlag x y h
       = mkHumanGame (set_grid (updCell x y (set_state s) (grid (board h))) (board h))
                     (firstClick h).
Proof.
  unfold toggleFlag. cbv zeta.
  destruct (inBounds x y) eqn:Hin; [|by left].
  destruct (isRevealed (cellAt (grid (board h)) x y)) eqn:Hr; [by left|].
  cbn [negb orb]. destruct (firstClick h) eqn:Hf; [by left|].
  destruct (state (cellAt (grid (board h)) x y)); [|by left|].
  - right. by exists FLAGGED.
  - right. by exists HIDDEN.
Qed.

Lemma toggleFlag_session x y h :
  firstClick h = false → settledHuman (board h) →
  settledHuman (board (toggleFlag x y h)).
Proof.
  intros Hf Hs. destruct (toggleFlag_cases x y h) as [->|(s & Hin & _ & Hr & Hne & ->)];
    [done|].
  cbn [board]. destruct Hs as [Hl Hw]. pose proof (lh_wf _ Hl) as Hwf.
  pose proof (same_layout_set_state (grid (board h)) x y s Hwf Hin) as Hlay.
  assert (∀ x' y', inBounds x' y' = true →
            isRevealed (cellAt (updCell x y (set_state s) (grid (board h))) x' y')
            = isRevealed (cellAt (grid (board h)) x' y')) as Hrev.
  { intros x' y' Hin'. rewrite cellAt_updCell by done.
    case_decide as Heq; [|done]. injection Heq as <- <-. rewrite Hr.
    unfold isRevealed. cbn [state set_state]. by destruct s. }
  assert (countCells isRevealed (updCell x y (set_state s) (grid (board h)))
          = countCells isRevealed (grid (board h))) as Hcount
    by (by apply countCells_ext).
  split; [split|]; cbn [grid set_grid gameOver youWin].
  - by apply wf_updCell.
  - eapply numbers_ok_layout; [exact Hlay|]. apply Hl.
  - rewrite (countCells_layout _ _ Hlay). apply Hl.
  - intros x' y' Hin' Hr'. rewrite Hrev in Hr' by done.
    destruct (Hlay x' y' Hin') as [-> _]. by apply (lh_sound _ Hl).
  - apply Hl.
  - rewrite Hcount. apply Hl.
  - rewrite Hcount. exact Hw.
Qed.

Lemma sessionOk_wf h : sessionOk h → wf_grid (grid (board h)).
Proof.
  unfold sessionOk. destruct (firstClick h).
  - intros ->. apply wf_newGame.
  - intros [[Hl _]|Hl]; apply Hl.
Qed.

Section SessionFacts.

Variable rnd : nat → nat.

Lemma startGameAt_session fuel sx sy k h' k' :
  startGameAt rnd fuel sx sy HumanGame0 k = Some (h', k') → sessionOk h'.
Proof.
  intros (Hf & bm & Hwf & Hcount & _ & Hr)%startGameAt_scenario.
  unfold sessionOk. rewrite Hf. apply inPlay_human.
  apply (reveal_inPlay (freshBoard bm) sx sy); [by apply freshBoard_settled|done|done].
Qed.

Lemma handleEvent_session fuel event h k h' k' :
  sessionOk h → handleEvent rnd fuel event h k = Some (h', k') → sessionOk h'.
Proof.
  intros Hok. unfold handleEvent. cbv zeta.
  destruct event as [px py|px py|px py| |].
  - destruct (negb (gameOver (board h)) && negb (youWin (board h))) eqn:Ha;
      [|by intros [= <- _]].
    apply andb_true_iff in Ha as [Hg%negb_true_iff Hw%negb_true_iff].
    destruct (firstClick h) eqn:Hf.
    + unfold sessionOk in Hok. rewrite Hf in Hok.
      assert (h = HumanGame0) as -> by (destruct h; cbn in *; by subst).
      apply startGameAt_session.
    + unfold sessionOk in Hok. rewrite Hf in Hok.
      destruct Hok as [Hs|Hl]; [|by rewrite (lostH_gameOver _ Hl) in Hg].
      destruct (revealCell_humano_session (board h) (px ÷ CELL_SIZE_humano)
                  (py ÷ CELL_SIZE_humano) Hs Hw) as (g' & -> & Hg').
      cbn [mbind option_bind]. intros [= <- _]. unfold sessionOk. by cbn [firstClick board].
  - destruct (negb (gameOver (board h)) && negb (youWin (board h))) eqn:Ha;
      [|by intros [= <- _]].
    apply andb_true_iff in Ha as [Hg%negb_true_iff Hw%negb_true_iff].
    intros [= <- _].
    destruct (toggleFlag_cases (px ÷ CELL_SIZE_humano) (py ÷ CELL_SIZE_humano) h)
      as [->|(s & Hin & Hf & _ & _ & Heq)]; [done|].
    unfold sessionOk in Hok |- *. rewrite Hf in Hok.
    replace (firstClick (toggleFlag _ _ h)) with false by (by rewrite Heq).
    destruct Hok as [Hs|Hl]; [|by rewrite (lostH_gameOver _ Hl) in Hg].
    left. by apply toggleFlag_session.
  - by intros [= <- _].
  - intros [= <- _]. rewrite initializeGrid_fresh by (by apply sessionOk_wf).
    reflexivity.
  - by intros [= <- _].
Qed.

Lemma handleEvents_session fuel (events : list Event) : ∀ h k h' k',
  sessionOk h → handleEvents rnd fuel events h k = Some (h', k') → sessionOk h'.
Proof.
  induction events as [|event rest IH]; intros h k h' k' Hok Hr; cbn [handleEvents] in Hr.
  - by injection Hr as <- _.
  - destruct (handleEvent rnd fuel event h k) as [[h1 k1]|] eqn:He; [|done].
    cbn [mbind option_bind] in Hr.
    apply (IH h1 k1 h' k'); [|done]. by apply (handleEvent_session fuel event h k h1 k1).
Qed.

End SessionFacts.

(** * Further properties *)

(** ** More of the board *)

Lemma revealCell_total g x y :
  wf_grid (grid g) →
  ∃ g', revealCell STACK x y g = Some g' ∧ fillPost allCells x y g g'.
Proof.
  intros Hwf. apply revealCell_closed, fillState_any; [done|apply hiddenCount_lt_STACK].
Qed.

(** X1: on every board of the right size, whatever its mines, numbers and
    flags, [revealCell] returns within its stack bound; every cell is as it
    was or was hidden and is now revealed, with its mine and its number
    untouched; a flag is never removed nor a revealed cell hidden; the
    targeted cell, if on the board, is not hidden afterwards; the number of
    hidden cells does not grow, and a game that was lost stays lost. *)
Theorem revealCell_changes_only_hidden_cells g x y :
  gridOk (grid g) = true →
  ∃ g', revealCell STACK x y g = Some g' ∧
        gridOk (grid g') = true ∧
        (∀ x' y', inBounds x' y' = true →
           cellAt (grid g') x' y' = cellAt (grid g) x' y' ∨
           (isHidden (cellAt (grid g) x' y') = true ∧
            cellAt (grid g') x' y' = set_state REVEALED (cellAt (grid g) x' y'))) ∧
        (∀ x' y', inBounds x' y' = true →
           isFlagged (cellAt (grid g') x' y') = isFlagged (cellAt (grid g) x' y') ∧
           (isRevealed (cellAt (grid g) x' y') = true →
            isRevealed (cellAt (grid g') x' y') = true)) ∧
        (inBounds x y = true → isHidden (cellAt (grid g') x y) = false) ∧
        hiddenCount g' ≤ hiddenCount g ∧
        (gameOver g = true → gameOver g' = true).
Proof.
  intros Hwf%gridOk_spec.
  destruct (revealCell_total g x y Hwf) as (g' & Hr & HR & Hwf' & _ & Hnh).
  exists g'. split_and!; try done.
  - by apply gridOk_spec.
  - intros x' y' Hin. split.
    + by apply (onlyReveals_flagged g g').
    + by apply (onlyReveals_keeps_revealed g g').
  - by apply onlyReveals_hiddenCount.
  - by apply (revealCell_gameOver STACK x y).
Qed.

Lemma revealCell_changes_only_hidden_cells_witness :
  ∃ g', revealCell STACK 6 3 (freshBoard (mineGrid tiedScenario)) = Some g' ∧
        hiddenCount g' ≤ hiddenCount (freshBoard (mineGrid tiedScenario)).
Proof.
  destruct (revealCell_changes_only_hidden_cells
              (freshBoard (mineGrid tiedScenario)) 6 3)
    as (g' & Hr & _ & _ & _ & _ & Hle & _); [vm_compute; reflexivity|].
  exists g'. exact (conj Hr Hle).
Defined.

(** X2: the human game's [revealCell], which skips the centre of the 3x3
    block, and the agent's, which calls itself on it, return the same board
    on every board of the right size. *)
Theorem revealCell_variants_agree g x y :
  gridOk (grid g) = true →
  revealCell_humano STACK x y g = revealCell STACK x y g ∧
  ∃ g', revealCell STACK x y g = Some g'.
Proof.
  intros Hwf%gridOk_spec. split.
  - apply revealCell_humano_eq; [done|apply hiddenCount_lt_STACK].
  - destruct (revealCell_total g x y Hwf) as (g' & Hr & _). by exists g'.
Qed.

Lemma revealCell_variants_agree_witness :
  revealCell_humano STACK 6 3 (freshBoard (mineGrid tiedScenario))
  = revealCell STACK 6 3 (freshBoard (mineGrid tiedScenario)).
Proof.
  refine (proj1 (revealCell_variants_agree (freshBoard (mineGrid tiedScenario)) 6 3 _)).
  vm_compute. reflexivity.
Defined.

(** X3: the flood fill is complete.  If on a board of the right size no
    revealed mine-free cell showing 0 has a hidden cell among its
    neighbours, the same holds after [revealCell], and after [placeFlag];
    it holds on the board [initializeGridFixed] builds before the opening
    move. *)
Theorem flood_fill_leaves_no_hidden_neighbour g x y :
  gridOk (grid g) = true → floodClosed (grid g) = true →
  (∃ g', revealCell STACK x y g = Some g' ∧ floodClosed (grid g') = true) ∧
  floodClosed (grid (placeFlag x y g)) = true ∧
  (∀ bm, floodClosed (grid (freshBoard bm)) = true).
Proof.
  intros Hwf%gridOk_spec Hc%floodClosed_spec. split_and!.
  - destruct (revealCell_closed STACK g x y []) as (g' & Hr & _ & _ & Hc' & _).
    { split_and!; [done|apply hiddenCount_lt_STACK|done]. }
    exists g'. split; [done|]. by apply floodClosed_spec.
  - apply floodClosed_spec. unfold placeFlag.
    destruct (inBounds x y) eqn:Hin; [|done].
    destruct (isHidden (cellAt (grid g) x y)) eqn:Hh; [|done].
    cbn [negb orb grid set_grid]. intros x' y' Hin' _.
    unfold closedAt. rewrite cellAt_updCell by done.
    case_decide as Heq; [intros Hr; discriminate Hr|].
    intros Hr Hm Hz dx dy Hd Hin''. rewrite cellAt_updCell by done.
    case_decide as Heq'; [done|]. by apply (Hc x' y' Hin' (not_elem_of_nil _)).
  - intros bm. apply floodClosed_spec, freshBoard_closed.
Qed.

Lemma flood_fill_leaves_no_hidden_neighbour_witness :
  ∃ g', revealCell STACK 6 3 (freshBoard (mineGrid tiedScenario)) = Some g' ∧
        floodClosed (grid g') = true.
Proof.
  refine (proj1 (flood_fill_leaves_no_hidden_neighbour
                   (freshBoard (mineGrid tiedScenario)) 6 3 _ _));
    vm_compute; reflexivity.
Defined.

(** X4: [placeFlag] on a hidden cell of the board turns that cell, and no
    other, into a flagged one: one hidden cell fewer, one flag more, the
    revealed cells and both end flags as they were; on a cell that is off
    the board, revealed or already flagged it does nothing at all; and a
    reveal aimed at the cell afterwards leaves the board as it is. *)
Theorem placeFlag_flags_one_hidden_cell g x y :
  gridOk (grid g) = true →
  gameOver (placeFlag x y g) = gameOver g ∧
  youWin (placeFlag x y g) = youWin g ∧
  gridOk (grid (placeFlag x y g)) = true ∧
  (inBounds x y && isHidden (cellAt (grid g) x y) = false → placeFlag x y g = g) ∧
  (inBounds x y && isHidden (cellAt (grid g) x y) = true →
   cellAt (grid (placeFlag x y g)) x y = set_state FLAGGED (cellAt (grid g) x y) ∧
   (∀ x' y', inBounds x' y' = true → (x', y') ≠ (x, y) →
             cellAt (grid (placeFlag x y g)) x' y' = cellAt (grid g) x' y') ∧
   hiddenCount (placeFlag x y g) = hiddenCount g - 1 ∧
   countCells isFlagged (grid (placeFlag x y g)) = countCells isFlagged (grid g) + 1 ∧
   countCells isRevealed (grid (placeFlag x y g)) = countCells isRevealed (grid g)) ∧
  revealCell STACK x y (placeFlag x y g) = Some (placeFlag x y g).
Proof.
  intros Hwf%gridOk_spec. unfold placeFlag.
  destruct (inBounds x y) eqn:Hin; cbn [negb orb andb].
  2:{ split_and!; try done; [by apply gridOk_spec|].
      apply revealCell_noop. by rewrite Hin. }
  destruct (isHidden (cellAt (grid g) x y)) eqn:Hh; cbn [negb orb andb].
  2:{ split_and!; try done; [by apply gridOk_spec|].
      apply revealCell_noop. by rewrite Hh, andb_false_r. }
  cbn [grid gameOver youWin set_grid].
  pose proof (countCells_updCell isHidden (grid g) x y (set_state FLAGGED) Hwf Hin) as H1.
  pose proof (countCells_updCell isFlagged (grid g) x y (set_state FLAGGED) Hwf Hin) as H2.
  pose proof (countCells_updCell isRevealed (grid g) x y (set_state FLAGGED) Hwf Hin) as H3.
  rewrite Hh in H1. rewrite (hidden_not_flagged _ Hh) in H2.
  rewrite (hidden_not_revealed _ Hh) in H3.
  change (isHidden (set_state FLAGGED _)) with false in H1.
  change (isFlagged (set_state FLAGGED _)) with true in H2.
  change (isRevealed (set_state FLAGGED _)) with false in H3.
  change (b2z true) with 1 in *. change (b2z false) with 0 in *.
  split_and!; try done.
  - by apply gridOk_spec, wf_updCell.
  - intros _. split_and!.
    + by apply cellAt_updCell_eq.
    + intros x' y' Hin' Hne. by apply cellAt_updCell_ne.
    + unfold hiddenCount. cbn [grid set_grid]. lia.
    + lia.
    + lia.
  - apply revealCell_noop. cbn [grid set_grid].
    rewrite cellAt_updCell_eq by done. apply andb_false_r.
Qed.

Lemma placeFlag_flags_one_hidden_cell_witness :
  revealCell STACK 2 5 (placeFlag 2 5 (freshBoard (mineGrid tiedScenario)))
  = Some (placeFlag 2 5 (freshBoard (mineGrid tiedScenario))).
Proof.
  destruct (placeFlag_flags_one_hidden_cell (freshBoard (mineGrid tiedScenario)) 2 5)
    as (_ & _ & _ & _ & _ & Hr); [vm_compute; reflexivity|exact Hr].
Defined.

Lemma installed_board gr gr0 bm :
  wf_grid gr → wf_grid gr0 →
  computeNumbers (installMines bm gr) = computeNumbers (installMines bm gr0).
Proof.
  intros Hwf Hwf0. apply grid_ext.
  - by apply (board_cells bm gr0 0 0); [|apply inBounds_spec;
      pose proof GRID_WIDTH_pos; pose proof GRID_HEIGHT_pos; lia].
  - by apply (board_cells bm gr 0 0); [|apply inBounds_spec;
      pose proof GRID_WIDTH_pos; pose proof GRID_HEIGHT_pos; lia].
  - intros x y Hin.
    destruct (board_cells bm gr x y Hwf Hin) as [_ ->].
    destruct (board_cells bm gr0 x y Hwf0 Hin) as [_ ->].
    destruct (mineAt bm x y); [done|]. f_equal.
    apply countMineNeighbors_mines. intros x' y' Hin'.
    by rewrite !installMines_cell.
Qed.

Lemma freshBoard_boardOk bm : boardOk (freshBoard bm) = true.
Proof. apply boardOk_intro; [apply wf_freshBoard|apply freshBoard_numbers]. Qed.

Lemma freshBoard_no_flags bm : countCells isFlagged (grid (freshBoard bm)) = 0.
Proof. apply countCells_none. intros x y Hin. by rewrite freshBoard_cell. Qed.

(** X5: [initializeGridFixed] forgets the board it is called on: on any
    [Game] of the right size it returns what it returns on a new one.  The
    board it builds has the mines of the bitmap, every cell hidden, no flag,
    and on every mine-free cell the number of mines in its 3x3 block; the
    opening move is one [revealCell] on that board, made when neither start
    coordinate is negative.  The result has the same mines and numbers and
    no flag, the start cell revealed if it is on the board, and is lost
    exactly when the start cell is on the board and holds a mine. *)
Theorem initializeGridFixed_installs_the_bitmap sx sy bm g :
  gridOk (grid g) = true → bitmapOk bm = true →
  initializeGridFixed sx sy bm g = initializeGridFixed sx sy bm newGame ∧
  initializeGridFixed sx sy bm g
  = (if (0 <=? sx) && (0 <=? sy) then revealCell STACK sx sy (freshBoard bm)
     else Some (freshBoard bm)) ∧
  boardOk (freshBoard bm) = true ∧
  (∀ x y, inBounds x y = true →
     cellAt (grid (freshBoard bm)) x y
     = mkCell (mineAt bm x y)
              (if mineAt bm x y then 0
               else countMineNeighbors (grid (freshBoard bm)) x y) HIDDEN) ∧
  ∃ g', initializeGridFixed sx sy bm g = Some g' ∧
        boardOk g' = true ∧
        countCells isFlagged (grid g') = 0 ∧
        (∀ x y, inBounds x y = true →
           isMine (cellAt (grid g') x y) = mineAt bm x y ∧
           neighboringMines (cellAt (grid g') x y)
           = neighboringMines (cellAt (grid (freshBoard bm)) x y)) ∧
        (inBounds sx sy = true → isRevealed (cellAt (grid g') sx sy) = true) ∧
        gameOver g' = inBounds sx sy && mineAt bm sx sy.
Proof.
  intros Hwf%gridOk_spec _.
  assert (initializeGridFixed sx sy bm g
          = (if (0 <=? sx) && (0 <=? sy) then revealCell STACK sx sy (freshBoard bm)
             else Some (freshBoard bm))) as Hinit.
  { rewrite initializeGridFixed_unfold. cbv zeta. unfold freshBoard.
    by rewrite (installed_board (grid g) (grid newGame) bm Hwf wf_newGame). }
  split_and!; [|done|apply freshBoard_boardOk|intros x y; apply freshBoard_cell|].
  { rewrite Hinit. rewrite initializeGridFixed_unfold. reflexivity. }
  rewrite Hinit. pose proof (wf_freshBoard bm) as Hwf0.
  pose proof (freshBoard_numbers bm) as Hnum0.
  assert (∃ g', (if (0 <=? sx) && (0 <=? sy)
                 then revealCell STACK sx sy (freshBoard bm)
                 else Some (freshBoard bm)) = Some g' ∧
                wf_grid (grid g') ∧ onlyReveals (freshBoard bm) g' ∧
                (inBounds sx sy = true → isHidden (cellAt (grid g') sx sy) = false) ∧
                gameOver g' = inBounds sx sy && mineAt bm sx sy)
    as (g1 & Hr1 & Hwf1 & HR1 & Hnh1 & Hover1).
  { destruct ((0 <=? sx) && (0 <=? sy)) eqn:Hpos.
    2:{ exists (freshBoard bm).
        assert (inBounds sx sy = false) as Hout.
        { apply inBounds_false. apply andb_false_iff in Hpos as [?%Z.leb_gt|?%Z.leb_gt]; lia. }
        rewrite Hout. split_and!; [done|done|apply onlyReveals_refl|done|done]. }
    destruct (revealCell_total (freshBoard bm) sx sy Hwf0)
      as (g1 & Hr & HR & Hwf1 & _ & Hnh).
    exists g1. split_and!; try done.
    destruct (inBounds sx sy) eqn:Hin.
    - destruct (mineAt bm sx sy) eqn:Hm.
      + unfold STACK in Hr. rewrite revealCell_mine in Hr;
          [by injection Hr as <-|done|done|by apply freshBoard_hidden|].
        by rewrite freshBoard_cell.
      + destruct (revealCell_flood STACK (freshBoard bm) sx sy)
          as (g2 & Hr2 & Hf & _); [done|done|apply hiddenCount_lt_STACK| |].
        { intros _. by rewrite freshBoard_cell. }
        rewrite Hr2 in Hr. injection Hr as ->. by rewrite (flood_gameOver _ _ Hf).
    - unfold STACK in Hr. rewrite revealCell_noop in Hr by (by rewrite Hin).
      by injection Hr as <-. }
  exists g1. pose proof (onlyReveals_layout _ _ HR1) as Hlay.
  split_and!; try done.
  - apply boardOk_intro; [done|]. by apply (numbers_ok_layout (grid (freshBoard bm))).
  - apply countCells_none. intros x y Hin.
    rewrite (onlyReveals_flagged _ _ x y HR1 Hin). by rewrite freshBoard_cell.
  - intros x y Hin. destruct (Hlay x y Hin) as [-> ->]. by rewrite freshBoard_cell.
  - intros Hin. apply (onlyReveals_revealed (freshBoard bm)); try done.
    + by apply freshBoard_hidden.
    + by apply Hnh1.
Qed.

Lemma initializeGridFixed_installs_the_bitmap_witness :
  ∃ g', initializeGridFixed 6 3 (mineGrid tiedScenario) newGame = Some g' ∧
        gameOver g' = false.
Proof.
  destruct (initializeGridFixed_installs_the_bitmap 6 3 (mineGrid tiedScenario) newGame)
    as (_ & _ & _ & _ & g' & Hr & _ & _ & _ & _ & Hover); [vm_compute; reflexivity..|].
  exists g'. split; [exact Hr|]. rewrite Hover. vm_compute. reflexivity.
Defined.

Lemma initializeGridFixed_safe_zone sx sy bm :
  bitmapOk bm = true → inBounds sx sy = true → safeZoneFree sx sy bm = true →
  ∃ g, initializeGridFixed sx sy bm newGame = Some g ∧
       gameOver g = false ∧
       ∀ x y, inBounds x y = true → isInSafeZone sx sy x y = true →
              isRevealed (cellAt (grid g) x y) = true ∧
              isMine (cellAt (grid g) x y) = false.
Proof.
  intros _ Hin Hfree. rewrite initializeGridFixed_unfold. cbv zeta.
  fold (freshBoard bm).
  assert ((0 <=? sx) && (0 <=? sy) = true) as ->.
  { apply inBounds_spec in Hin. apply andb_true_iff. rewrite !Z.leb_le. lia. }
  pose proof (wf_freshBoard bm) as Hwf0.
  assert (mineAt bm sx sy = false) as Hm.
  { pose proof (safeZoneFree_spec sx sy bm 0 0 Hfree) as H.
    rewrite !Z.add_0_r in H. apply H; [|done]. apply elem_of_offsets. lia. }
  assert (neighboringMines (cellAt (grid (freshBoard bm)) sx sy) = 0) as Hzero.
  { rewrite (freshBoard_numbers bm sx sy Hin) by (by rewrite freshBoard_cell).
    apply countMineNeighbors_zero. intros dx dy Hd Hin'.
    rewrite freshBoard_cell by done. cbn [isMine].
    by apply (safeZoneFree_spec sx sy bm dx dy). }
  destruct (revealCell_closed STACK (freshBoard bm) sx sy [])
    as (g & Hr & HR & Hwf & Hc & Hnh).
  { split_and!; [done|apply hiddenCount_lt_STACK|apply freshBoard_closed]. }
  destruct (revealCell_flood STACK (freshBoard bm) sx sy)
    as (g2 & Hr2 & Hf & _);
    [done|apply freshBoard_numbers|apply hiddenCount_lt_STACK| |].
  { intros _. by rewrite freshBoard_cell. }
  exists g. split_and!; [done| |].
  - rewrite Hr2 in Hr. injection Hr as ->. by rewrite (flood_gameOver _ _ Hf).
  - intros x y Hxy (dx & dy & Hd & -> & ->)%isInSafeZone_offsets.
    destruct (onlyReveals_layout _ _ HR sx sy Hin) as [Hm' Hn'].
    split.
    + apply (onlyReveals_revealed (freshBoard bm)); try done.
      { by apply freshBoard_hidden. }
      apply (Hc sx sy Hin (not_elem_of_nil _)); try done.
      * apply (onlyReveals_revealed (freshBoard bm)); try done.
        -- by apply freshBoard_hidden.
        -- by apply Hnh.
      * rewrite Hm'. by rewrite freshBoard_cell.
      * by rewrite Hn'.
    + destruct (onlyReveals_layout _ _ HR _ _ Hxy) as [-> _].
      rewrite freshBoard_cell by done. by apply (safeZoneFree_spec sx sy bm dx dy).
Qed.

(** X6: when no mine of the bitmap lies in the safe zone of a start cell on
    the board, [initializeGridFixed] returns a game that is not lost, with
    the start cell and every cell of its 3x3 block that is on the board
    revealed. *)
Theorem safe_zone_opening sx sy bm :
  bitmapOk bm = true → inBounds sx sy = true → safeZoneFree sx sy bm = true →
  ∃ g, initializeGridFixed sx sy bm newGame = Some g ∧
       gameOver g = false ∧
       ∀ x y, inBounds x y = true → isInSafeZone sx sy x y = true →
              isRevealed (cellAt (grid g) x y) = true ∧
              isMine (cellAt (grid g) x y) = false.
Proof. apply initializeGridFixed_safe_zone. Qed.

Lemma safe_zone_opening_witness :
  ∃ g, initializeGridFixed 6 3 (mineGrid tiedScenario) newGame = Some g ∧
       gameOver g = false.
Proof.
  destruct (safe_zone_opening 6 3 (mineGrid tiedScenario))
    as (g & Hr & Hover & _); [vm_compute; reflexivity..|].
  exists g. exact (conj Hr Hover).
Defined.





(** ** More of the genetic algorithm *)

(** X9: [createRandomIndividual] returns [NUM_RULES] rules whose fields lie
    in the ranges it draws them from (conditions in 0..8, scope in 1..2,
    priority in 1..10), with fitness 0, having taken eight draws per rule
    from the generator. *)
Theorem createRandomIndividual_in_range (rnd : nat → nat) k :
  genomeOk (createRandomIndividual rnd k).1 = true ∧
  Z.of_nat (length (rules (createRandomIndividual rnd k).1)) = NUM_RULES ∧
  fitness (createRandomIndividual rnd k).1 = 0%float ∧
  (createRandomIndividual rnd k).2 = (k + 8 * Z.to_nat NUM_RULES)%nat.
Proof.
  destruct (createRandomIndividual_spec rnd k) as (H1 & H2 & H3).
  split_and!; try done; by apply genomeOk_length.
Qed.

Lemma population_ok_intro (pop : list Individual) :
  Z.of_nat (length pop) = POPULATION_SIZE → forallb genomeOk pop = true →
  population_ok pop = true.
Proof.
  intros Hlen Hok. unfold population_ok. apply andb_true_iff.
  split; [by apply Z.eqb_eq|]. apply forallb_forall. intros ind Hi.
  apply genomeOk_ind_ok. by apply (proj1 (forallb_forall _ _) Hok).
Qed.

(** X10: when there is no checkpoint file, [main] starts from exactly
    [POPULATION_SIZE] random individuals, each with [NUM_RULES] rules in
    range; such a population, saved to any file that can be written, is
    loaded back whole. *)
Theorem fresh_population_is_well_formed (rnd : nat → nat) fs k :
  files fs !! "populacao_regras.dat" = None →
  Z.of_nat (length (startPopulation rnd fs k).1) = POPULATION_SIZE ∧
  forallb genomeOk (startPopulation rnd fs k).1 = true ∧
  ∀ filename fs',
    writable fs' filename = true →
    loadPopulation [] filename
                   (savePopulation (startPopulation rnd fs k).1 filename fs')
    = (true, (startPopulation rnd fs k).1).
Proof.
  intros Hnone. unfold startPopulation, loadPopulation. rewrite Hnone. cbn [negb].
  pose proof (push_random_length rnd (seq 0 (Z.to_nat POPULATION_SIZE)) [] k) as [Hlen _].
  pose proof (push_random_ok rnd (seq 0 (Z.to_nat POPULATION_SIZE)) [] k eq_refl) as Hok.
  destruct (fold_left _ _ _) as [pop k']. cbn [fst] in *.
  rewrite length_seq in Hlen. cbn [length] in Hlen.
  assert (Z.of_nat (length pop) = POPULATION_SIZE) as Hsize.
  { rewrite Hlen. unfold POPULATION_SIZE. lia. }
  split_and!; [done..|].
  intros filename fs' Hw. apply load_save_roundtrip; [done|].
  by apply population_ok_intro.
Qed.

Lemma fresh_population_is_well_formed_witness :
  Z.of_nat (length (startPopulation sampleDraws emptyDisk 0).1) = POPULATION_SIZE.
Proof.
  refine (proj1 (fresh_population_is_well_formed sampleDraws emptyDisk 0%nat _)).
  vm_compute. reflexivity.
Defined.

(** X11: [tournamentSelection] on a population that is not empty returns one
    of its individuals, having drawn [TOURNAMENT_SIZE] indices. *)
Theorem tournamentSelection_picks_a_member (rnd : nat → nat) (pop : list Individual) k :
  (0 < length pop)%nat →
  (tournamentSelection rnd pop k).1 ∈ pop ∧
  (tournamentSelection rnd pop k).2 = (k + Z.to_nat TOURNAMENT_SIZE)%nat.
Proof.
  intros Hlen. apply tournamentSelection_spec. destruct pop; [cbn in Hlen; lia|done].
Qed.

Lemma tournamentSelection_picks_a_member_witness :
  (tournamentSelection sampleDraws sampleParents 0).1 ∈ sampleParents.
Proof.
  refine (proj1 (tournamentSelection_picks_a_member sampleDraws sampleParents 0%nat _)).
  simpl. lia.
Defined.

(** X12: [mutate] keeps the number of rules and the stored fitness, and a
    genome in range stays in range; when no draw of the mutation test falls
    below [MUTATION_RATE] the individual comes back as it was, after eight
    draws per rule. *)
Theorem mutate_keeps_the_genome_in_range (rnd : nat → nat) (rndReal : nat → float)
    ind k :
  genomeOk ind = true →
  genomeOk (mutate rnd rndReal ind k).1 = true ∧
  length (rules (mutate rnd rndReal ind k).1) = length (rules ind) ∧
  fitness (mutate rnd rndReal ind k).1 = fitness ind ∧
  ((∀ k, (rndReal k <? MUTATION_RATE)%float = false) →
   mutate rnd rndReal ind k = (ind, (k + 8 * length (rules ind))%nat)).
Proof.
  intros Hok. destruct (mutate_spec rnd rndReal ind k Hok) as [H1 H2].
  split_and!; try done.
  - apply genomeOk_length in H1. apply genomeOk_length in Hok. lia.
  - apply mutate_idle.
Qed.

Lemma mutate_keeps_the_genome_in_range_witness :
  genomeOk (mutate sampleDraws sampleReals (individualAt sampleParents 0) 0).1 = true.
Proof.
  refine (proj1 (mutate_keeps_the_genome_in_range sampleDraws sampleReals
                   (individualAt sampleParents 0) 0%nat _)).
  vm_compute. reflexivity.
Defined.

(** X13: the offspring of parents in range are in range, and [crossover]
    leaves the fitness field of each offspring as it found it. *)
Theorem crossover_offspring_in_range (rnd : nat → nat) fuel p1 p2 o1 o2 k o1' o2' k' :
  crossover rnd fuel p1 p2 o1 o2 k = Some (o1', o2', k') →
  genomeOk p1 = true → genomeOk p2 = true →
  genomeOk o1' = true ∧ genomeOk o2' = true ∧
  fitness o1' = fitness o1 ∧ fitness o2' = fitness o2.
Proof.
  intros Hc Hp1 Hp2.
  destruct (crossover_genomeOk rnd _ _ _ _ _ _ _ _ _ Hc Hp1 Hp2).
  destruct (crossover_fitness rnd _ _ _ _ _ _ _ _ _ Hc). done.
Qed.

Lemma crossover_offspring_in_range_witness :
  ∃ o1' o2' k',
    crossover sampleDraws 100 (individualAt sampleParents 0) (individualAt sampleParents 1)
              Individual0 Individual0 0 = Some (o1', o2', k') ∧
    genomeOk o1' = true.
Proof.
  destruct (crossover sampleDraws 100 (individualAt sampleParents 0)
              (individualAt sampleParents 1) Individual0 Individual0 0)
    as [[[o1' o2'] k']|] eqn:Hc; [|vm_compute in Hc; discriminate].
  destruct (crossover_offspring_in_range _ _ _ _ _ _ _ _ _ _ Hc) as (H1 & _);
    [vm_compute; reflexivity..|].
  exists o1', o2', k'. split; [reflexivity|exact H1].
Defined.

(** X14: whatever the size of the current population, as long as it is not
    empty and its genomes are in range, the next generation has exactly
    [POPULATION_SIZE] individuals with genomes in range, so it can be
    checkpointed; its first individual is the first of the sorted
    population, unchanged, and its second the second one if there is one. *)
Theorem nextGeneration_has_population_size (rnd : nat → nat) (rndReal : nat → float)
    fuel drawFuel population sortedPop k result k' :
  nextGeneration rnd rndReal fuel drawFuel population sortedPop k = Some (result, k') →
  (0 < length population)%nat → (0 < length sortedPop)%nat →
  forallb genomeOk population = true → forallb genomeOk sortedPop = true →
  Z.of_nat (length result) = POPULATION_SIZE ∧
  forallb genomeOk result = true ∧
  population_ok result = true ∧
  result !! 0%nat = sortedPop !! 0%nat ∧
  ((1 < length sortedPop)%nat → result !! 1%nat = sortedPop !! 1%nat).
Proof.
  intros Hn Hpop Hsorted Hok Hsok. unfold nextGeneration in Hn.
  destruct sortedPop as [|s0 sorted']; [cbn in Hsorted; lia|].
  cbn [forallb] in Hsok. apply andb_true_iff in Hsok as [Hs0 Hsok].
  change (individualAt (s0 :: sorted') 0) with s0 in Hn.
  assert (population ≠ []) as Hne by (destruct population; [cbn in Hpop; lia|done]).
  destruct sorted' as [|s1 sorted''].
  - cbn [length] in Hn. change (1 <? 1)%nat with false in Hn.
    apply (fillPopulation_spec rnd rndReal fuel drawFuel population Hne Hok) in Hn
      as (H1 & H2 & H3); [|done|by cbn; rewrite Hs0].
    split_and!; [done|done|by apply population_ok_intro| |cbn; lia].
    cbn [length] in H3. destruct result; [done|]. cbn in H3. by injection H3 as ->.
  - cbn [forallb] in Hsok. apply andb_true_iff in Hsok as [Hs1 Hsok].
    cbn [length] in Hn. change (1 <? S (S (length sorted'')))%nat with true in Hn.
    change (individualAt (s0 :: s1 :: sorted'') 1) with s1 in Hn.
    apply (fillPopulation_spec rnd rndReal fuel drawFuel population Hne Hok) in Hn
      as (H1 & H2 & H3); [|done|by cbn; rewrite Hs0, Hs1].
    split_and!; [done|done|by apply population_ok_intro| |].
    + destruct result; [done|]. cbn in H3. by injection H3 as -> _.
    + intros _. destruct result as [|r0 [|r1 result]]; [done..|].
      cbn in H3. by injection H3 as _ ->.
Qed.

Lemma nextGeneration_returns :
  match nextGeneration (λ _, 0%nat) (λ _, 1%float) 300 100 sampleParents sampleParents 0 with
  | Some (result, _) => length result
  | None => 0%nat
  end = 300%nat.
Proof. vm_compute. reflexivity. Qed.

Lemma nextGeneration_has_population_size_witness :
  ∃ result k',
    nextGeneration (λ _, 0%nat) (λ _, 1%float) 300 100 sampleParents sampleParents 0
    = Some (result, k') ∧
    Z.of_nat (length result) = POPULATION_SIZE.
Proof.
  pose proof nextGeneration_returns as Hret.
  destruct (nextGeneration (λ _, 0%nat) (λ _, 1%float) 300 100 sampleParents sampleParents 0)
    as [[result k']|] eqn:Hn; [|discriminate Hret].
  destruct (nextGeneration_has_population_size _ _ _ _ _ _ _ _ _ Hn) as (H1 & _);
    [simpl; lia|simpl; lia|vm_compute; reflexivity..|].
  exists result, k'. split; [reflexivity|exact H1].
Defined.

(** X15: the number of differences [calculateGeneticDistance] counts between
    two individuals lies between 0 and 7 [NUM_RULES], is 0 between an
    individual and itself, does not depend on the order of the two, and
    does not see the priorities: changing the priority of any rules leaves
    it as it was.  The distance of an individual to itself is 0.0. *)
Theorem genetic_distance_ignores_priority a b :
  0 ≤ geneticDifferences a b ≤ 7 * NUM_RULES ∧
  geneticDifferences a a = 0 ∧
  geneticDifferences a b = geneticDifferences b a ∧
  calculateGeneticDistance a a = 0%float ∧
  calculateGeneticDistance a b = calculateGeneticDistance b a ∧
  (∀ a' b',
     length (rules a') = length (rules a) → length (rules b') = length (rules b) →
     (∀ i r r', rules a !! i = Some r → rules a' !! i = Some r' →
                ∃ v, r' = set_priority v r) →
     (∀ i r r', rules b !! i = Some r → rules b' !! i = Some r' →
                ∃ v, r' = set_priority v r) →
     geneticDifferences a' b' = geneticDifferences a b).
Proof.
  assert (geneticDifferences a a = 0) as Hrefl.
  { unfold geneticDifferences.
    rewrite (differences_ext _ (λ _, 0)); [|intros i _; apply ruleDifferences_refl].
    induction (seqZ 0 NUM_RULES) as [|i l IH]; [done|]. cbn [fold_left].
    by rewrite Z.add_0_r. }
  assert (geneticDifferences a b = geneticDifferences b a) as Hsym.
  { unfold geneticDifferences. apply differences_ext.
    intros i _. apply ruleDifferences_sym. }
  split; [|split_and!; try done].
  - unfold geneticDifferences.
    pose proof (differences_bounds (λ i, ruleDifferences (gene a i) (gene b i))
                  (seqZ 0 NUM_RULES) (λ i, ruleDifferences_bounds _ _)) as H.
    rewrite length_seqZ in H. pose proof NUM_RULES_pos. lia.
  - unfold calculateGeneticDistance. rewrite Hrefl. vm_compute. reflexivity.
  - unfold calculateGeneticDistance. by rewrite Hsym.
  - intros a' b' Hla Hlb Ha Hb. unfold geneticDifferences. apply differences_ext.
    intros i _.
    assert (∀ p p', length (rules p') = length (rules p) →
              (∀ i r r', rules p !! i = Some r → rules p' !! i = Some r' →
                         ∃ v, r' = set_priority v r) →
              ∃ v, gene p' i = set_priority v (gene p i)) as Hgene.
    { intros p p' Hl Hp. unfold gene.
      destruct (rules p !! Z.to_nat i) as [r|] eqn:E.
      - destruct (rules p' !! Z.to_nat i) as [r'|] eqn:E'.
        + cbn. by apply (Hp (Z.to_nat i)).
        + apply lookup_ge_None in E'. apply lookup_lt_Some in E. lia.
      - destruct (rules p' !! Z.to_nat i) as [r'|] eqn:E'.
        + apply lookup_ge_None in E. apply lookup_lt_Some in E'. lia.
        + cbn. by exists 0. }
    destruct (Hgene a a' Hla Ha) as [v ->]. destruct (Hgene b b' Hlb Hb) as [w ->].
    apply ruleDifferences_priority.
Qed.

(** ** The scenario bank on disk *)

(** X16: a bank file written record by record as [generateFixedGames]
    writes them, from scenarios with full-size bitmaps, is read back by
    [loadFixedGames] as the same scenarios in the same order, whatever the
    vector held before. *)
Theorem bank_file_roundtrip (uninitialised : nat → Z → Z → Z) fuel fgs fixedGames
    filename fs :
  forallb scenarioOk fgs = true → (length fgs < fuel)%nat →
  files fs !! filename = Some (bankBytes fgs) →
  loadFixedGames uninitialised fuel fixedGames filename fs = Some (true, fgs).
Proof.
  intros Hok Hfuel Hfile. unfold loadFixedGames. rewrite Hfile.
  by rewrite (readFixedGames_written uninitialised fgs fuel [] Hok Hfuel).
Qed.

Lemma bank_file_roundtrip_witness :
  loadFixedGames (λ _ _ _, 0) 3 [] "fixed_games.dat"
    (mkFileSystem {[ "fixed_games.dat" := bankBytes [tiedScenario; c2_scenario] ]}
                  (λ _, true))
  = Some (true, [tiedScenario; c2_scenario]).
Proof.
  apply bank_file_roundtrip; [vm_compute; reflexivity|simpl; lia|].
  apply lookup_singleton_eq.
Defined.

(** X17: [loadFixedGames] returns false, leaving the vector as it was, only
    when the file cannot be opened.  On a file that opens it returns true
    whatever the bytes are, within as many runs of its loop as the file has
    bytes, and every scenario it delivers has a bitmap of [GRID_HEIGHT] rows
    of [GRID_WIDTH] flags; an empty file gives an empty bank. *)
Theorem loadFixedGames_never_rejects_a_file (uninitialised : nat → Z → Z → Z)
    fixedGames filename fs :
  (files fs !! filename = None →
   ∀ fuel, loadFixedGames uninitialised fuel fixedGames filename fs
           = Some (false, fixedGames)) ∧
  (∀ bytes fuel,
     files fs !! filename = Some bytes → (length bytes < fuel)%nat →
     ∃ fgs, loadFixedGames uninitialised fuel fixedGames filename fs = Some (true, fgs) ∧
            forallb (λ fg, bitmapOk (mineGrid fg)) fgs = true) ∧
  (files fs !! filename = Some [] →
   ∀ fuel, loadFixedGames uninitialised fuel fixedGames filename fs = Some (true, [])).
Proof.
  unfold loadFixedGames. split_and!.
  - by intros ->.
  - intros bytes fuel -> Hfuel.
    destruct (readFixedGames_total uninitialised fuel [] (mkIstream bytes false))
      as (fgs & -> & Hok); [done|done|].
    exists fgs. split; [done|]. apply forallb_forall. intros fg Hfg.
    pose proof (proj1 (forallb_forall _ _) Hok fg Hfg) as H. unfold scenarioOk in H.
    by apply andb_true_iff in H as [[? _]%andb_true_iff _].
  - intros -> fuel. by destruct fuel.
Qed.

Lemma loadFixedGames_never_rejects_a_file_witness :
  loadFixedGames (λ _ _ _, 0) 5 [tiedScenario] "fixed_games.dat"
    (mkFileSystem {[ "fixed_games.dat" := [] ]} (λ _, true)) = Some (true, []).
Proof.
  refine (proj2 (proj2 (loadFixedGames_never_rejects_a_file (λ _ _ _, 0)
                          [tiedScenario] "fixed_games.dat" _)) _ 5%nat).
  apply lookup_singleton_eq.
Defined.

(** X18: [generateFixedGames], when the rejection loops that place the
    mines have all ended, has written one record per scenario asked for.
    Every scenario has its start cell on the board, a full-size bitmap with
    exactly [NUM_MINES] mines and none of them in the 3x3 block around the
    start cell; [loadFixedGames] reads the same scenarios back; and on each
    of them the opening move reveals the whole block around the start cell
    without losing.  When the file cannot be created nothing is written and
    no number is drawn. *)
Theorem generateFixedGames_makes_valid_scenarios (rnd : nat → nat)
    (uninitialised : nat → Z → Z → Z) fuel filename totalFixedGames fs k fs' k' :
  generateFixedGames rnd fuel filename totalFixedGames fs k = Some (fs', k') →
  (writable fs filename = false → fs' = fs ∧ k' = k) ∧
  (writable fs filename = true →
   ∃ fgs,
     length fgs = Z.to_nat totalFixedGames ∧
     files fs' !! filename = Some (bankBytes fgs) ∧
     forallb generatedOk fgs = true ∧
     (∀ fixedGames loadFuel,
        (length fgs < loadFuel)%nat →
        loadFixedGames uninitialised loadFuel fixedGames filename fs' = Some (true, fgs)) ∧
     ∀ fg, fg ∈ fgs →
       ∃ g, initializeGridFixed (startX fg) (startY fg) (mineGrid fg) newGame = Some g ∧
            gameOver g = false ∧
            ∀ x y, inBounds x y = true →
                   isInSafeZone (startX fg) (startY fg) x y = true →
                   isRevealed (cellAt (grid g) x y) = true).
Proof.
  unfold generateFixedGames. intros Hg. destruct (writable fs filename) eqn:Hw.
  2:{ cbn [negb] in Hg. injection Hg as <- <-. by split. }
  split; [done|]. intros _. cbn [negb] in Hg.
  destruct (generateLoop rnd fuel (Z.to_nat totalFixedGames) [] k)
    as [[[fgs ofs] k1]|] eqn:Hl; [|done].
  cbn [mbind option_bind] in Hg. injection Hg as <- <-.
  apply generateLoop_spec in Hl as (Hlen & Hgen & Hok & ->). cbn [app].
  exists fgs. cbn [files]. rewrite lookup_insert_eq. split_and!; try done.
  - intros fixedGames loadFuel Hfuel. unfold loadFixedGames. cbn [files].
    rewrite lookup_insert_eq.
    by rewrite (readFixedGames_written uninitialised fgs loadFuel [] Hok Hfuel).
  - intros fg Hfg%list_elem_of_In.
    pose proof (proj1 (forallb_forall _ _) Hgen fg Hfg) as H. unfold generatedOk in H.
    apply andb_true_iff in H as [[Hv Hin]%andb_true_iff Hfree].
    destruct (initializeGridFixed_safe_zone (startX fg) (startY fg) (mineGrid fg))
      as (g & Hr & Hover & Hcells); try done.
    + unfold validScenario in Hv. by apply andb_true_iff in Hv as [? _].
    + exists g. split_and!; [done..|]. intros x y Hxy Hz. by apply Hcells.
Qed.

Lemma generateFixedGames_returns :
  match generateFixedGames cellDraws 200 "fixed_games.dat" 2 emptyDisk 0 with
  | Some (fs', _) => bool_decide (is_Some (files fs' !! "fixed_games.dat"))
  | None => false
  end = true.
Proof. vm_compute. reflexivity. Qed.

Lemma generateFixedGames_makes_valid_scenarios_witness :
  ∃ fs' k' fgs,
    generateFixedGames cellDraws 200 "fixed_games.dat" 2 emptyDisk 0 = Some (fs', k') ∧
    length fgs = 2%nat ∧ forallb generatedOk fgs = true.
Proof.
  pose proof generateFixedGames_returns as Hret.
  destruct (generateFixedGames cellDraws 200 "fixed_games.dat" 2 emptyDisk 0)
    as [[fs' k']|] eqn:Hg; [|discriminate Hret].
  destruct (generateFixedGames_makes_valid_scenarios cellDraws (λ _ _ _, 0)
              _ _ _ _ _ _ _ Hg) as [_ H].
  destruct (H eq_refl) as (fgs & Hlen & _ & Hok & _).
  exists fs', k', fgs. split_and!; [reflexivity|exact Hlen|exact Hok].
Defined.

(** ** Checkpoints that are accepted *)

(** X19: whenever [loadPopulation] returns true, whatever the bytes of the
    file and whatever the vector held before, the vector it leaves has
    [POPULATION_SIZE] individuals with [NUM_RULES] rules each and every
    [int] field in the range of [int]; so saving it again to any file that
    can be written and loading that file gives the same population back. *)
Theorem accepted_checkpoint_is_well_formed population filename fs pop' :
  loadPopulation population filename fs = (true, pop') →
  population_ok pop' = true ∧
  ∀ population2 filename2 fs2,
    writable fs2 filename2 = true →
    loadPopulation population2 filename2 (savePopulation pop' filename2 fs2)
    = (true, pop').
Proof.
  intros Hok%loadPopulation_ok. split; [done|].
  intros population2 filename2 fs2 Hw. by apply load_save_roundtrip.
Qed.

Lemma accepted_checkpoint_is_well_formed_witness :
  population_ok samplePopulation = true.
Proof.
  refine (proj1 (accepted_checkpoint_is_well_formed [] "populacao_regras.dat"
            (savePopulation samplePopulation "populacao_regras.dat" emptyDisk)
            samplePopulation _)).
  apply load_save_roundtrip; [reflexivity|vm_compute; reflexivity].
Defined.

(** ** The human game *)

Lemma toggleFlag_hidden x y g :
  inBounds x y = true → state (cellAt (grid g) x y) = HIDDEN →
  toggleFlag x y (mkHumanGame g false)
  = mkHumanGame (set_grid (updCell x y (set_state FLAGGED) (grid g)) g) false.
Proof.
  intros Hin Hs. unfold toggleFlag, isRevealed. cbv zeta. cbn [board firstClick].
  by rewrite Hin, Hs.
Qed.

Lemma toggleFlag_flagged x y g :
  inBounds x y = true → state (cellAt (grid g) x y) = FLAGGED →
  toggleFlag x y (mkHumanGame g false)
  = mkHumanGame (set_grid (updCell x y (set_state HIDDEN) (grid g)) g) false.
Proof.
  intros Hin Hs. unfold toggleFlag, isRevealed. cbv zeta. cbn [board firstClick].
  by rewrite Hin, Hs.
Qed.

(** X20: [toggleFlag] on a board of the right size.  Two calls on the same
    cell leave the game as it was.  One call changes nothing before the
    first click, off the board or on a revealed cell; otherwise it changes
    the state of that one cell, from hidden to flagged or back, and nothing
    else: no other cell, no mine, no number, neither end flag, and it never
    reveals a cell or covers a revealed one. *)
Theorem toggleFlag_toggles x y h :
  gridOk (grid (board h)) = true →
  toggleFlag x y (toggleFlag x y h) = h ∧
  (firstClick h || negb (inBounds x y) || isRevealed (cellAt (grid (board h)) x y) = true →
   toggleFlag x y h = h) ∧
  firstClick (toggleFlag x y h) = firstClick h ∧
  gameOver (board (toggleFlag x y h)) = gameOver (board h) ∧
  youWin (board (toggleFlag x y h)) = youWin (board h) ∧
  gridOk (grid (board (toggleFlag x y h))) = true ∧
  ∀ x' y', inBounds x' y' = true →
    let c := cellAt (grid (board h)) x' y' in
    let c' := cellAt (grid (board (toggleFlag x y h))) x' y' in
    isMine c' = isMine c ∧ neighboringMines c' = neighboringMines c ∧
    isRevealed c' = isRevealed c ∧
    (state c' ≠ state c →
     (x', y') = (x, y) ∧ firstClick h = false ∧
     (state c = HIDDEN ∧ state c' = FLAGGED ∨ state c = FLAGGED ∧ state c' = HIDDEN)).
Proof.
  intros Hwf%gridOk_spec.
  assert (firstClick h || negb (inBounds x y)
          || isRevealed (cellAt (grid (board h)) x y) = true → toggleFlag x y h = h)
    as Hidle.
  { unfold toggleFlag. cbv zeta.
    destruct (inBounds x y), (isRevealed (cellAt (grid (board h)) x y)),
      (firstClick h); cbn [negb orb]; done. }
  destruct (firstClick h || negb (inBounds x y)
            || isRevealed (cellAt (grid (board h)) x y)) eqn:Hc.
  { rewrite !(Hidle eq_refl). split_and!; try done; try (by apply gridOk_spec). }
  apply orb_false_iff in Hc as [[Hf Hin%negb_false_iff]%orb_false_iff Hr].
  destruct h as [g fc]. cbn [board firstClick] in *. subst fc.
  assert (∀ s s', state (cellAt (grid g) x y) = s →
            updCell x y (set_state s) (updCell x y (set_state s') (grid g)) = grid g)
    as Hback.
  { intros s s' Hs. apply grid_ext; [done|by do 2 apply wf_updCell|].
    intros x' y' Hin'. rewrite !cellAt_updCell by (done || by apply wf_updCell).
    rewrite (decide_True (P := (x, y) = (x, y))) by done.
    destruct (decide ((x, y) = (x', y'))) as [[= <- <-]|Hne]; [|done].
    rewrite <- Hs. destruct (cellAt (grid g) x y). reflexivity. }
  assert (∀ s x' y', inBounds x' y' = true →
            cellAt (updCell x y (set_state s) (grid g)) x' y'
            = if decide ((x, y) = (x', y')) then set_state s (cellAt (grid g) x y)
              else cellAt (grid g) x' y') as Hcell.
  { intros s x' y' Hin'. by apply cellAt_updCell. }
  unfold isRevealed in Hr.
  destruct (state (cellAt (grid g) x y)) eqn:Hs; [|done|].
  - rewrite (toggleFlag_hidden x y g Hin Hs).
    rewrite toggleFlag_flagged
      by (done || (cbn [grid set_grid]; by rewrite cellAt_updCell_eq)).
    cbn [board firstClick grid set_grid gameOver youWin].
    rewrite (Hback HIDDEN FLAGGED eq_refl).
    split_and!; try done; [by destruct g|apply gridOk_spec; by apply wf_updCell|].
    intros x' y' Hin'. cbv zeta. rewrite (Hcell FLAGGED x' y' Hin').
    case_decide as Heq; [|by split_and!]. injection Heq as <- <-.
    unfold isRevealed. cbn [isMine neighboringMines state set_state]. rewrite Hs.
    split_and!; try done. intros _. split_and!; try done. by left.
  - rewrite (toggleFlag_flagged x y g Hin Hs).
    rewrite toggleFlag_hidden
      by (done || (cbn [grid set_grid]; by rewrite cellAt_updCell_eq)).
    cbn [board firstClick grid set_grid gameOver youWin].
    rewrite (Hback FLAGGED HIDDEN eq_refl).
    split_and!; try done; [by destruct g|apply gridOk_spec; by apply wf_updCell|].
    intros x' y' Hin'. cbv zeta. rewrite (Hcell HIDDEN x' y' Hin').
    case_decide as Heq; [|by split_and!]. injection Heq as <- <-.
    unfold isRevealed. cbn [isMine neighboringMines state set_state]. rewrite Hs.
    split_and!; try done. intros _. split_and!; try done. by right.
Qed.

Lemma toggleFlag_toggles_witness :
  toggleFlag 2 3 (toggleFlag 2 3 (mkHumanGame newGame false)) = mkHumanGame newGame false.
Proof.
  refine (proj1 (toggleFlag_toggles 2 3 (mkHumanGame newGame false) _)).
  vm_compute. reflexivity.
Defined.

(** X21: the first left click of a game, on a cell of the board.  When the
    loop that places the mines has ended, the board is the one the agent's
    [initializeGridFixed] builds from a scenario as [generateFixedGames]
    makes them, with that start cell: [NUM_MINES] mines, none in the 3x3
    block around the click.  The game is not lost, every cell of that block
    is revealed, and [firstClick] is off. *)
Theorem first_click_is_safe (rnd : nat → nat) fuel sx sy h k h' k' :
  gridOk (grid (board h)) = true → inBounds sx sy = true →
  startGameAt rnd fuel sx sy (initializeGrid h) k = Some (h', k') →
  firstClick h' = false ∧
  ∃ bm, generatedOk (mkFixedGame sx sy bm) = true ∧
        initializeGridFixed sx sy bm newGame = Some (board h') ∧
        gameOver (board h') = false ∧
        ∀ x y, inBounds x y = true → isInSafeZone sx sy x y = true →
               isRevealed (cellAt (grid (board h')) x y) = true ∧
               isMine (cellAt (grid (board h')) x y) = false.
Proof.
  intros Hwf%gridOk_spec Hin. rewrite (initializeGrid_fresh h Hwf).
  intros (Hf & bm & Hbm & Hcount & Hfree & Hr)%startGameAt_scenario.
  split; [done|]. exists bm.
  pose proof (proj2 (bitmapOk_spec bm) Hbm) as Hok.
  destruct (initializeGridFixed_safe_zone sx sy bm Hok Hin Hfree)
    as (g & Hinit & Hover & Hcells).
  assert (g = board h') as ->.
  { rewrite initializeGridFixed_unfold in Hinit. cbv zeta in Hinit.
    fold (freshBoard bm) in Hinit.
    assert ((0 <=? sx) && (0 <=? sy) = true) as Hpos.
    { apply inBounds_spec in Hin. apply andb_true_iff. rewrite !Z.leb_le. lia. }
    rewrite Hpos, Hr in Hinit. by injection Hinit as <-. }
  split_and!; try done.
  unfold generatedOk, validScenario. cbn [mineGrid startX startY].
  rewrite Hin, Hfree, !andb_true_r. unfold bitmapOk in Hok. rewrite Hok. cbn [andb].
  by apply Z.eqb_eq.
Qed.

Lemma first_click_returns :
  match startGameAt cellDraws 200 4 4 (initializeGrid HumanGame0) 0 with
  | Some _ => true
  | None => false
  end = true.
Proof. vm_compute. reflexivity. Qed.

Lemma first_click_is_safe_witness :
  ∃ h' k', startGameAt cellDraws 200 4 4 (initializeGrid HumanGame0) 0 = Some (h', k') ∧
           firstClick h' = false.
Proof.
  pose proof first_click_returns as Hret.
  destruct (startGameAt cellDraws 200 4 4 (initializeGrid HumanGame0) 0)
    as [[h' k']|] eqn:Hs; [|discriminate Hret].
  exists h', k'. split; [reflexivity|].
  refine (proj1 (first_click_is_safe cellDraws 200 4 4 HumanGame0 0 h' k' _ _ Hs));
    vm_compute; reflexivity.
Defined.

(** X22: a session of the human game, from [initializeGrid] through any
    sequence of clicks and presses of the R key.  Until the first left
    click the board is blank, so no flag can be placed before it.  From then
    on the board has the right size, [NUM_MINES] mines and the right
    numbers; a mine is revealed only in a lost game, and then exactly one;
    the win flag is up exactly when all the safe cells are revealed; and
    the game is never both won and lost. *)
Theorem human_session_invariant (rnd : nat → nat) fuel events h k h' k' :
  gridOk (grid (board h)) = true →
  handleEvents rnd fuel events (initializeGrid h) k = Some (h', k') →
  (firstClick h' = true → board h' = newGame) ∧
  (firstClick h' = false →
   boardOk (board h') = true ∧
   countCells isMine (grid (board h')) = NUM_MINES ∧
   minesRevealed (board h') = (if gameOver (board h') then 1 else 0) ∧
   (youWin (board h') = true ↔ safeRevealed (board h') = SAFE_CELLS) ∧
   gameOver (board h') && youWin (board h') = false).
Proof.
  intros Hwf%gridOk_spec Hr. rewrite (initializeGrid_fresh h Hwf) in Hr.
  assert (sessionOk HumanGame0) as H0 by reflexivity.
  pose proof (handleEvents_session rnd fuel events _ _ _ _ H0 Hr) as Hok.
  unfold sessionOk in Hok. destruct (firstClick h'); split; try done. intros _.
  destruct Hok as [[Hl Hw]|Hl].
  - rewrite (lh_gameOver _ Hl). split_and!.
    + apply boardOk_intro; apply Hl.
    + apply Hl.
    + by apply liveHuman_minesRevealed.
    + rewrite (liveHuman_safeRevealed _ Hl). split; [apply Hl|done].
    + done.
  - rewrite (lostH_gameOver _ Hl), (lostH_youWin _ Hl). split_and!.
    + apply boardOk_intro; apply Hl.
    + apply Hl.
    + apply Hl.
    + split; [done|]. pose proof (lostH_safe _ Hl). lia.
    + done.
Qed.

(** A session: a first click, a flag on a mine and a click on it, the flag
    taken off and the mine clicked, a click on the lost board. *)
Lemma human_session_returns :
  match handleEvents cellDraws 200
          [LeftButtonDown 10 10; RightButtonDown 70 10; LeftButtonDown 70 10;
           RightButtonDown 70 10; LeftButtonDown 70 10; LeftButtonDown 200 200]
          (initializeGrid HumanGame0) 0 with
  | Some (h', _) => negb (firstClick h') && gameOver (board h')
  | None => false
  end = true.
Proof. vm_compute. reflexivity. Qed.

Lemma human_session_invariant_witness :
  ∃ h' k',
    handleEvents cellDraws 200
      [LeftButtonDown 10 10; RightButtonDown 70 10; LeftButtonDown 70 10;
       RightButtonDown 70 10; LeftButtonDown 70 10; LeftButtonDown 200 200]
      (initializeGrid HumanGame0) 0 = Some (h', k') ∧
    (firstClick h' = false → minesRevealed (board h') = if gameOver (board h') then 1 else 0).
Proof.
  pose proof human_session_returns as Hret.
  destruct (handleEvents cellDraws 200 _ (initializeGrid HumanGame0) 0)
    as [[h' k']|] eqn:Hs; [|discriminate Hret].
  exists h', k'. split; [reflexivity|]. intros Hf.
  destruct (human_session_invariant cellDraws 200 _ HumanGame0 0 h' k'
              ltac:(vm_compute; reflexivity) Hs) as [_ H].
  exact (proj1 (proj2 (proj2 (H Hf)))).
Defined.
